(** * CertChain: the certificate service and its local-storage fallback

    A shallow embedding of [src/lib/api.ts] (the [CertificateAPI] class, its
    [fallbackToLocalStorage] branches and [initializeSampleData]), of the
    earlier pure-localStorage module that exports the same [certificateAPI]
    object, of [generateDataHash] from the blockchain utilities and of the
    submit handler of the issue form, with the properties the specification
    states about them.

    JavaScript strings are sequences of UTF-16 code units, [localStorage] is
    a finite map from strings to strings, and the platform functions the code
    calls ([JSON.stringify], [JSON.parse], [Number.prototype.toString],
    [String.prototype.substring], [Array.prototype.sort], ...) are modelled
    as executable functions.  Every reading of the clock or of the random
    source is an explicit input. *)

From Stdlib Require Import ZArith NArith List Ascii String Permutation Sorted Lia.
From stdpp Require Import base option list gmap.

Local Open Scope N_scope.

(** ** JavaScript strings *)

(** A string is the list of its UTF-16 code units. *)
Abbreviation jsstring := (list N).

(** A literal of the source, written as a Rocq string of ASCII characters. *)
Definition js (s : string) : jsstring :=
  (fun a => N_of_ascii a) <$> list_ascii_of_string s.
Arguments js s%_string.

(** [s.charCodeAt(i)]; [None] stands for [NaN] (index out of range). *)
Definition charCodeAt (s : jsstring) (i : N) : option N := s !! N.to_nat i.

(** [s.substring(start, end)] for [0 <= start <= end]. *)
Definition substring (start stop : nat) (s : jsstring) : jsstring :=
  take (stop - start)%nat (drop start s).

(** [s.startsWith(p)]. *)
Fixpoint startsWith (p s : jsstring) : bool :=
  match p, s with
  | [], _ => true
  | _ :: _, [] => false
  | a :: p', b :: s' => (a =? b) && startsWith p' s'
  end.

(** [s.split(sep).pop()] for a one-unit separator: the part of [s] after the
    last occurrence of [sep], all of [s] when there is none. *)
Fixpoint split_pop_from (sep : N) (s cur : jsstring) : jsstring :=
  match s with
  | [] => cur
  | c :: r => if c =? sep then split_pop_from sep r [] else split_pop_from sep r (cur ++ [c])
  end.

Definition split_pop (sep : N) (s : jsstring) : jsstring := split_pop_from sep s [].

(** [s.toUpperCase()] on the ASCII letters; the other code units are left as
    they are (none occurs in the radix-36 renderings it is applied to). *)
Definition toUpperCase_unit (c : N) : N :=
  if (97 <=? c) && (c <=? 122) then c - 32 else c.

Definition toUpperCase (s : jsstring) : jsstring := toUpperCase_unit <$> s.

(** [s.trim()] is not needed; [!s] on a string is emptiness. *)
Definition falsy (s : jsstring) : bool :=
  match s with [] => true | _ => false end.

(** ** Numbers rendered as text *)

(** The digit characters [0-9a-z] used by [Number.prototype.toString(radix)]. *)
Definition digit_char (d : N) : N := if d <? 10 then 48 + d else 87 + d.

Fixpoint to_radix (radix : N) (fuel : nat) (n : N) (acc : jsstring) : jsstring :=
  match fuel with
  | O => acc
  | S fuel' =>
      let acc' := digit_char (n mod radix) :: acc in
      if n / radix =? 0 then acc' else to_radix radix fuel' (n / radix) acc'
  end.

(** [n.toString(radix)] for a non-negative integer [n] and [2 <= radix <= 36]. *)
Definition N_toString (radix n : N) : jsstring :=
  to_radix radix (S (N.to_nat (N.log2 n))) n [].

(** [String(z)] for an integer [z] below 10^21 in absolute value, as in a
    template literal or [z.toString()]. *)
Definition Z_toString (z : Z) : jsstring :=
  match z with
  | Zneg p => 45 :: N_toString 10 (Npos p)
  | _ => N_toString 10 (Z.to_N z)
  end.

(** [xs.join(sep)]. *)
Fixpoint join (sep : jsstring) (xs : list jsstring) : jsstring :=
  match xs with
  | [] => []
  | [x] => x
  | x :: r => x ++ sep ++ join sep r
  end.

(** ** JSON *)

Module JSON.

(** The values [JSON.parse] returns.  A number is kept as an exact decimal
    [m * 10^e]: the modelled code stores no number and computes with none.
    An object is the list of its properties in insertion order. *)
#[local] Unset Elimination Schemes.
Inductive value :=
| JNull
| JBool (b : bool)
| JNumber (m e : Z)
| JString (s : jsstring)
| JArray (l : list value)
| JObject (fields : list (jsstring * value)).
#[local] Set Elimination Schemes.

(** *** [JSON.stringify] *)

(** [\uXXXX] with lowercase digits. *)
Definition unicode_escape (c : N) : jsstring :=
  [92; 117; digit_char (c / 4096 mod 16); digit_char (c / 256 mod 16);
   digit_char (c / 16 mod 16); digit_char (c mod 16)].

Definition is_high_surrogate (c : N) : bool := (55296 <=? c) && (c <=? 56319).
Definition is_low_surrogate (c : N) : bool := (56320 <=? c) && (c <=? 57343).

(** One code unit that is not a surrogate, as QuoteJSONString writes it. *)
Definition escape_unit (c : N) : jsstring :=
  if c =? 8 then [92; 98]
  else if c =? 9 then [92; 116]
  else if c =? 10 then [92; 110]
  else if c =? 12 then [92; 102]
  else if c =? 13 then [92; 114]
  else if c =? 34 then [92; 34]
  else if c =? 92 then [92; 92]
  else if c <? 32 then unicode_escape c
  else [c].

(** The characters between the quotes: a surrogate pair is copied, a lone
    surrogate is escaped (well-formed [JSON.stringify]). *)
Fixpoint quote_units (s : jsstring) : jsstring :=
  match s with
  | [] => []
  | c :: r =>
      if is_high_surrogate c then
        match r with
        | d :: r' =>
            if is_low_surrogate d then c :: d :: quote_units r'
            else unicode_escape c ++ quote_units r
        | [] => unicode_escape c
        end
      else if is_low_surrogate c then unicode_escape c ++ quote_units r
      else escape_unit c ++ quote_units r
  end.

Definition quote (s : jsstring) : jsstring := 34 :: quote_units s ++ [34].

Definition stringify_number (m e : Z) : jsstring :=
  Z_toString m ++ (if (e =? 0)%Z then [] else 101 :: Z_toString e).

(** [JSON.stringify(v)] without indentation. *)
Fixpoint stringify (v : value) : jsstring :=
  match v with
  | JNull => js "null"
  | JBool true => js "true"
  | JBool false => js "false"
  | JNumber m e => stringify_number m e
  | JString s => quote s
  | JArray l => 91 :: join [44] (map stringify l) ++ [93]
  | JObject fields =>
      123 :: join [44] (map (fun kv => quote (fst kv) ++ 58 :: stringify (snd kv)) fields)
          ++ [125]
  end.

(** *** [JSON.parse] *)

Definition is_ws (c : N) : bool :=
  (c =? 32) || (c =? 9) || (c =? 10) || (c =? 13).

Fixpoint skip_ws (s : jsstring) : jsstring :=
  match s with
  | c :: r => if is_ws c then skip_ws r else s
  | [] => []
  end.

Definition hex_value (c : N) : option N :=
  if (48 <=? c) && (c <=? 57) then Some (c - 48)
  else if (97 <=? c) && (c <=? 102) then Some (c - 87)
  else if (65 <=? c) && (c <=? 70) then Some (c - 55)
  else None.

Definition hex4 (h1 h2 h3 h4 : N) : option N :=
  match hex_value h1, hex_value h2, hex_value h3, hex_value h4 with
  | Some a, Some b, Some c, Some d => Some (a * 4096 + b * 256 + c * 16 + d)
  | _, _, _, _ => None
  end.

(** The character a two-character escape stands for. *)
Definition unescape (e : N) : option N :=
  if e =? 34 then Some 34
  else if e =? 92 then Some 92
  else if e =? 47 then Some 47
  else if e =? 98 then Some 8
  else if e =? 102 then Some 12
  else if e =? 110 then Some 10
  else if e =? 114 then Some 13
  else if e =? 116 then Some 9
  else None.

Definition prepend (c : N) (p : option (jsstring * jsstring)) : option (jsstring * jsstring) :=
  match p with
  | Some (str, rest) => Some (c :: str, rest)
  | None => None
  end.

(** The characters of a string literal after its opening quote, up to and
    including the closing quote; the unread text is returned with them. *)
Fixpoint parse_chars (s : jsstring) : option (jsstring * jsstring) :=
  match s with
  | [] => None
  | c :: r =>
      if c =? 34 then Some ([], r)
      else if c =? 92 then
        match r with
        | [] => None
        | e :: r' =>
            if e =? 117 then
              match r' with
              | h1 :: h2 :: h3 :: h4 :: r'' =>
                  match hex4 h1 h2 h3 h4 with
                  | Some u => prepend u (parse_chars r'')
                  | None => None
                  end
              | _ => None
              end
            else
              match unescape e with
              | Some u => prepend u (parse_chars r')
              | None => None
              end
        end
      else if c <? 32 then None
      else prepend c (parse_chars r)
  end.

Definition is_digit (c : N) : bool := (48 <=? c) && (c <=? 57).

(** The longest prefix of decimal digits, read as a number, with how many
    digits it has and the unread text. *)
Fixpoint span_digits (s : jsstring) (acc : N) (count : nat) : N * nat * jsstring :=
  match s with
  | c :: r => if is_digit c then span_digits r (acc * 10 + (c - 48)) (S count) else (acc, count, s)
  | [] => (acc, count, [])
  end.

(** A number literal: an optional minus sign, an integer part without a
    leading zero, an optional fraction and an optional exponent. *)
Definition parse_number (s : jsstring) : option (value * jsstring) :=
  let '(neg, s1) := match s with 45 :: r => (true, r) | _ => (false, s) end in
  let int_part :=
    match s1 with
    | 48 :: r => Some (0, r)
    | c :: _ => if is_digit c then let '(n, _, r) := span_digits s1 0 0 in Some (n, r) else None
    | [] => None
    end in
  match int_part with
  | None => None
  | Some (i, s2) =>
      let frac_part :=
        match s2 with
        | 46 :: r =>
            let '(n, k, r') := span_digits r i 0 in
            match k with O => None | _ => Some (n, k, r') end
        | _ => Some (i, O, s2)
        end in
      match frac_part with
      | None => None
      | Some (mant, k, s3) =>
          let exp_part :=
            match s3 with
            | c :: r =>
                if (c =? 101) || (c =? 69) then
                  let '(eneg, r1) :=
                    match r with
                    | 45 :: r' => (true, r')
                    | 43 :: r' => (false, r')
                    | _ => (false, r)
                    end in
                  let '(n, d, r2) := span_digits r1 0 0 in
                  match d with
                  | O => None
                  | _ => Some (if eneg then (- Z.of_N n)%Z else Z.of_N n, r2)
                  end
                else Some (0%Z, s3)
            | [] => Some (0%Z, [])
            end in
          match exp_part with
          | None => None
          | Some (e, s4) =>
              let m := if neg then (- Z.of_N mant)%Z else Z.of_N mant in
              Some (JNumber m (e - Z.of_nat k), s4)
          end
      end
  end.

(** [text] without the prefix [p], when it starts with it. *)
Fixpoint strip_prefix (p text : jsstring) : option jsstring :=
  match p, text with
  | [], _ => Some text
  | a :: p', b :: text' => if a =? b then strip_prefix p' text' else None
  | _ :: _, [] => None
  end.

(** Defining a property: a repeated name keeps its place and takes the later
    value. *)
Fixpoint set_field (k : jsstring) (v : value) (fields : list (jsstring * value))
  : list (jsstring * value) :=
  match fields with
  | [] => [(k, v)]
  | (k', v') :: r =>
      if decide (k = k') then (k', v) :: r else (k', v') :: set_field k v r
  end.

(** Recursive descent.  [fuel] bounds the depth of the recursion; each level
    consumes a character, so the length of the text is enough. *)
Fixpoint parse_value (fuel : nat) (s : jsstring) : option (value * jsstring) :=
  match fuel with
  | O => None
  | S fuel' =>
      match skip_ws s with
      | [] => None
      | c :: r =>
          if c =? 34 then
            match parse_chars r with
            | Some (str, r') => Some (JString str, r')
            | None => None
            end
          else if c =? 91 then
            match skip_ws r with
            | c' :: r' =>
                if c' =? 93 then Some (JArray [], r') else parse_elements fuel' r []
            | [] => None
            end
          else if c =? 123 then
            match skip_ws r with
            | c' :: r' =>
                if c' =? 125 then Some (JObject [], r') else parse_members fuel' r []
            | [] => None
            end
          else if c =? 110 then
            match strip_prefix (js "null") (c :: r) with
            | Some r' => Some (JNull, r')
            | None => None
            end
          else if c =? 116 then
            match strip_prefix (js "true") (c :: r) with
            | Some r' => Some (JBool true, r')
            | None => None
            end
          else if c =? 102 then
            match strip_prefix (js "false") (c :: r) with
            | Some r' => Some (JBool false, r')
            | None => None
            end
          else parse_number (c :: r)
      end
  end
with parse_elements (fuel : nat) (s : jsstring) (acc : list value)
  : option (value * jsstring) :=
  match fuel with
  | O => None
  | S fuel' =>
      match parse_value fuel' s with
      | Some (v, r) =>
          match skip_ws r with
          | c :: r' =>
              if c =? 44 then parse_elements fuel' r' (acc ++ [v])
              else if c =? 93 then Some (JArray (acc ++ [v]), r')
              else None
          | [] => None
          end
      | None => None
      end
  end
with parse_members (fuel : nat) (s : jsstring) (acc : list (jsstring * value))
  : option (value * jsstring) :=
  match fuel with
  | O => None
  | S fuel' =>
      match skip_ws s with
      | c :: r =>
          if c =? 34 then
            match parse_chars r with
            | Some (k, r1) =>
                match skip_ws r1 with
                | c1 :: r2 =>
                    if c1 =? 58 then
                      match parse_value fuel' r2 with
                      | Some (v, r3) =>
                          match skip_ws r3 with
                          | c3 :: r4 =>
                              if c3 =? 44 then parse_members fuel' r4 (set_field k v acc)
                              else if c3 =? 125 then Some (JObject (set_field k v acc), r4)
                              else None
                          | [] => None
                          end
                      | None => None
                      end
                    else None
                | [] => None
                end
            | None => None
            end
          else None
      | [] => None
      end
  end.

(** [JSON.parse(text)]; [None] is the [SyntaxError] it throws. *)
Definition parse (text : jsstring) : option value :=
  match parse_value (S (length text)) text with
  | Some (v, rest) =>
      match skip_ws rest with
      | [] => Some v
      | _ :: _ => None
      end
  | None => None
  end.

(** *** Values that survive a round trip through text *)

(** Values without numbers whose objects have distinct property names: the
    values the service writes. *)
#[local] Unset Elimination Schemes.
Inductive plain : value -> Prop :=
| plain_null : plain JNull
| plain_bool b : plain (JBool b)
| plain_string s : plain (JString s)
| plain_array l : Forall plain l -> plain (JArray l)
| plain_object fields :
    NoDup (map fst fields) -> Forall (fun kv => plain (snd kv)) fields ->
    plain (JObject fields).

#[local] Set Elimination Schemes.

(** The nesting a value needs of the parser, bounded by the length of its text. *)
Fixpoint weight (v : value) : nat :=
  match v with
  | JArray l => S (list_sum (map (fun x => S (weight x)) l))
  | JObject fields => S (list_sum (map (fun kv => S (weight (snd kv))) fields))
  | _ => 1
  end.

(** The text of one property of an object. *)
Definition member_text (kv : jsstring * value) : jsstring :=
  quote (fst kv) ++ 58 :: stringify (snd kv).

(** Induction on values that reaches the elements of arrays and objects. *)
Section value_induction.
Variable P : value -> Prop.
Hypothesis Pnull : P JNull.
Hypothesis Pbool : forall b, P (JBool b).
Hypothesis Pnumber : forall m e, P (JNumber m e).
Hypothesis Pstring : forall s, P (JString s).
Hypothesis Parray : forall l, Forall P l -> P (JArray l).
Hypothesis Pobject : forall fields, Forall (fun kv => P (snd kv)) fields -> P (JObject fields).

Fixpoint value_nested_ind (v : value) : P v :=
  match v with
  | JNull => Pnull
  | JBool b => Pbool b
  | JNumber m e => Pnumber m e
  | JString s => Pstring s
  | JArray l =>
      Parray l
        ((fix elements (l : list value) : Forall P l :=
            match l with
            | [] => List.Forall_nil P
            | x :: r => List.Forall_cons P x r (value_nested_ind x) (elements r)
            end) l)
  | JObject fields =>
      Pobject fields
        ((fix members (fs : list (jsstring * value)) : Forall (fun kv => P (snd kv)) fs :=
            match fs with
            | [] => List.Forall_nil _
            | kv :: r =>
                List.Forall_cons (fun kv => P (snd kv)) kv r (value_nested_ind (snd kv)) (members r)
            end) fields)
  end.
End value_induction.

End JSON.

(** ** Outcomes, storage and the certificate types *)

(** What a call can throw: the [SyntaxError] of [JSON.parse], or an [Error]
    with its message. *)
Inductive exn :=
| SyntaxError
| Error (message : jsstring).

(** The outcome of a call.  [Untyped] marks a run in which a value read from
    storage does not inhabit the TypeScript type the code declares for it
    ([Certificate[]], [IssueCertificateRequest]): TypeScript does not check
    such a cast, and the run is outside this typed model. *)
Inductive result (A : Type) :=
| Return (a : A)
| Throw (e : exn)
| Untyped.
Arguments Return {A} a.
Arguments Throw {A} e.
Arguments Untyped {A}.

(** [window.localStorage]. *)
Abbreviation localStorage := (gmap (list N) (list N)).

(** Code that reads and writes [localStorage] and may throw. *)
Definition M (A : Type) : Type := localStorage -> result A * localStorage.

Definition ret {A} (a : A) : M A := fun ls => (Return a, ls).

Definition throw {A} (e : exn) : M A := fun ls => (Throw e, ls).

Definition lift {A} (r : result A) : M A := fun ls => (r, ls).

Definition bind {A B} (m : M A) (k : A -> M B) : M B :=
  fun ls =>
    match m ls with
    | (Return a, ls') => k a ls'
    | (Throw e, ls') => (Throw e, ls')
    | (Untyped, ls') => (Untyped, ls')
    end.

(** [try { m } catch (error) { h }]. *)
Definition try_catch {A} (m : M A) (h : exn -> M A) : M A :=
  fun ls =>
    match m ls with
    | (Throw e, ls') => h e ls'
    | other => other
    end.

Declare Scope M_scope.
Delimit Scope M_scope with M.
Notation "x <- m ;; k" := (bind m (fun x => k))
  (at level 100, m at next level, right associativity) : M_scope.
Notation "m ;;; k" := (bind m (fun _ => k))
  (at level 100, right associativity) : M_scope.

(** [localStorage.getItem(key)]; [None] is [null]. *)
Definition getItem (key : jsstring) : M (option jsstring) :=
  fun ls => (Return (ls !! key), ls).

(** [localStorage.setItem(key, text)]. *)
Definition setItem (key text : jsstring) : M unit :=
  fun ls => (Return tt, <[key := text]> ls).

Module Certificate.
Record t := {
  _id : jsstring;
  certificateId : jsstring;
  recipientName : jsstring;
  recipientEmail : jsstring;
  courseName : jsstring;
  issuerName : jsstring;
  completionDate : jsstring;
  description : jsstring;
  issuedAt : jsstring;
  blockchainHash : jsstring;
  isValid : bool
}.
End Certificate.

Module IssueCertificateRequest.
Record t := {
  recipientName : jsstring;
  recipientEmail : jsstring;
  courseName : jsstring;
  issuerName : jsstring;
  completionDate : jsstring;
  description : jsstring
}.
End IssueCertificateRequest.

#[global] Instance Certificate_eq_dec : EqDecision Certificate.t.
Proof. solve_decision. Defined.

#[global] Instance Request_eq_dec : EqDecision IssueCertificateRequest.t.
Proof. solve_decision. Defined.

(** *** Records as JSON objects *)

(** [o[name]] on a parsed object. *)
Fixpoint get_field (name : jsstring) (fields : list (jsstring * JSON.value))
  : option JSON.value :=
  match fields with
  | [] => None
  | (k, v) :: r => if decide (name = k) then Some v else get_field name r
  end.

Definition string_field (name : jsstring) (fields : list (jsstring * JSON.value))
  : option jsstring :=
  match get_field name fields with
  | Some (JSON.JString s) => Some s
  | _ => None
  end.

Definition bool_field (name : jsstring) (fields : list (jsstring * JSON.value))
  : option bool :=
  match get_field name fields with
  | Some (JSON.JBool b) => Some b
  | _ => None
  end.

(** The object a certificate record is, its properties in the order the
    object literal of [issue] defines them. *)
Definition json_of_Certificate (c : Certificate.t) : JSON.value :=
  JSON.JObject
    [ (js "_id", JSON.JString (Certificate._id c));
      (js "certificateId", JSON.JString (Certificate.certificateId c));
      (js "recipientName", JSON.JString (Certificate.recipientName c));
      (js "recipientEmail", JSON.JString (Certificate.recipientEmail c));
      (js "courseName", JSON.JString (Certificate.courseName c));
      (js "issuerName", JSON.JString (Certificate.issuerName c));
      (js "completionDate", JSON.JString (Certificate.completionDate c));
      (js "description", JSON.JString (Certificate.description c));
      (js "issuedAt", JSON.JString (Certificate.issuedAt c));
      (js "blockchainHash", JSON.JString (Certificate.blockchainHash c));
      (js "isValid", JSON.JBool (Certificate.isValid c)) ].

(** A parsed value seen at type [Certificate]: an object with the declared
    properties at their declared types.  Properties beyond the declared ones
    are not part of the record. *)
Definition Certificate_of_json (v : JSON.value) : option Certificate.t :=
  match v with
  | JSON.JObject fields =>
      match string_field (js "_id") fields, string_field (js "certificateId") fields,
            string_field (js "recipientName") fields, string_field (js "recipientEmail") fields,
            string_field (js "courseName") fields, string_field (js "issuerName") fields,
            string_field (js "completionDate") fields, string_field (js "description") fields,
            string_field (js "issuedAt") fields, string_field (js "blockchainHash") fields,
            bool_field (js "isValid") fields with
      | Some i, Some c, Some rn, Some re, Some cn, Some isn, Some cd, Some d, Some ia,
        Some bh, Some iv =>
          Some {| Certificate._id := i; Certificate.certificateId := c;
                  Certificate.recipientName := rn; Certificate.recipientEmail := re;
                  Certificate.courseName := cn; Certificate.issuerName := isn;
                  Certificate.completionDate := cd; Certificate.description := d;
                  Certificate.issuedAt := ia; Certificate.blockchainHash := bh;
                  Certificate.isValid := iv |}
      | _, _, _, _, _, _, _, _, _, _, _ => None
      end
  | _ => None
  end.

Definition json_of_Certificates (l : list Certificate.t) : JSON.value :=
  JSON.JArray (map json_of_Certificate l).

Fixpoint Certificates_of_list (l : list JSON.value) : option (list Certificate.t) :=
  match l with
  | [] => Some []
  | v :: r =>
      match Certificate_of_json v, Certificates_of_list r with
      | Some c, Some cs => Some (c :: cs)
      | _, _ => None
      end
  end.

(** A parsed value seen at type [Certificate[]]. *)
Definition Certificates_of_json (v : JSON.value) : option (list Certificate.t) :=
  match v with
  | JSON.JArray l => Certificates_of_list l
  | _ => None
  end.

Definition json_of_Request (d : IssueCertificateRequest.t) : JSON.value :=
  JSON.JObject
    [ (js "recipientName", JSON.JString (IssueCertificateRequest.recipientName d));
      (js "recipientEmail", JSON.JString (IssueCertificateRequest.recipientEmail d));
      (js "courseName", JSON.JString (IssueCertificateRequest.courseName d));
      (js "issuerName", JSON.JString (IssueCertificateRequest.issuerName d));
      (js "completionDate", JSON.JString (IssueCertificateRequest.completionDate d));
      (js "description", JSON.JString (IssueCertificateRequest.description d)) ].

(** A parsed value seen at type [IssueCertificateRequest]. *)
Definition Request_of_json (v : JSON.value) : option IssueCertificateRequest.t :=
  match v with
  | JSON.JObject fields =>
      match string_field (js "recipientName") fields, string_field (js "recipientEmail") fields,
            string_field (js "courseName") fields, string_field (js "issuerName") fields,
            string_field (js "completionDate") fields, string_field (js "description") fields with
      | Some rn, Some re, Some cn, Some isn, Some cd, Some d =>
          Some {| IssueCertificateRequest.recipientName := rn;
                  IssueCertificateRequest.recipientEmail := re;
                  IssueCertificateRequest.courseName := cn;
                  IssueCertificateRequest.issuerName := isn;
                  IssueCertificateRequest.completionDate := cd;
                  IssueCertificateRequest.description := d |}
      | _, _, _, _, _, _ => None
      end
  | _ => None
  end.

(** [JSON.parse(text)] used at a declared type [A]. *)
Definition parse_as {A} (view : JSON.value -> option A) (text : jsstring) : result A :=
  match JSON.parse text with
  | None => Throw SyntaxError
  | Some v =>
      match view v with
      | Some a => Return a
      | None => Untyped
      end
  end.

(** *** The clock and the random source *)

(** What one call reads from the platform. *)
Record Env := {
  (** [new Date().getFullYear()] *)
  fullYear : Z;
  (** the digits after [0.] in [Math.random().toString(36)], as numbers
      below 36; none when the rendering is [0] *)
  random36 : list N;
  (** [Date.now()] *)
  now : Z;
  (** [new Date().toISOString()] *)
  isoString : jsstring;
  (** the successive values of [Math.floor(Math.random() * 16)], numbers
      below 16 *)
  random16 : nat -> N
}.

(** [Math.random().toString(36)]. *)
Definition Math_random_toString36 (env : Env) : jsstring :=
  match random36 env with
  | [] => js "0"
  | ds => js "0." ++ (digit_char <$> ds)
  end.

(** ['0x' + Array.from({length: 64}, () => Math.floor(Math.random() * 16).toString(16)).join('')],
    the draws taken from position [from] on. *)
Definition random_hash (env : Env) (from : nat) : jsstring :=
  js "0x" ++ join [] (map (fun k => N_toString 16 (random16 env (from + k)%nat)) (seq 0 64)).

(** *** [Array.prototype.sort] *)

(** The sign test a sort applies to the comparator's result; [None] is [NaN],
    which counts as [+0]. *)
Definition is_positive (r : option Z) : bool :=
  match r with
  | Some z => (0 <? z)%Z
  | None => false
  end.

Fixpoint sort_insert {A} (comparefn : A -> A -> option Z) (x : A) (l : list A) : list A :=
  match l with
  | [] => [x]
  | y :: r =>
      if is_positive (comparefn x y) then y :: sort_insert comparefn x r
      else x :: y :: r
  end.

(** [l.sort(comparefn)]: the sort is stable, and for a consistent comparator
    every stable sort returns this list.  For an inconsistent comparator
    ECMAScript leaves the order to the implementation; the model then fixes
    the order of a stable insertion sort. *)
Definition Array_sort {A} (comparefn : A -> A -> option Z) (l : list A) : list A :=
  foldr (sort_insert comparefn) [] l.

Definition STORAGE_KEY : jsstring := js "certchain_certificates".

(** The comparator both implementations hand to [sort]:
    [(a, b) => new Date(b.issuedAt).getTime() - new Date(a.issuedAt).getTime()].
    [Date_getTime s] is [new Date(s).getTime()], [None] when it is [NaN]. *)
Definition compare_issuedAt (Date_getTime : jsstring -> option Z) (a b : Certificate.t)
  : option Z :=
  match Date_getTime (Certificate.issuedAt b), Date_getTime (Certificate.issuedAt a) with
  | Some tb, Some ta => Some (tb - ta)%Z
  | _, _ => None
  end.

(** The two records [initializeSampleData] writes, given their hashes. *)
Definition sampleCertificates (hash1 hash2 : jsstring) : list Certificate.t :=
  [ {| Certificate._id := js "1";
       Certificate.certificateId := js "CERT-2024-SAMPLE1";
       Certificate.recipientName := js "John Doe";
       Certificate.recipientEmail := js "john.doe@example.com";
       Certificate.courseName := js "Full Stack Web Development";
       Certificate.issuerName := js "Tech Academy";
       Certificate.completionDate := js "2024-01-15";
       Certificate.description := js "Completed comprehensive full stack development course covering React, Node.js, MongoDB, and Express.js";
       Certificate.issuedAt := js "2024-01-16T10:00:00.000Z";
       Certificate.blockchainHash := hash1;
       Certificate.isValid := true |};
    {| Certificate._id := js "2";
       Certificate.certificateId := js "CERT-2024-SAMPLE2";
       Certificate.recipientName := js "Jane Smith";
       Certificate.recipientEmail := js "jane.smith@example.com";
       Certificate.courseName := js "Blockchain Development Fundamentals";
       Certificate.issuerName := js "Crypto Institute";
       Certificate.completionDate := js "2024-02-28";
       Certificate.description := js "Mastered blockchain development using Ethereum, Solidity, and smart contract deployment";
       Certificate.issuedAt := js "2024-03-01T14:30:00.000Z";
       Certificate.blockchainHash := hash2;
       Certificate.isValid := true |} ].

(** ** [src/lib/api.ts]: the [CertificateAPI] class *)

Module Api.

(** The part of [RequestInit] the class uses; [None] is an absent property. *)
Record RequestInit := {
  method : option jsstring;
  body : option jsstring
}.

(** What [makeRequest<T>] resolves to, one constructor per [T] in use. *)
Inductive response :=
| IssueResponse (certificateId : jsstring)
| CertificateResponse (certificate : Certificate.t)
| ListResponse (certificates : list Certificate.t)
| HealthResponse (status timestamp : jsstring).

Definition generateCertificateId (env : Env) : jsstring :=
  let year := fullYear env in
  let random := toUpperCase (substring 2 8 (Math_random_toString36 env)) in
  js "CERT-" ++ Z_toString year ++ js "-" ++ random.

Definition generateBlockchainHash (env : Env) : jsstring := random_hash env 0.

Section WithDate.

Variable Date_getTime : jsstring -> option Z.

Definition fallbackToLocalStorage (env : Env) (endpoint : jsstring) (options : RequestInit)
  : M response :=
  (stored <- getItem STORAGE_KEY ;;
   certificates <-
     lift (parse_as Certificates_of_json
             match stored with
             | Some text => if falsy text then js "[]" else text
             | None => js "[]"
             end) ;;
   if bool_decide (endpoint = js "/certificates")
      && bool_decide (method options = Some (js "POST")) then
     data <-
       lift match body options with
            | Some text => parse_as Request_of_json text
            | None => Throw SyntaxError
            end ;;
     let certificateId := generateCertificateId env in
     let newCertificate :=
       {| Certificate._id := Z_toString (now env);
          Certificate.certificateId := certificateId;
          Certificate.recipientName := IssueCertificateRequest.recipientName data;
          Certificate.recipientEmail := IssueCertificateRequest.recipientEmail data;
          Certificate.courseName := IssueCertificateRequest.courseName data;
          Certificate.issuerName := IssueCertificateRequest.issuerName data;
          Certificate.completionDate := IssueCertificateRequest.completionDate data;
          Certificate.description := IssueCertificateRequest.description data;
          Certificate.issuedAt := isoString env;
          Certificate.blockchainHash := generateBlockchainHash env;
          Certificate.isValid := true |} in
     let certificates := certificates ++ [newCertificate] in
     setItem STORAGE_KEY (JSON.stringify (json_of_Certificates certificates)) ;;;
     ret (IssueResponse certificateId)
   else if startsWith (js "/certificates/verify/") endpoint then
     let certificateId := split_pop 47 endpoint in
     match find (fun cert => bool_decide (Certificate.certificateId cert = certificateId))
                certificates with
     | None => throw (Error (js "Certificate not found"))
     | Some certificate => ret (CertificateResponse certificate)
     end
   else if bool_decide (endpoint = js "/certificates") then
     ret (ListResponse (Array_sort (compare_issuedAt Date_getTime) certificates))
   else throw (Error (js "Unknown endpoint")))%M.

(** [fetched] is what the [try] block of [makeRequest] comes to: [Some r]
    when the server answered with an ok status and the body [r], [None] when
    [fetch] failed, the status was not ok or the body could not be read. *)
Definition makeRequest (fetched : option response) (env : Env) (endpoint : jsstring)
    (options : RequestInit) : M response :=
  match fetched with
  | Some r => ret r
  | None => fallbackToLocalStorage env endpoint options
  end.

Definition issue (fetched : option response) (env : Env) (data : IssueCertificateRequest.t)
  : M response :=
  makeRequest fetched env (js "/certificates")
    {| method := Some (js "POST");
       body := Some (JSON.stringify (json_of_Request data)) |}.

Definition verify (fetched : option response) (env : Env) (certificateId : jsstring)
  : M response :=
  makeRequest fetched env (js "/certificates/verify/" ++ certificateId)
    {| method := None; body := None |}.

Definition getAll (fetched : option response) (env : Env) : M response :=
  makeRequest fetched env (js "/certificates") {| method := None; body := None |}.

Definition healthCheck (fetched : option response) (env : Env) : M response :=
  try_catch
    (makeRequest fetched env (js "/health") {| method := None; body := None |})
    (fun _ => ret (HealthResponse (js "localStorage_fallback") (isoString env))).

End WithDate.

Definition initializeSampleData (env : Env) : M unit :=
  (stored <- getItem STORAGE_KEY ;;
   if match stored with Some text => falsy text | None => true end then
     setItem STORAGE_KEY
       (JSON.stringify
          (json_of_Certificates (sampleCertificates (random_hash env 0) (random_hash env 64))))
   else ret tt)%M.

End Api.

(** ** The localStorage-only module exporting [certificateAPI] *)

Module LocalApi.

Definition generateBlockchainHash (env : Env) (from : nat) : jsstring := random_hash env from.

Definition generateCertificateId (env : Env) : jsstring :=
  let year := fullYear env in
  let random := toUpperCase (substring 2 8 (Math_random_toString36 env)) in
  js "CERT-" ++ Z_toString year ++ js "-" ++ random.

Definition getCertificatesFromStorage : M (list Certificate.t) :=
  (stored <- getItem STORAGE_KEY ;;
   match stored with
   | Some text => if falsy text then ret [] else lift (parse_as Certificates_of_json text)
   | None => ret []
   end)%M.

Definition saveCertificatesToStorage (certificates : list Certificate.t) : M unit :=
  setItem STORAGE_KEY (JSON.stringify (json_of_Certificates certificates)).

(** [issue] resolves to [{ certificateId }]; the model returns that field. *)
Definition issue (env : Env) (data : IssueCertificateRequest.t) : M jsstring :=
  (certificates <- getCertificatesFromStorage ;;
   let certificateId := generateCertificateId env in
   let newCertificate :=
     {| Certificate._id := Z_toString (now env);
        Certificate.certificateId := certificateId;
        Certificate.recipientName := IssueCertificateRequest.recipientName data;
        Certificate.recipientEmail := IssueCertificateRequest.recipientEmail data;
        Certificate.courseName := IssueCertificateRequest.courseName data;
        Certificate.issuerName := IssueCertificateRequest.issuerName data;
        Certificate.completionDate := IssueCertificateRequest.completionDate data;
        Certificate.description := IssueCertificateRequest.description data;
        Certificate.issuedAt := isoString env;
        Certificate.blockchainHash := generateBlockchainHash env 0;
        Certificate.isValid := true |} in
   let certificates := certificates ++ [newCertificate] in
   saveCertificatesToStorage certificates ;;;
   ret certificateId)%M.

Definition verify (certificateId : jsstring) : M Certificate.t :=
  (certificates <- getCertificatesFromStorage ;;
   match find (fun cert => bool_decide (Certificate.certificateId cert = certificateId))
              certificates with
   | None => throw (Error (js "Certificate not found"))
   | Some certificate => ret certificate
   end)%M.

Definition getAll (Date_getTime : jsstring -> option Z) : M (list Certificate.t) :=
  (certificates <- getCertificatesFromStorage ;;
   ret (Array_sort (compare_issuedAt Date_getTime) certificates))%M.

Definition initializeSampleData (env : Env) : M unit :=
  (certificates <- getCertificatesFromStorage ;;
   if (length certificates =? 0)%nat then
     saveCertificatesToStorage
       (sampleCertificates (generateBlockchainHash env 0) (generateBlockchainHash env 64))
   else ret tt)%M.

End LocalApi.

(** ** The blockchain utilities: [generateDataHash] *)

Module Blockchain.

(** The digit one iteration of the loop appends.  [i % dataString.length] is
    [NaN] for an empty string, [charCodeAt] is then [NaN] too, and the text
    appended is [NaN]. *)
Definition hashChar (dataString : jsstring) (i : N) : jsstring :=
  match N.of_nat (length dataString) with
  | 0 => js "NaN"
  | len =>
      match charCodeAt dataString (i mod len) with
      | Some charCode => N_toString 16 ((charCode + i) mod 16)
      | None => js "NaN"
      end
  end.

(** The [for] loop, [n] iterations from index [i] on. *)
Fixpoint generateDataHash_loop (dataString : jsstring) (n : nat) (i : N) (hash : jsstring)
  : jsstring :=
  match n with
  | O => hash
  | S n' => generateDataHash_loop dataString n' (i + 1) (hash ++ hashChar dataString i)
  end.

Definition generateDataHash (certificateData : JSON.value) : jsstring :=
  let dataString := JSON.stringify certificateData in
  generateDataHash_loop dataString 64 0 (js "0x").

End Blockchain.

(** ** The issue form: [handleSubmit] *)

Module IssueCertificate.

Record toast := {
  title : jsstring;
  description : jsstring;
  variant : jsstring
}.

(** What a submission did: showed a toast, or ran the mutation. *)
Inductive submitted (A : Type) :=
| Toasted (t : toast)
| Mutated (a : A).
Arguments Toasted {A} t.
Arguments Mutated {A} a.

(** [mutate] is [issueMutation.mutate], which runs the mutation function
    [certificateAPI.issue] on the form data. *)
Definition handleSubmit {A} (mutate : IssueCertificateRequest.t -> M A)
    (formData : IssueCertificateRequest.t) : M (submitted A) :=
  if falsy (IssueCertificateRequest.recipientName formData)
     || falsy (IssueCertificateRequest.courseName formData)
     || falsy (IssueCertificateRequest.issuerName formData) then
    ret (Toasted {| title := js "Missing Information";
                    description := js "Please fill in all required fields.";
                    variant := js "destructive" |})
  else (a <- mutate formData ;; ret (Mutated a))%M.

End IssueCertificate.

(** ** Concrete platform readings, for running the model *)

(** The number a run of exactly [k] decimal digits denotes. *)
Fixpoint digits_value (k : nat) (s : jsstring) (acc : Z) : option (Z * jsstring) :=
  match k with
  | O => Some (acc, s)
  | S k' =>
      match s with
      | c :: r =>
          if JSON.is_digit c then digits_value k' r (acc * 10 + Z.of_N (c - 48))%Z else None
      | [] => None
      end
  end.

Definition expect (c : N) (s : jsstring) : option jsstring :=
  match s with
  | d :: r => if c =? d then Some r else None
  | [] => None
  end.

(** Days from 1970-01-01 to the given civil date. *)
Definition days_from_civil (y m d : Z) : Z :=
  let y' := (if m <=? 2 then y - 1 else y)%Z in
  let era := (y' / 400)%Z in
  let yoe := (y' mod 400)%Z in
  let mp := (if m <=? 2 then m + 9 else m - 3)%Z in
  let doy := ((153 * mp + 2) / 5 + d - 1)%Z in
  let doe := (yoe * 365 + yoe / 4 - yoe / 100 + doy)%Z in
  (era * 146097 + doe - 719468)%Z.

(** [new Date(s).getTime()] on the format [toISOString] writes,
    [YYYY-MM-DDTHH:mm:ss.sssZ]; every other string counts as an invalid date
    here.  The theorems below hold for any date parser; this one serves to
    run the model on concrete stores. *)
Definition iso_getTime (s : jsstring) : option Z :=
  '(y, s) ← digits_value 4 s 0%Z;
  s ← expect 45 s;
  '(mo, s) ← digits_value 2 s 0%Z;
  s ← expect 45 s;
  '(d, s) ← digits_value 2 s 0%Z;
  s ← expect 84 s;
  '(h, s) ← digits_value 2 s 0%Z;
  s ← expect 58 s;
  '(mi, s) ← digits_value 2 s 0%Z;
  s ← expect 58 s;
  '(sec, s) ← digits_value 2 s 0%Z;
  s ← expect 46 s;
  '(ms, s) ← digits_value 3 s 0%Z;
  s ← expect 90 s;
  match s with
  | [] =>
      if ((1 <=? mo) && (mo <=? 12) && (1 <=? d) && (d <=? 31) && (h <=? 23)
          && (mi <=? 59) && (sec <=? 59))%Z
      then Some ((((days_from_civil y mo d * 24 + h) * 60 + mi) * 60 + sec) * 1000 + ms)%Z
      else None
  | _ :: _ => None
  end.

(** A reading of the platform: 2025-06-01T12:00:00.000Z, a random number
    rendered [0.k3f9zq1x7b], hash draws cycling through the sixteen digits. *)
Definition env0 : Env :=
  {| fullYear := 2025;
     random36 := [20; 3; 15; 9; 35; 26; 1; 33; 7; 11];
     now := 1748779200000;
     isoString := js "2025-06-01T12:00:00.000Z";
     random16 := fun k => N.of_nat k mod 16 |}.

(** The reading [Math.random() = 0.5], rendered [0.i] in radix 36. *)
Definition env_half : Env :=
  {| fullYear := 2025;
     random36 := [18];
     now := 1748779200000;
     isoString := js "2025-06-01T12:00:00.000Z";
     random16 := fun k => N.of_nat k mod 16 |}.

Definition request0 : IssueCertificateRequest.t :=
  {| IssueCertificateRequest.recipientName := js "A";
     IssueCertificateRequest.recipientEmail := js "a@example.com";
     IssueCertificateRequest.courseName := js "B";
     IssueCertificateRequest.issuerName := js "C";
     IssueCertificateRequest.completionDate := js "2025-05-31";
     IssueCertificateRequest.description := js "" |}.

(** ** Vocabulary of the properties *)

(** The record an [issue] call on the fallback path appends. *)
Definition newCertificate (env : Env) (data : IssueCertificateRequest.t) : Certificate.t :=
  {| Certificate._id := Z_toString (now env);
     Certificate.certificateId := Api.generateCertificateId env;
     Certificate.recipientName := IssueCertificateRequest.recipientName data;
     Certificate.recipientEmail := IssueCertificateRequest.recipientEmail data;
     Certificate.courseName := IssueCertificateRequest.courseName data;
     Certificate.issuerName := IssueCertificateRequest.issuerName data;
     Certificate.completionDate := IssueCertificateRequest.completionDate data;
     Certificate.description := IssueCertificateRequest.description data;
     Certificate.issuedAt := isoString env;
     Certificate.blockchainHash := random_hash env 0;
     Certificate.isValid := true |}.

(** What reading the store yields: the value of [getCertificatesFromStorage]. *)
Definition stored_certificates (ls : localStorage) : result (list Certificate.t) :=
  fst (LocalApi.getCertificatesFromStorage ls).

(** The text [setItem] writes for a sequence of records. *)
Definition store_text (l : list Certificate.t) : jsstring :=
  JSON.stringify (json_of_Certificates l).

(** The test [find] applies: [cert => cert.certificateId === certificateId]. *)
Definition certificate_with (certificateId : jsstring) (cert : Certificate.t) : bool :=
  bool_decide (Certificate.certificateId cert = certificateId).

(** The records of a store: those it yields when read, none when reading
    it fails. *)
Definition records (ls : localStorage) : list Certificate.t :=
  match stored_certificates ls with
  | Return l => l
  | _ => []
  end.

(** The sample records a run of [initializeSampleData] writes. *)
Definition samples (env : Env) : list Certificate.t :=
  sampleCertificates (random_hash env 0) (random_hash env 64).

(** An uppercase letter or a digit. *)
Definition is_upper_alnum (c : N) : bool :=
  JSON.is_digit c || ((65 <=? c) && (c <=? 90)).

(** The documented shape of an identifier, [CERT-YYYY-XXXXXX]: four digits
    for the year, then six uppercase letters or digits. *)
Definition matches_certificate_pattern (s : jsstring) : bool :=
  match JSON.strip_prefix (js "CERT-") s with
  | Some r =>
      (length (take 4 r) =? 4)%nat && forallb JSON.is_digit (take 4 r)
      && match drop 4 r with
         | 45 :: x => (length x =? 6)%nat && forallb is_upper_alnum x
         | _ => false
         end
  | None => false
  end.

(** The store of a first visit: empty, then seeded by [initializeSampleData]. *)
Definition seeded : localStorage := snd (Api.initializeSampleData env0 ∅).


(** A request that leaves the recipient's name empty. *)
Definition request_blank_name : IssueCertificateRequest.t :=
  {| IssueCertificateRequest.recipientName := js "";
     IssueCertificateRequest.recipientEmail := js "";
     IssueCertificateRequest.courseName := js "B";
     IssueCertificateRequest.issuerName := js "C";
     IssueCertificateRequest.completionDate := js "";
     IssueCertificateRequest.description := js "" |}.

(** The reading [Math.random() = 0], rendered [0]. *)
Definition env_zero : Env :=
  {| fullYear := 2025;
     random36 := [];
     now := 1748779200000;
     isoString := js "2025-06-01T12:00:00.000Z";
     random16 := fun k => N.of_nat k mod 16 |}.

(** [a] was issued after [b], or at the same time. *)
Definition newer_or_same (Date_getTime : jsstring -> option Z) (a b : Certificate.t) : Prop :=
  match Date_getTime (Certificate.issuedAt a), Date_getTime (Certificate.issuedAt b) with
  | Some ta, Some tb => (tb <= ta)%Z
  | _, _ => False
  end.

(** [a] was issued after [b]. *)
Definition newer (Date_getTime : jsstring -> option Z) (a b : Certificate.t) : Prop :=
  match Date_getTime (Certificate.issuedAt a), Date_getTime (Certificate.issuedAt b) with
  | Some ta, Some tb => (tb < ta)%Z
  | _, _ => False
  end.

(** The records of [l] issued at time [t], in the order of [l]. *)
Definition issued_at (Date_getTime : jsstring -> option Z) (t : Z) (l : list Certificate.t)
  : list Certificate.t :=
  filter (fun c => Date_getTime (Certificate.issuedAt c) = Some t) l.

(** A second reading of the platform in the millisecond of [env0], with
    another random number. *)
Definition env1 : Env :=
  {| fullYear := 2025;
     random36 := [1; 2; 3; 4; 5; 6; 7; 8];
     now := 1748779200000;
     isoString := js "2025-06-01T12:00:00.000Z";
     random16 := fun k => (N.of_nat k + 5) mod 16 |}.

(** A store after two issues in the same millisecond. *)
Definition issued_twice : localStorage :=
  snd (LocalApi.issue env1 request0 (snd (LocalApi.issue env0 request0 ∅))).

(** The platform can read the date a record was issued at. *)
Definition dated (Date_getTime : jsstring -> option Z) (c : Certificate.t) : Prop :=
  is_Some (Date_getTime (Certificate.issuedAt c)).

(** The initializer of the class run once for each reading in [envs], as on
    successive loads of the page. *)
Definition Api_initialize_all (envs : list Env) (ls : localStorage) : localStorage :=
  foldl (fun ls env => snd (Api.initializeSampleData env ls)) ls envs.

(** The same for the initializer of the localStorage-only module. *)
Definition LocalApi_initialize_all (envs : list Env) (ls : localStorage) : localStorage :=
  foldl (fun ls env => snd (LocalApi.initializeSampleData env ls)) ls envs.

(** The sixteen hexadecimal digits. *)
Definition hex_digits : jsstring := js "0123456789abcdef".

(** A call of the certificate service of the class, with the platform
    readings it uses and what its remote request comes to. *)
Inductive Api_call :=
| CallIssue (fetched : option Api.response) (env : Env) (data : IssueCertificateRequest.t)
| CallVerify (fetched : option Api.response) (env : Env) (certificateId : jsstring)
| CallGetAll (fetched : option Api.response) (env : Env)
| CallHealthCheck (fetched : option Api.response) (env : Env)
| CallInitializeSampleData (env : Env).

(** The store a call leaves. *)
Definition Api_run (Date_getTime : jsstring -> option Z) (call : Api_call)
    (ls : localStorage) : localStorage :=
  match call with
  | CallIssue fetched env data => snd (Api.issue Date_getTime fetched env data ls)
  | CallVerify fetched env certificateId =>
      snd (Api.verify Date_getTime fetched env certificateId ls)
  | CallGetAll fetched env => snd (Api.getAll Date_getTime fetched env ls)
  | CallHealthCheck fetched env => snd (Api.healthCheck Date_getTime fetched env ls)
  | CallInitializeSampleData env => snd (Api.initializeSampleData env ls)
  end.

Definition Api_run_all (Date_getTime : jsstring -> option Z) (calls : list Api_call)
    (ls : localStorage) : localStorage :=
  foldl (fun ls call => Api_run Date_getTime call ls) ls calls.

(** A call of the localStorage-only module. *)
Inductive LocalApi_call :=
| LocalIssue (env : Env) (data : IssueCertificateRequest.t)
| LocalVerify (certificateId : jsstring)
| LocalGetAll
| LocalInitializeSampleData (env : Env).

Definition LocalApi_run (Date_getTime : jsstring -> option Z) (call : LocalApi_call)
    (ls : localStorage) : localStorage :=
  match call with
  | LocalIssue env data => snd (LocalApi.issue env data ls)
  | LocalVerify certificateId => snd (LocalApi.verify certificateId ls)
  | LocalGetAll => snd (LocalApi.getAll Date_getTime ls)
  | LocalInitializeSampleData env => snd (LocalApi.initializeSampleData env ls)
  end.

Definition LocalApi_run_all (Date_getTime : jsstring -> option Z)
    (calls : list LocalApi_call) (ls : localStorage) : localStorage :=
  foldl (fun ls call => LocalApi_run Date_getTime call ls) ls calls.

(** The outcome of the localStorage-only module, written as the response the
    class gives for it. *)
Definition as_response {A} (f : A -> Api.response) (r : result A * localStorage)
  : result Api.response * localStorage :=
  match r with
  | (Return a, ls) => (Return (f a), ls)
  | (Throw e, ls) => (Throw e, ls)
  | (Untyped, ls) => (Untyped, ls)
  end.

(** [after] holds the records of [before], unchanged and in their order,
    followed by appended records whose [isValid] is true. *)
Definition appends_valid (before after : localStorage) : Prop :=
  exists added,
    records after = records before ++ added
    /\ Forall (fun c => Certificate.isValid c = true) added.

(** ** More of the platform *)

(** The code units [String.prototype.trim] strips: the white space and line
    terminators of ECMAScript. *)
Definition is_js_whitespace (c : N) : bool :=
  (c =? 9) || (c =? 10) || (c =? 11) || (c =? 12) || (c =? 13) || (c =? 32)
  || (c =? 160) || (c =? 5760) || ((8192 <=? c) && (c <=? 8202))
  || (c =? 8232) || (c =? 8233) || (c =? 8239) || (c =? 8287) || (c =? 12288)
  || (c =? 65279).

(** [s.trimStart()]. *)
Fixpoint trimStart (s : jsstring) : jsstring :=
  match s with
  | c :: r => if is_js_whitespace c then trimStart r else s
  | [] => []
  end.

(** [s.trimEnd()]. *)
Definition trimEnd (s : jsstring) : jsstring := reverse (trimStart (reverse s)).

(** [s.trim()]. *)
Definition trim (s : jsstring) : jsstring := trimEnd (trimStart s).

(** [s.includes(sub)]. *)
Fixpoint includes (s sub : jsstring) : bool :=
  startsWith sub s
  || match s with
     | [] => false
     | _ :: r => includes r sub
     end.

(** [value || fallback] for a string that may be [undefined]. *)
Definition or_else (value : option jsstring) (fallback : jsstring) : jsstring :=
  match value with
  | Some text => if falsy text then fallback else text
  | None => fallback
  end.

(** The value of a digit of [parseInt] in radix 16 or below. *)
Definition parseInt_digit (radix c : N) : option N :=
  match JSON.hex_value c with
  | Some d => if d <? radix then Some d else None
  | None => None
  end.

(** The longest prefix of digits of the radix, read as a number; [None] when
    there is no digit. *)
Fixpoint parseInt_digits (radix : N) (s : jsstring) (acc : option N) : option N :=
  match s with
  | c :: r =>
      match parseInt_digit radix c with
      | Some d => parseInt_digits radix r (Some (default 0 acc * radix + d))
      | None => acc
      end
  | [] => acc
  end.

(** [parseInt(text)] without a radix: leading white space and a sign are
    skipped, [0x] selects radix 16, and the digits that follow are read up to
    the first other character.  [None] is [NaN].  The result is the integer
    read, which [parseInt] then rounds to a double (it is exact below 2^53;
    the sign of zero is not kept). *)
Definition parseInt (text : jsstring) : option Z :=
  let s := trimStart text in
  let '(negative, s) :=
    match s with
    | c :: r => if c =? 45 then (true, r) else if c =? 43 then (false, r) else (false, s)
    | [] => (false, s)
    end in
  let '(radix, s) :=
    match s with
    | a :: b :: r => if (a =? 48) && ((b =? 120) || (b =? 88)) then (16, r) else (10, s)
    | _ => (10, s)
    end in
  match parseInt_digits radix s None with
  | Some n => Some (if negative then (- Z.of_N n)%Z else Z.of_N n)
  | None => None
  end.

(** [count] hexadecimal digits drawn as [generateBlockchainHash] draws them,
    from position [from] on, after [0x]. *)
Definition random_hex (env : Env) (from count : nat) : jsstring :=
  js "0x" ++ join [] (map (fun k => N_toString 16 (random16 env (from + k)%nat)) (seq 0 count)).

(** ** The verify page: [handleSubmit] and the callbacks of the mutation *)

Module VerifyCertificate.

Record toast := {
  title : jsstring;
  description : jsstring;
  variant : option jsstring
}.

(** The state of the page: the text in the input, the result shown, and the
    toasts shown so far. *)
Record page := {
  certificateId : jsstring;
  verificationResult : option Certificate.t;
  toasts : list toast
}.

Definition show_toast (t : toast) (p : page) : page :=
  {| certificateId := certificateId p;
     verificationResult := verificationResult p;
     toasts := toasts p ++ [t] |}.

Definition setVerificationResult (r : option Certificate.t) (p : page) : page :=
  {| certificateId := certificateId p;
     verificationResult := r;
     toasts := toasts p |}.

Definition onSuccess (data : Certificate.t) (p : page) : page :=
  let p := setVerificationResult (Some data) p in
  if Certificate.isValid data then
    show_toast {| title := js "Certificate Verified";
                  description := js "This certificate is valid and authentic.";
                  variant := None |} p
  else
    show_toast {| title := js "Verification Failed";
                  description := js "This certificate could not be verified.";
                  variant := Some (js "destructive") |} p.

Definition onError (error : exn) (p : page) : page :=
  let p := setVerificationResult None p in
  show_toast {| title := js "Certificate Not Found";
                description := js "No certificate found with this ID.";
                variant := Some (js "destructive") |} p.

(** [verifyMutation.mutate(variables)], once the mutation has settled: the
    mutation function runs, then [onSuccess] on the value it resolves to or
    [onError] on what it throws. *)
Definition mutate (mutationFn : jsstring -> M Certificate.t) (variables : jsstring)
    (p : page) : M page :=
  fun ls =>
    match mutationFn variables ls with
    | (Return data, ls') => (Return (onSuccess data p), ls')
    | (Throw error, ls') => (Return (onError error p), ls')
    | (Untyped, ls') => (Untyped, ls')
    end.

(** The page as first rendered, with [input] typed into the field. *)
Definition typed (input : jsstring) : page :=
  {| certificateId := input; verificationResult := None; toasts := [] |}.

Definition handleSubmit (mutationFn : jsstring -> M Certificate.t) (p : page) : M page :=
  if falsy (trim (certificateId p)) then
    ret (show_toast {| title := js "Missing Certificate ID";
                       description := js "Please enter a certificate ID to verify.";
                       variant := Some (js "destructive") |} p)
  else mutate mutationFn (trim (certificateId p)) p.

End VerifyCertificate.

(** ** The list page: the search filter *)

Module CertificateList.

(** The test of the filter; [toLowerCase] is [String.prototype.toLowerCase]. *)
Definition matches (toLowerCase : jsstring -> jsstring) (searchTerm : jsstring)
    (cert : Certificate.t) : bool :=
  includes (toLowerCase (Certificate.recipientName cert)) (toLowerCase searchTerm)
  || includes (toLowerCase (Certificate.courseName cert)) (toLowerCase searchTerm)
  || includes (toLowerCase (Certificate.issuerName cert)) (toLowerCase searchTerm)
  || includes (toLowerCase (Certificate.certificateId cert)) (toLowerCase searchTerm).

Definition filteredCertificates (toLowerCase : jsstring -> jsstring)
    (certificates : list Certificate.t) (searchTerm : jsstring) : list Certificate.t :=
  List.filter (matches toLowerCase searchTerm) certificates.

End CertificateList.

(** ** The blockchain utilities: [shortenAddress] and the simulated service *)

Module BlockchainUtils.

Definition shortenAddress (address : jsstring) : jsstring :=
  if falsy address then js ""
  else substring 0 6 address ++ js "..."
       ++ substring (length address - 4) (length address) address.

Record CertificateOnChain := {
  certificateId : jsstring;
  hash : jsstring;
  timestamp : Z;
  issuer : jsstring;
  isValid : bool
}.

(** The fields of a [BlockchainService]; [None] is [null]. *)
Record BlockchainService := {
  isConnected : bool;
  account : option jsstring
}.

Definition simulateConnection (env : Env) (this : BlockchainService) : BlockchainService :=
  {| isConnected := true; account := Some (random_hex env 0 40) |}.

(** [new BlockchainService()]. *)
Definition constructor (env : Env) : BlockchainService :=
  simulateConnection env {| isConnected := false; account := None |}.

Definition issueCertificateOnChain (env : Env) (certificateId dataHash issuer : jsstring)
  : jsstring :=
  let txHash := random_hex env 0 64 in
  txHash.

(** [None] would be [null]. *)
Definition verifyCertificateOnChain (env : Env) (certificateId : jsstring)
  : option CertificateOnChain :=
  Some {| certificateId := certificateId;
          hash := random_hex env 0 64;
          timestamp := now env;
          issuer := js "Verified Issuer";
          isValid := true |}.

(** [random50] is the value of [Math.floor(Math.random() * 50)]. *)
Definition getCurrentGasPrice (random50 : N) : jsstring :=
  let gasPriceGwei := random50 + 10 in
  Z_toString (Z.of_N (gasPriceGwei * 1000000000)).

Definition isWalletConnected (this : BlockchainService) : bool := isConnected this.

Definition getAccount (this : BlockchainService) : option jsstring := account this.

End BlockchainUtils.

(** ** The setup utilities: [getEnvironmentConfig] and [validateEnvironment] *)

Module Setup.

(** [process.env]. *)
Abbreviation process_env := (gmap (list N) (list N)).

(** [backendPort] is [None] when [parseInt] gives [NaN]. *)
Record MERNConfig := {
  apiUrl : jsstring;
  mongoUri : jsstring;
  jwtSecret : jsstring;
  nodeEnv : jsstring;
  frontendUrl : jsstring;
  backendPort : option Z
}.

Definition getEnvironmentConfig (env : process_env) : MERNConfig :=
  let isDevelopment := negb (bool_decide (env !! js "NODE_ENV" = Some (js "production"))) in
  {| apiUrl :=
       if isDevelopment then js "http://localhost:3001/api"
       else or_else (env !! js "REACT_APP_API_URL") (js "");
     mongoUri := or_else (env !! js "REACT_APP_MONGO_URI") (js "mongodb://localhost:27017/certchain");
     jwtSecret := or_else (env !! js "REACT_APP_JWT_SECRET") (js "your-jwt-secret-key");
     nodeEnv := or_else (env !! js "NODE_ENV") (js "development");
     frontendUrl :=
       if isDevelopment then js "http://localhost:5173"
       else or_else (env !! js "REACT_APP_FRONTEND_URL") (js "");
     backendPort := parseInt (or_else (env !! js "REACT_APP_BACKEND_PORT") (js "3001")) |}.

Record validation := {
  isValid : bool;
  errors : list jsstring
}.

Definition validateEnvironment (env : process_env) : validation :=
  let errors := [] in
  let config := getEnvironmentConfig env in
  let errors :=
    if falsy (apiUrl config) then errors ++ [js "API URL is not configured"] else errors in
  let errors :=
    if falsy (mongoUri config) then errors ++ [js "MongoDB URI is not configured"]
    else errors in
  let errors :=
    if falsy (jwtSecret config) || bool_decide (jwtSecret config = js "your-jwt-secret-key")
    then errors ++ [js "JWT Secret is not properly configured"]
    else errors in
  {| isValid := (length errors =? 0)%nat; errors := errors |}.

End Setup.

(** A record whose identifier starts with a space. *)
Definition padded_certificate : Certificate.t :=
  {| Certificate._id := js "1";
     Certificate.certificateId := js " CERT-1";
     Certificate.recipientName := js "Ann";
     Certificate.recipientEmail := js "ann@example.com";
     Certificate.courseName := js "Logic";
     Certificate.issuerName := js "School";
     Certificate.completionDate := js "2024-01-01";
     Certificate.description := js "";
     Certificate.issuedAt := js "2024-01-02T00:00:00.000Z";
     Certificate.blockchainHash := js "0x0";
     Certificate.isValid := false |}.

(** ASCII lower case, a [toLowerCase] to run the list filter with. *)
Definition ascii_toLowerCase (s : jsstring) : jsstring :=
  (fun c => if (65 <=? c) && (c <=? 90) then c + 32 else c) <$> s.

(** ** The issue page: the form and the callbacks of the mutation *)

Module IssueCertificatePage.

(** The form as first rendered, and as [onSuccess] resets it. *)
Definition emptyForm : IssueCertificateRequest.t :=
  {| IssueCertificateRequest.recipientName := js "";
     IssueCertificateRequest.recipientEmail := js "";
     IssueCertificateRequest.courseName := js "";
     IssueCertificateRequest.issuerName := js "";
     IssueCertificateRequest.completionDate := js "";
     IssueCertificateRequest.description := js "" |}.

(** The state of the page: the form and the toasts shown so far. *)
Record page := {
  formData : IssueCertificateRequest.t;
  toasts : list VerifyCertificate.toast
}.

Definition show_toast (t : VerifyCertificate.toast) (p : page) : page :=
  {| formData := formData p; toasts := toasts p ++ [t] |}.

Definition setFormData (data : IssueCertificateRequest.t) (p : page) : page :=
  {| formData := data; toasts := toasts p |}.

(** [data] is the [certificateId] of the object [issue] resolves to. *)
Definition onSuccess (data : jsstring) (p : page) : page :=
  let p :=
    show_toast {| VerifyCertificate.title := js "Certificate Issued Successfully!";
                  VerifyCertificate.description := js "Certificate ID: " ++ data;
                  VerifyCertificate.variant := None |} p in
  setFormData emptyForm p.

Definition onError (error : exn) (p : page) : page :=
  show_toast {| VerifyCertificate.title := js "Error";
                VerifyCertificate.description :=
                  js "Failed to issue certificate. Please try again.";
                VerifyCertificate.variant := Some (js "destructive") |} p.

(** [issueMutation.mutate(variables)], once the mutation has settled. *)
Definition mutate (mutationFn : IssueCertificateRequest.t -> M jsstring)
    (variables : IssueCertificateRequest.t) (p : page) : M page :=
  fun ls =>
    match mutationFn variables ls with
    | (Return data, ls') => (Return (onSuccess data p), ls')
    | (Throw error, ls') => (Return (onError error p), ls')
    | (Untyped, ls') => (Untyped, ls')
    end.

(** [handleSubmit] of the page, with its toast and its mutation acting on the
    state of the page. *)
Definition handleSubmit (mutationFn : IssueCertificateRequest.t -> M jsstring) (p : page)
  : M page :=
  (outcome <- IssueCertificate.handleSubmit (fun data => mutate mutationFn data p) (formData p) ;;
   ret match outcome with
       | IssueCertificate.Toasted t =>
           show_toast {| VerifyCertificate.title := IssueCertificate.title t;
                         VerifyCertificate.description := IssueCertificate.description t;
                         VerifyCertificate.variant := Some (IssueCertificate.variant t) |} p
       | IssueCertificate.Mutated p' => p'
       end)%M.

End IssueCertificatePage.

(** * Properties *)

(** ** [JSON.parse] after [JSON.stringify] *)

Section JSONFacts.
Import JSON.

Lemma hex_value_digit_char d : d < 16 -> hex_value (digit_char d) = Some d.
Proof.
  intros Hd. unfold hex_value, digit_char.
  destruct (N.ltb_spec d 10).
  - replace ((48 <=? 48 + d) && (48 + d <=? 57)) with true.
    + f_equal. lia.
    + symmetry. apply andb_true_iff. split; apply N.leb_le; lia.
  - replace ((48 <=? 87 + d) && (87 + d <=? 57)) with false.
    + replace ((97 <=? 87 + d) && (87 + d <=? 102)) with true.
      * f_equal. lia.
      * symmetry. apply andb_true_iff. split; apply N.leb_le; lia.
    + symmetry. apply andb_false_iff. right. apply N.leb_gt. lia.
Qed.

Lemma hex4_unicode_escape c :
  c < 65536 ->
  hex4 (digit_char (c / 4096 mod 16)) (digit_char (c / 256 mod 16))
       (digit_char (c / 16 mod 16)) (digit_char (c mod 16)) = Some c.
Proof.
  intros Hc. unfold hex4.
  rewrite !hex_value_digit_char by (apply N.mod_lt; lia).
  f_equal.
  assert (H4096 : c / 4096 mod 16 = c / 4096).
  { apply N.mod_small. apply N.Div0.div_lt_upper_bound. lia. }
  rewrite H4096.
  pose proof (N.div_mod c 16 ltac:(lia)) as H1.
  pose proof (N.div_mod (c / 16) 16 ltac:(lia)) as H2.
  pose proof (N.div_mod (c / 16 / 16) 16 ltac:(lia)) as H3.
  rewrite !N.Div0.div_div in H2, H3.
  change (16 * 16) with 256 in *.
  rewrite (N.Div0.div_div c 256 16) in H3. change (256 * 16) with 4096 in *. lia.
Qed.

Lemma parse_chars_plain c t :
  32 <= c -> c <> 34 -> c <> 92 ->
  parse_chars (c :: t) = prepend c (parse_chars t).
Proof.
  intros H32 H34 H92. cbn [parse_chars].
  destruct (N.eqb_spec c 34); [done|].
  destruct (N.eqb_spec c 92); [done|].
  destruct (N.ltb_spec c 32); [lia|done].
Qed.

Lemma parse_chars_unicode_escape c t :
  c < 65536 ->
  parse_chars (unicode_escape c ++ t) = prepend c (parse_chars t).
Proof.
  intros Hc. unfold unicode_escape. cbn [app parse_chars].
  change (92 =? 34) with false. change (92 =? 92) with true.
  change (117 =? 117) with true. cbn iota.
  by rewrite hex4_unicode_escape.
Qed.

Lemma parse_chars_escape_unit c t :
  parse_chars (escape_unit c ++ t) = prepend c (parse_chars t).
Proof.
  unfold escape_unit.
  repeat (match goal with
          | |- context [N.eqb c ?k] => destruct (N.eqb_spec c k); [subst c; reflexivity|]
          end).
  destruct (N.ltb_spec c 32).
  - apply parse_chars_unicode_escape. lia.
  - by apply parse_chars_plain.
Qed.

Lemma parse_chars_quote_units s : forall rest,
  parse_chars (quote_units s ++ 34 :: rest) = Some (s, rest).
Proof.
  remember (length s) as n eqn:Hn.
  revert s Hn. induction (lt_wf n) as [n _ IH]. intros s Hn rest. subst n.
  destruct s as [|c r]; [reflexivity|].
  cbn [quote_units].
  destruct (is_high_surrogate c) eqn:Hhigh.
  - apply andb_true_iff in Hhigh as [Hlo%N.leb_le Hhi%N.leb_le].
    destruct r as [|d r'].
    + rewrite parse_chars_unicode_escape by lia. reflexivity.
    + destruct (is_low_surrogate d) eqn:Hlow.
      * apply andb_true_iff in Hlow as [Hlo'%N.leb_le Hhi'%N.leb_le].
        cbn [app]. rewrite 2!parse_chars_plain by lia.
        rewrite (IH (length r')); [reflexivity|simpl; lia|reflexivity].
      * rewrite <- app_assoc, parse_chars_unicode_escape by lia.
        rewrite (IH (length (d :: r'))); [reflexivity|simpl; lia|reflexivity].
  - destruct (is_low_surrogate c) eqn:Hlow.
    + apply andb_true_iff in Hlow as [Hlo'%N.leb_le Hhi'%N.leb_le].
      rewrite <- app_assoc, parse_chars_unicode_escape by lia.
      rewrite (IH (length r)); [reflexivity|simpl; lia|reflexivity].
    + rewrite <- app_assoc, parse_chars_escape_unit.
      rewrite (IH (length r)); [reflexivity|simpl; lia|reflexivity].
Qed.

Lemma parse_chars_quote s rest :
  parse_chars (quote_units s ++ [34] ++ rest) = Some (s, rest).
Proof. apply parse_chars_quote_units. Qed.

Lemma parse_value_S fuel s :
  parse_value (S fuel) s =
  match skip_ws s with
  | [] => None
  | c :: r =>
      if c =? 34 then
        match parse_chars r with
        | Some (str, r') => Some (JString str, r')
        | None => None
        end
      else if c =? 91 then
        match skip_ws r with
        | c' :: r' =>
            if c' =? 93 then Some (JArray [], r') else parse_elements fuel r []
        | [] => None
        end
      else if c =? 123 then
        match skip_ws r with
        | c' :: r' =>
            if c' =? 125 then Some (JObject [], r') else parse_members fuel r []
        | [] => None
        end
      else if c =? 110 then
        match strip_prefix (js "null") (c :: r) with
        | Some r' => Some (JNull, r')
        | None => None
        end
      else if c =? 116 then
        match strip_prefix (js "true") (c :: r) with
        | Some r' => Some (JBool true, r')
        | None => None
        end
      else if c =? 102 then
        match strip_prefix (js "false") (c :: r) with
        | Some r' => Some (JBool false, r')
        | None => None
        end
      else parse_number (c :: r)
  end.
Proof. reflexivity. Qed.

Lemma parse_elements_S fuel s acc :
  parse_elements (S fuel) s acc =
  match parse_value fuel s with
  | Some (v, r) =>
      match skip_ws r with
      | c :: r' =>
          if c =? 44 then parse_elements fuel r' (acc ++ [v])
          else if c =? 93 then Some (JArray (acc ++ [v]), r')
          else None
      | [] => None
      end
  | None => None
  end.
Proof. reflexivity. Qed.

Lemma parse_members_S fuel s acc :
  parse_members (S fuel) s acc =
  match skip_ws s with
  | c :: r =>
      if c =? 34 then
        match parse_chars r with
        | Some (k, r1) =>
            match skip_ws r1 with
            | c1 :: r2 =>
                if c1 =? 58 then
                  match parse_value fuel r2 with
                  | Some (v, r3) =>
                      match skip_ws r3 with
                      | c3 :: r4 =>
                          if c3 =? 44 then parse_members fuel r4 (set_field k v acc)
                          else if c3 =? 125 then Some (JObject (set_field k v acc), r4)
                          else None
                      | [] => None
                      end
                  | None => None
                  end
                else None
            | [] => None
            end
        | None => None
        end
      else None
  | [] => None
  end.
Proof. reflexivity. Qed.

Lemma set_field_fresh k v acc :
  k ∉ map fst acc -> set_field k v acc = acc ++ [(k, v)].
Proof.
  induction acc as [|[k' v'] acc IH]; intros Hk; [reflexivity|].
  cbn [set_field]. cbn [map fst] in Hk.
  apply not_elem_of_cons in Hk as [Hne Hk].
  destruct (decide (k = k')); [done|]. by rewrite IH.
Qed.

(** The first character of a printed value: never white space, never a
    closing bracket. *)
Lemma stringify_head v :
  plain v ->
  exists c t, stringify v = c :: t /\ is_ws c = false /\ c <> 93 /\ c <> 125.
Proof.
  destruct 1 as [|[]| | |]; cbn [stringify]; eexists _, _;
    (split; [reflexivity|]); repeat split; done.
Qed.

Lemma skip_ws_head c t : is_ws c = false -> skip_ws (c :: t) = c :: t.
Proof. intros H. cbn [skip_ws]. by rewrite H. Qed.

Lemma skip_ws_stringify v rest :
  plain v -> skip_ws (stringify v ++ rest) = stringify v ++ rest.
Proof.
  intros (c & t & -> & Hws & _)%stringify_head. cbn [app skip_ws]. by rewrite Hws.
Qed.

Lemma parse_stringify_fuel fuel :
  (forall v rest, plain v -> (weight v <= fuel)%nat ->
     parse_value fuel (stringify v ++ rest) = Some (v, rest))
  /\ (forall l acc rest, l <> [] -> Forall plain l ->
        (list_sum (map (fun x => S (weight x)) l) <= fuel)%nat ->
        parse_elements fuel (join [44] (map stringify l) ++ 93 :: rest) acc
        = Some (JArray (acc ++ l), rest))
  /\ (forall fields acc rest, fields <> [] ->
        Forall (fun kv => plain (snd kv)) fields ->
        NoDup (map fst (acc ++ fields)) ->
        (list_sum (map (fun kv => S (weight (snd kv))) fields) <= fuel)%nat ->
        parse_members fuel (join [44] (map member_text fields) ++ 125 :: rest) acc
        = Some (JObject (acc ++ fields), rest)).
Proof.
  induction fuel as [|fuel (IHv & IHl & IHm)].
  { split; [|split].
    - intros v rest _ Hw. destruct v; cbn in Hw; lia.
    - intros [|x l] acc rest Hne _ Hw; [done|cbn in Hw; lia].
    - intros [|x l] acc rest Hne _ _ Hw; [done|cbn in Hw; lia]. }
  split; [|split].
  - intros v rest Hplain Hw. rewrite parse_value_S, skip_ws_stringify by done.
    destruct Hplain as [|[]|s|l Hl|fields Hnd Hfs]; try reflexivity.
    + cbn [stringify quote app].
      change (34 =? 34) with true. cbn iota.
      rewrite <- app_assoc. cbn [app]. by rewrite parse_chars_quote_units.
    + cbn [stringify app]. change (91 =? 34) with false. change (91 =? 91) with true.
      cbn iota. rewrite <- app_assoc. cbn [app].
      destruct l as [|x l]; [reflexivity|].
      assert (Hx : plain x) by (by inversion Hl).
      destruct (stringify_head x Hx) as (c & t & Hc & Hws & H93 & _).
      assert (Hskip : skip_ws (join [44] (map stringify (x :: l)) ++ 93 :: rest)
                      = c :: (match l with [] => t | _ => t ++ [44] ++ join [44] (map stringify l) end) ++ 93 :: rest).
      { cbn [map join]. rewrite Hc. destruct l; cbn [map app skip_ws]; by rewrite Hws. }
      rewrite Hskip. destruct (N.eqb_spec c 93); [done|].
      rewrite (IHl (x :: l) [] rest); [reflexivity|done|done|cbn in Hw; cbn; lia].
    + cbn [stringify app]. change (123 =? 34) with false. change (123 =? 91) with false.
      change (123 =? 123) with true. cbn iota. rewrite <- app_assoc. cbn [app].
      destruct fields as [|[k x] fields]; [reflexivity|].
      fold member_text.
      assert (Hskip : skip_ws (join [44] (map member_text ((k, x) :: fields)) ++ 125 :: rest)
                      = 34 :: (match fields with
                               | [] => quote_units k ++ [34] ++ 58 :: stringify x
                               | _ => (quote_units k ++ [34] ++ 58 :: stringify x) ++ [44]
                                      ++ join [44] (map member_text fields)
                               end) ++ 125 :: rest).
      { destruct fields; cbn [map join]; unfold member_text at 1;
          cbn [fst snd quote app]; rewrite <- ?app_assoc; reflexivity. }
      rewrite Hskip. change (34 =? 125) with false. cbn iota.
      rewrite (IHm ((k, x) :: fields) [] rest); [reflexivity|done|done|done|cbn in Hw; cbn; lia].
  - intros l acc rest Hne Hl Hw. destruct l as [|x l]; [done|].
    apply Forall_cons in Hl as [Hx Hl]. simpl in Hw.
    rewrite parse_elements_S.
    destruct l as [|y l].
    + cbn [map join]. rewrite IHv by (done || lia).
      rewrite skip_ws_head by reflexivity. reflexivity.
    + change (join [44] (map stringify (x :: y :: l)))
        with (stringify x ++ [44] ++ join [44] (map stringify (y :: l))).
      rewrite <- !app_assoc. rewrite IHv by (done || lia). cbn [app].
      rewrite skip_ws_head by reflexivity.
      change (44 =? 44) with true. cbn iota.
      rewrite IHl; [by rewrite <- app_assoc|done|done|lia].
  - intros fields acc rest Hne Hfs Hnd Hw. destruct fields as [|[k x] fields]; [done|].
    apply Forall_cons in Hfs as [Hx Hfs]. cbn [snd] in Hx. simpl in Hw.
    rewrite parse_members_S.
    assert (Hfresh : set_field k x acc = acc ++ [(k, x)]).
    { apply set_field_fresh. rewrite map_app in Hnd. apply NoDup_app in Hnd as (_ & Hdis & _).
      intros Hin. apply (Hdis k Hin). cbn. left. }
    assert (Hnd' : NoDup (map fst ((acc ++ [(k, x)]) ++ fields))).
    { by rewrite <- app_assoc. }
    destruct fields as [|kv fields].
    + cbn [map join]. unfold member_text. cbn [fst snd quote app].
      rewrite skip_ws_head by reflexivity.
      change (34 =? 34) with true. cbn iota.
      rewrite <- !app_assoc. cbn [app]. rewrite parse_chars_quote_units.
      rewrite skip_ws_head by reflexivity.
      change (58 =? 58) with true. cbn iota.
      rewrite IHv by (done || lia).
      rewrite skip_ws_head by reflexivity.
      change (125 =? 44) with false. change (125 =? 125) with true. cbn iota.
      by rewrite Hfresh.
    + change (join [44] (map member_text ((k, x) :: kv :: fields)))
        with (member_text (k, x) ++ [44] ++ join [44] (map member_text (kv :: fields))).
      unfold member_text at 1. cbn [fst snd quote app].
      rewrite skip_ws_head by reflexivity.
      change (34 =? 34) with true. cbn iota.
      rewrite <- !app_assoc. cbn [app]. rewrite parse_chars_quote_units.
      rewrite skip_ws_head by reflexivity.
      change (58 =? 58) with true. cbn iota.
      rewrite IHv by (done || lia). cbn [app].
      rewrite skip_ws_head by reflexivity.
      change (44 =? 44) with true. cbn iota.
      rewrite Hfresh. rewrite IHm; [by rewrite <- app_assoc|done|done|done|lia].
Qed.

Lemma length_join_weight {A} (text : A -> jsstring) (w : A -> nat) (l : list A) :
  Forall (fun x => (S (w x) <= length (text x))%nat \/ (w x <= length (text x))%nat) l ->
  (list_sum (map (fun x => S (w x)) l) <= length (join [44%N] (map text l)) + 1)%nat.
Proof.
  induction l as [|x l IH]; intros Hl; [simpl; lia|].
  apply Forall_cons in Hl as [Hx Hl]. specialize (IH Hl).
  destruct l as [|y l].
  - simpl. destruct Hx; lia.
  - change (join [44] (map text (x :: y :: l)))
      with (text x ++ [44] ++ join [44] (map text (y :: l))).
    rewrite !length_app. simpl in *. destruct Hx; lia.
Qed.

Lemma weight_le_length v : plain v -> (weight v <= length (stringify v))%nat.
Proof.
  induction v as [|b|m e|s|l IH|fields IH] using value_nested_ind; intros Hplain.
  - simpl. lia.
  - destruct b; simpl; lia.
  - inversion Hplain.
  - cbn [stringify quote weight]. simpl. lia.
  - inversion Hplain as [| | |l' Hl|]; subst.
    cbn [stringify weight]. cbn [length]. rewrite length_app. cbn [length].
    pose proof (length_join_weight stringify weight l) as Hsum.
    assert (Hall : Forall (fun x => (S (weight x) <= length (stringify x))%nat
                                    \/ (weight x <= length (stringify x))%nat) l).
    { rewrite Forall_forall in *. intros x Hx. right. by apply IH, Hl. }
    specialize (Hsum Hall). lia.
  - inversion Hplain as [| | | |fields' Hnd Hfs]; subst.
    cbn [stringify weight]. cbn [length]. rewrite length_app. cbn [length].
    pose proof (length_join_weight (fun kv => quote (fst kv) ++ 58 :: stringify (snd kv))
                  (fun kv => weight (snd kv)) fields) as Hsum.
    assert (Hall : Forall (fun kv : jsstring * value =>
                (S (weight (snd kv)) <= length (quote (fst kv) ++ 58%N :: stringify (snd kv)))%nat
                \/ (weight (snd kv) <= length (quote (fst kv) ++ 58%N :: stringify (snd kv)))%nat)
              fields).
    { rewrite Forall_forall in *. intros kv Hkv. left.
      specialize (IH kv Hkv (Hfs kv Hkv)). rewrite length_app. simpl. lia. }
    specialize (Hsum Hall). lia.
Qed.

(** [JSON.parse(JSON.stringify(v))] is [v] for a value without numbers whose
    objects have distinct property names. *)
Lemma parse_stringify v : plain v -> parse (stringify v) = Some v.
Proof.
  intros Hplain. unfold parse.
  destruct (parse_stringify_fuel (S (length (stringify v)))) as (Hv & _ & _).
  specialize (Hv v [] Hplain). rewrite app_nil_r in Hv.
  rewrite Hv; [reflexivity|]. pose proof (weight_le_length v Hplain). lia.
Qed.

End JSONFacts.

(** ** Reading and writing the store *)

Section TypedRoundTrip.

Lemma plain_json_of_Certificate c : JSON.plain (json_of_Certificate c).
Proof.
  unfold json_of_Certificate. constructor.
  - apply (bool_decide_unpack _). by vm_compute.
  - repeat constructor.
Qed.

Lemma plain_json_of_Certificates l : JSON.plain (json_of_Certificates l).
Proof.
  constructor. induction l; constructor; [apply plain_json_of_Certificate|done].
Qed.

Lemma plain_json_of_Request d : JSON.plain (json_of_Request d).
Proof.
  unfold json_of_Request. constructor.
  - apply (bool_decide_unpack _). by vm_compute.
  - repeat constructor.
Qed.

Lemma Certificate_of_json_of_Certificate c :
  Certificate_of_json (json_of_Certificate c) = Some c.
Proof. by destruct c. Qed.

Lemma Request_of_json_of_Request d : Request_of_json (json_of_Request d) = Some d.
Proof. by destruct d. Qed.

Lemma Certificates_of_json_of_Certificates l :
  Certificates_of_json (json_of_Certificates l) = Some l.
Proof.
  unfold json_of_Certificates. cbn [Certificates_of_json].
  induction l as [|c l IH]; [reflexivity|].
  cbn [map Certificates_of_list]. by rewrite Certificate_of_json_of_Certificate, IH.
Qed.

Lemma parse_as_store_text l : parse_as Certificates_of_json (store_text l) = Return l.
Proof.
  unfold parse_as, store_text.
  rewrite parse_stringify by apply plain_json_of_Certificates.
  by rewrite Certificates_of_json_of_Certificates.
Qed.

Lemma parse_as_request_text d :
  parse_as Request_of_json (JSON.stringify (json_of_Request d)) = Return d.
Proof.
  unfold parse_as. rewrite parse_stringify by apply plain_json_of_Request.
  by rewrite Request_of_json_of_Request.
Qed.

Lemma falsy_store_text l : falsy (store_text l) = false.
Proof. reflexivity. Qed.

Lemma parse_as_empty_array : parse_as Certificates_of_json (js "[]") = Return [].
Proof. reflexivity. Qed.

End TypedRoundTrip.

Section StorageFacts.

Lemma getCertificatesFromStorage_eq ls :
  LocalApi.getCertificatesFromStorage ls = (stored_certificates ls, ls).
Proof.
  unfold stored_certificates, LocalApi.getCertificatesFromStorage, bind, getItem, ret, lift.
  destruct (ls !! STORAGE_KEY) as [text|]; [|reflexivity].
  by destruct (falsy text).
Qed.

Lemma stored_certificates_lookup ls :
  stored_certificates ls =
  match ls !! STORAGE_KEY with
  | Some text => if falsy text then Return [] else parse_as Certificates_of_json text
  | None => Return []
  end.
Proof.
  unfold stored_certificates, LocalApi.getCertificatesFromStorage, bind, getItem, ret, lift.
  destruct (ls !! STORAGE_KEY) as [text|]; [|reflexivity].
  by destruct (falsy text).
Qed.

Lemma stored_certificates_insert ls l :
  stored_certificates (<[STORAGE_KEY := store_text l]> ls) = Return l.
Proof.
  rewrite stored_certificates_lookup, lookup_insert_eq, falsy_store_text.
  apply parse_as_store_text.
Qed.

(** The first two lines of [fallbackToLocalStorage] read the store as
    [getCertificatesFromStorage] does. *)
Lemma fallback_certificates ls :
  parse_as Certificates_of_json
    match ls !! STORAGE_KEY with
    | Some text => if falsy text then js "[]" else text
    | None => js "[]"
    end = stored_certificates ls.
Proof.
  rewrite stored_certificates_lookup.
  destruct (ls !! STORAGE_KEY) as [text|]; [|reflexivity].
  by destruct (falsy text).
Qed.

Lemma split_pop_from_sep sep a b cur :
  split_pop_from sep (a ++ sep :: b) cur = split_pop_from sep b [].
Proof.
  revert cur. induction a as [|c a IH]; intros cur; cbn [app split_pop_from].
  - by rewrite N.eqb_refl.
  - destruct (c =? sep); apply IH.
Qed.

Lemma split_pop_from_none sep b cur :
  sep ∉ b -> split_pop_from sep b cur = cur ++ b.
Proof.
  revert cur. induction b as [|c b IH]; intros cur Hb; cbn [split_pop_from].
  - by rewrite app_nil_r.
  - apply not_elem_of_cons in Hb as [Hne Hb].
    destruct (N.eqb_spec c sep); [congruence|].
    rewrite IH by done. by rewrite <- app_assoc.
Qed.

(** The identifier the fallback extracts from the endpoint of [verify] is
    the part of the argument after its last slash. *)
Lemma split_pop_verify_endpoint certificateId :
  split_pop 47 (js "/certificates/verify/" ++ certificateId) = split_pop 47 certificateId.
Proof.
  unfold split_pop.
  change (js "/certificates/verify/") with (js "/certificates/verify" ++ [47]).
  rewrite <- app_assoc. cbn [app]. apply split_pop_from_sep.
Qed.

Lemma split_pop_no_slash s : 47 ∉ s -> split_pop 47 s = s.
Proof. intros H. unfold split_pop. by rewrite split_pop_from_none. Qed.

Lemma verify_endpoint_not_list certificateId :
  bool_decide (js "/certificates/verify/" ++ certificateId = js "/certificates") = false.
Proof.
  apply bool_decide_eq_false. intros H. apply (f_equal length) in H.
  rewrite length_app in H. vm_compute in H. lia.
Qed.

Lemma verify_endpoint_startsWith certificateId :
  startsWith (js "/certificates/verify/") (js "/certificates/verify/" ++ certificateId) = true.
Proof. reflexivity. Qed.

End StorageFacts.

Section ApiFacts.

Variable Date_getTime : jsstring -> option Z.

Lemma Api_issue_local env data ls :
  Api.issue Date_getTime None env data ls =
  match stored_certificates ls with
  | Return certificates =>
      (Return (Api.IssueResponse (Api.generateCertificateId env)),
       <[STORAGE_KEY := store_text (certificates ++ [newCertificate env data])]> ls)
  | Throw e => (Throw e, ls)
  | Untyped => (Untyped, ls)
  end.
Proof.
  unfold Api.issue, Api.makeRequest, Api.fallbackToLocalStorage, bind, getItem, lift.
  rewrite fallback_certificates.
  destruct (stored_certificates ls) as [certificates|e|]; [|reflexivity..].
  cbn [Api.method Api.body]. rewrite !bool_decide_eq_true_2 by reflexivity. cbn [andb].
  rewrite parse_as_request_text. reflexivity.
Qed.

Lemma LocalApi_issue_eq env data ls :
  LocalApi.issue env data ls =
  match stored_certificates ls with
  | Return certificates =>
      (Return (LocalApi.generateCertificateId env),
       <[STORAGE_KEY := store_text (certificates ++ [newCertificate env data])]> ls)
  | Throw e => (Throw e, ls)
  | Untyped => (Untyped, ls)
  end.
Proof.
  unfold LocalApi.issue, bind. rewrite getCertificatesFromStorage_eq.
  by destruct (stored_certificates ls).
Qed.

Lemma Api_verify_local env certificateId ls :
  Api.verify Date_getTime None env certificateId ls =
  match stored_certificates ls with
  | Return certificates =>
      match find (certificate_with (split_pop 47 certificateId)) certificates with
      | Some certificate => (Return (Api.CertificateResponse certificate), ls)
      | None => (Throw (Error (js "Certificate not found")), ls)
      end
  | Throw e => (Throw e, ls)
  | Untyped => (Untyped, ls)
  end.
Proof.
  unfold Api.verify, Api.makeRequest, Api.fallbackToLocalStorage, bind, getItem, lift.
  rewrite fallback_certificates.
  destruct (stored_certificates ls) as [certificates|e|]; [|reflexivity..].
  rewrite verify_endpoint_not_list. cbn [andb].
  rewrite verify_endpoint_startsWith, split_pop_verify_endpoint.
  unfold certificate_with.
  by destruct (find _ certificates).
Qed.

Lemma LocalApi_verify_eq certificateId ls :
  LocalApi.verify certificateId ls =
  match stored_certificates ls with
  | Return certificates =>
      match find (certificate_with certificateId) certificates with
      | Some certificate => (Return certificate, ls)
      | None => (Throw (Error (js "Certificate not found")), ls)
      end
  | Throw e => (Throw e, ls)
  | Untyped => (Untyped, ls)
  end.
Proof.
  unfold LocalApi.verify, bind. rewrite getCertificatesFromStorage_eq.
  destruct (stored_certificates ls) as [certificates|e|]; [|reflexivity..].
  unfold certificate_with. by destruct (find _ certificates).
Qed.

Lemma Api_getAll_local env ls :
  Api.getAll Date_getTime None env ls =
  match stored_certificates ls with
  | Return certificates =>
      (Return (Api.ListResponse (Array_sort (compare_issuedAt Date_getTime) certificates)), ls)
  | Throw e => (Throw e, ls)
  | Untyped => (Untyped, ls)
  end.
Proof.
  unfold Api.getAll, Api.makeRequest, Api.fallbackToLocalStorage, bind, getItem, lift.
  rewrite fallback_certificates.
  by destruct (stored_certificates ls) as [certificates|e|].
Qed.

Lemma LocalApi_getAll_eq ls :
  LocalApi.getAll Date_getTime ls =
  match stored_certificates ls with
  | Return certificates =>
      (Return (Array_sort (compare_issuedAt Date_getTime) certificates), ls)
  | Throw e => (Throw e, ls)
  | Untyped => (Untyped, ls)
  end.
Proof.
  unfold LocalApi.getAll, bind. rewrite getCertificatesFromStorage_eq.
  by destruct (stored_certificates ls).
Qed.

Lemma Api_healthCheck_local env ls :
  Api.healthCheck Date_getTime None env ls =
  match stored_certificates ls with
  | Untyped => (Untyped, ls)
  | _ => (Return (Api.HealthResponse (js "localStorage_fallback") (isoString env)), ls)
  end.
Proof.
  unfold Api.healthCheck, try_catch, Api.makeRequest, Api.fallbackToLocalStorage, bind,
    getItem, lift.
  rewrite fallback_certificates.
  by destruct (stored_certificates ls) as [certificates|e|].
Qed.

Lemma Api_remote r env endpoint options ls :
  Api.makeRequest Date_getTime (Some r) env endpoint options ls = (Return r, ls).
Proof. reflexivity. Qed.

End ApiFacts.

(** ** Generated identifiers and lookup by identifier *)

Section IdentifierFacts.

Lemma digit_char_not_slash d : digit_char d <> 47.
Proof. unfold digit_char. destruct (N.ltb_spec d 10); lia. Qed.

Lemma to_radix_no_slash radix fuel n acc :
  47 ∉ acc -> 47 ∉ to_radix radix fuel n acc.
Proof.
  revert n acc. induction fuel as [|fuel IH]; intros n acc Hacc; cbn [to_radix]; [done|].
  assert (47 ∉ digit_char (n mod radix) :: acc).
  { apply not_elem_of_cons. split; [|done]. intros H. by apply (digit_char_not_slash (n mod radix)). }
  destruct (n / radix =? 0); [done|]. by apply IH.
Qed.

Lemma Z_toString_no_slash z : 47 ∉ Z_toString z.
Proof.
  destruct z as [|p|p]; cbn [Z_toString]; unfold N_toString.
  - apply to_radix_no_slash, not_elem_of_nil.
  - apply to_radix_no_slash, not_elem_of_nil.
  - apply not_elem_of_cons; split; [done|apply to_radix_no_slash, not_elem_of_nil].
Qed.

Lemma toUpperCase_unit_not_slash c : c <> 47 -> toUpperCase_unit c <> 47.
Proof.
  intros Hc. unfold toUpperCase_unit.
  destruct (N.leb_spec 97 c); destruct (N.leb_spec c 122); cbn [andb]; lia.
Qed.

Lemma elem_of_substring start stop (s : jsstring) c :
  c ∈ substring start stop s -> c ∈ s.
Proof.
  unfold substring. intros (i & Hi & _)%elem_of_take.
  rewrite lookup_drop in Hi. by apply list_elem_of_lookup_2 in Hi.
Qed.

Lemma Math_random_toString36_no_slash env : 47 ∉ Math_random_toString36 env.
Proof.
  unfold Math_random_toString36. destruct (random36 env) as [|d ds].
  - by vm_compute; intros H; repeat (apply elem_of_cons in H as [H|H]; [done|]); inversion H.
  - change (js "0.") with [48; 46]. cbn [app].
    apply not_elem_of_cons; split; [done|]. apply not_elem_of_cons; split; [done|].
    intros (x & Hx & _)%list_elem_of_fmap. by apply (digit_char_not_slash x).
Qed.

Lemma generateCertificateId_no_slash env : 47 ∉ Api.generateCertificateId env.
Proof.
  unfold Api.generateCertificateId.
  rewrite !not_elem_of_app. repeat split.
  - by vm_compute; intros H; repeat (apply elem_of_cons in H as [H|H]; [done|]); inversion H.
  - apply Z_toString_no_slash.
  - by vm_compute; intros H; repeat (apply elem_of_cons in H as [H|H]; [done|]); inversion H.
  - unfold toUpperCase, substring.
    intros (c & Hc & Hin)%list_elem_of_fmap.
    apply elem_of_substring in Hin.
    apply (toUpperCase_unit_not_slash c); [|done].
    intros ->. by apply (Math_random_toString36_no_slash env).
Qed.

Lemma LocalApi_generateCertificateId env :
  LocalApi.generateCertificateId env = Api.generateCertificateId env.
Proof. reflexivity. Qed.

End IdentifierFacts.

Section FindFacts.

Lemma find_certificate_with_Some certificateId l c :
  find (certificate_with certificateId) l = Some c ->
  Certificate.certificateId c = certificateId /\ c ∈ l.
Proof.
  intros H. apply find_some in H as [Hin Hc].
  split; [by apply bool_decide_eq_true in Hc|by apply list_elem_of_In].
Qed.

Lemma find_certificate_with_None certificateId l :
  find (certificate_with certificateId) l = None <->
  (forall c, c ∈ l -> Certificate.certificateId c <> certificateId).
Proof.
  split.
  - intros H c Hin Hc. apply list_elem_of_In in Hin.
    pose proof (find_none _ _ H c Hin) as Hn.
    unfold certificate_with in Hn. by rewrite bool_decide_eq_true_2 in Hn.
  - intros H. induction l as [|x l IH]; [reflexivity|].
    cbn [find]. unfold certificate_with at 1.
    rewrite bool_decide_eq_false_2 by (apply H; left).
    apply IH. intros c Hc. apply H. by right.
Qed.

(** [find] returns the first record with the identifier: none before it has
    it. *)
Lemma find_certificate_with_first certificateId l c :
  find (certificate_with certificateId) l = Some c <->
  exists before after,
    l = before ++ c :: after /\ Certificate.certificateId c = certificateId
    /\ forall x, x ∈ before -> Certificate.certificateId x <> certificateId.
Proof.
  split.
  - revert c. induction l as [|x l IH]; intros c H; [done|].
    cbn [find] in H. unfold certificate_with at 1 in H.
    destruct (decide (Certificate.certificateId x = certificateId)) as [Hx|Hx].
    + rewrite bool_decide_eq_true_2 in H by done. injection H as <-.
      exists [], l. repeat split; [done|]. intros y Hy. by apply elem_of_nil in Hy.
    + rewrite bool_decide_eq_false_2 in H by done.
      destruct (IH c H) as (before & after & -> & Hc & Hbefore).
      exists (x :: before), after. repeat split; [done|].
      intros y [->|Hy]%elem_of_cons; [done|by apply Hbefore].
  - intros (before & after & -> & Hc & Hbefore).
    induction before as [|x before IH]; cbn [app find].
    + unfold certificate_with. by rewrite bool_decide_eq_true_2.
    + unfold certificate_with at 1.
      rewrite bool_decide_eq_false_2 by (apply Hbefore; left).
      apply IH. intros y Hy. apply Hbefore. by right.
Qed.

Lemma find_certificate_with_app_new certificateId l c :
  Certificate.certificateId c = certificateId ->
  exists found,
    find (certificate_with certificateId) (l ++ [c]) = Some found
    /\ Certificate.certificateId found = certificateId
    /\ (found = c \/ found ∈ l).
Proof.
  intros Hc. induction l as [|x l (found & Hfind & Hid & Hwhere)]; cbn [app find].
  - exists c. unfold certificate_with. rewrite bool_decide_eq_true_2 by done. auto.
  - unfold certificate_with at 1.
    destruct (decide (Certificate.certificateId x = certificateId)) as [Hx|Hx].
    + rewrite bool_decide_eq_true_2 by done. exists x. repeat split; [done|].
      right. left.
    + rewrite bool_decide_eq_false_2 by done. exists found. repeat split; [done..|].
      destruct Hwhere; [by left|right; by right].
Qed.

End FindFacts.

(** ** C1: [verify] after [issue] *)

(** C1.  On the local-fallback path, whatever the store and the issuance
    input: when [issue] returns [{ certificateId: id }], the [verify(id)] that
    follows returns a record whose [certificateId] is [id], and that record is
    the one [issue] appended or an earlier record with the same identifier.
    This holds for the [CertificateAPI] class and for the localStorage-only
    module. *)
Theorem verify_after_issue (Date_getTime : jsstring -> option Z) (env env' : Env)
    (data : IssueCertificateRequest.t) (ls : localStorage) :
  (forall id ls',
     Api.issue Date_getTime None env data ls = (Return (Api.IssueResponse id), ls') ->
     exists c,
       Api.verify Date_getTime None env' id ls' = (Return (Api.CertificateResponse c), ls')
       /\ Certificate.certificateId c = id
       /\ (c = newCertificate env data \/ c ∈ records ls))
  /\ (forall id ls',
        LocalApi.issue env data ls = (Return id, ls') ->
        exists c,
          LocalApi.verify id ls' = (Return c, ls')
          /\ Certificate.certificateId c = id
          /\ (c = newCertificate env data \/ c ∈ records ls)).
Proof.
  split; intros id ls' Hissue.
  - rewrite Api_issue_local in Hissue. unfold records.
    destruct (stored_certificates ls) as [l|e|]; [|done..].
    injection Hissue as <- <-.
    rewrite Api_verify_local, stored_certificates_insert.
    rewrite split_pop_no_slash by apply generateCertificateId_no_slash.
    destruct (find_certificate_with_app_new (Api.generateCertificateId env) l
                (newCertificate env data) eq_refl) as (c & -> & Hid & Hwhere).
    by exists c.
  - rewrite LocalApi_issue_eq in Hissue. unfold records.
    destruct (stored_certificates ls) as [l|e|]; [|done..].
    injection Hissue as <- <-.
    rewrite LocalApi_verify_eq, stored_certificates_insert.
    destruct (find_certificate_with_app_new (Api.generateCertificateId env) l
                (newCertificate env data) eq_refl) as (c & Hfind & Hid & Hwhere).
    rewrite LocalApi_generateCertificateId, Hfind. by exists c.
Qed.

Lemma verify_after_issue_witness :
  (exists c,
     Api.verify iso_getTime None env0 (Api.generateCertificateId env0)
       (snd (Api.issue iso_getTime None env0 request0 ∅))
     = (Return (Api.CertificateResponse c), snd (Api.issue iso_getTime None env0 request0 ∅))
     /\ Certificate.certificateId c = Api.generateCertificateId env0
     /\ (c = newCertificate env0 request0 \/ c ∈ records ∅))
  /\ (exists c,
        LocalApi.verify (Api.generateCertificateId env0) (snd (LocalApi.issue env0 request0 ∅))
        = (Return c, snd (LocalApi.issue env0 request0 ∅))
        /\ Certificate.certificateId c = Api.generateCertificateId env0
        /\ (c = newCertificate env0 request0 \/ c ∈ records ∅)).
Proof.
  split.
  - apply (proj1 (verify_after_issue iso_getTime env0 env0 request0 ∅)). by vm_compute.
  - apply (proj2 (verify_after_issue iso_getTime env0 env0 request0 ∅)). by vm_compute.
Defined.

(** ** C2: [issue] and the required fields *)

(** C2, the claim as stated fails.  [issue] checks nothing: on the fallback
    path, given a request whose [recipientName] is empty and an empty
    [localStorage], it returns an identifier and leaves a store holding one
    record with the empty name. *)
Lemma issue_accepts_empty_recipientName :
  let data := request_blank_name in
  fst (Api.issue iso_getTime None env0 data ∅) = Return (Api.IssueResponse (js "CERT-2025-K3F9ZQ"))
  /\ records (snd (Api.issue iso_getTime None env0 data ∅)) = [newCertificate env0 data]
  /\ fst (LocalApi.issue env0 data ∅) = Return (js "CERT-2025-K3F9ZQ")
  /\ records (snd (LocalApi.issue env0 data ∅)) = [newCertificate env0 data]
  /\ records ∅ = [].
Proof. by vm_compute. Qed.

(** C2, amended.  [issue] validates nothing: whatever the fields of the
    request, empty or not, on the fallback path it appends the new record to
    the stored sequence and returns its identifier.  The required fields are
    checked by the submit handler of the issue form: when [recipientName],
    [courseName] or [issuerName] is empty, [handleSubmit] shows the toast
    Missing Information and returns without running the mutation, whatever
    the mutation is, so nothing is read or written and [localStorage] is
    unchanged. *)
Theorem required_fields_checked_by_form {A} (mutate : IssueCertificateRequest.t -> M A)
    (Date_getTime : jsstring -> option Z) (env : Env)
    (formData : IssueCertificateRequest.t) (ls : localStorage) :
  IssueCertificateRequest.recipientName formData = []
  \/ IssueCertificateRequest.courseName formData = []
  \/ IssueCertificateRequest.issuerName formData = [] ->
  IssueCertificate.handleSubmit mutate formData ls
  = (Return (IssueCertificate.Toasted
               {| IssueCertificate.title := js "Missing Information";
                  IssueCertificate.description := js "Please fill in all required fields.";
                  IssueCertificate.variant := js "destructive" |}),
     ls)
  /\ forall l,
       stored_certificates ls = Return l ->
       Api.issue Date_getTime None env formData ls
       = (Return (Api.IssueResponse (Api.generateCertificateId env)),
          <[STORAGE_KEY := store_text (l ++ [newCertificate env formData])]> ls)
       /\ LocalApi.issue env formData ls
          = (Return (LocalApi.generateCertificateId env),
             <[STORAGE_KEY := store_text (l ++ [newCertificate env formData])]> ls).
Proof.
  intros Hmissing. split.
  - unfold IssueCertificate.handleSubmit.
    destruct Hmissing as [->|[->| ->]]; cbn [falsy orb]; rewrite ?orb_true_r; reflexivity.
  - intros l Hl. by rewrite Api_issue_local, LocalApi_issue_eq, Hl.
Qed.

Lemma required_fields_checked_by_form_witness :
  IssueCertificate.handleSubmit (Api.issue iso_getTime None env0) request_blank_name ∅
  = (Return (IssueCertificate.Toasted
               {| IssueCertificate.title := js "Missing Information";
                  IssueCertificate.description := js "Please fill in all required fields.";
                  IssueCertificate.variant := js "destructive" |}),
     ∅)
  /\ Api.issue iso_getTime None env0 request_blank_name ∅
     = (Return (Api.IssueResponse (Api.generateCertificateId env0)),
        <[STORAGE_KEY := store_text ([] ++ [newCertificate env0 request_blank_name])]> ∅)
  /\ LocalApi.issue env0 request_blank_name ∅
     = (Return (LocalApi.generateCertificateId env0),
        <[STORAGE_KEY := store_text ([] ++ [newCertificate env0 request_blank_name])]> ∅).
Proof.
  destruct (required_fields_checked_by_form (Api.issue iso_getTime None env0) iso_getTime
              env0 request_blank_name ∅) as [Hform Hissue]; [left; reflexivity|].
  split; [exact Hform|]. apply (Hissue []). reflexivity.
Defined.

(** With the three required fields filled in, the handler runs the mutation. *)
Lemma handleSubmit_complete {A} (mutate : IssueCertificateRequest.t -> M A)
    (formData : IssueCertificateRequest.t) (ls : localStorage) :
  IssueCertificateRequest.recipientName formData <> [] ->
  IssueCertificateRequest.courseName formData <> [] ->
  IssueCertificateRequest.issuerName formData <> [] ->
  IssueCertificate.handleSubmit mutate formData ls
  = bind (mutate formData) (fun a => ret (IssueCertificate.Mutated a)) ls.
Proof.
  intros H1 H2 H3. unfold IssueCertificate.handleSubmit.
  destruct (IssueCertificateRequest.recipientName formData); [done|].
  destruct (IssueCertificateRequest.courseName formData); [done|].
  by destruct (IssueCertificateRequest.issuerName formData).
Qed.

(** ** C3: [verify] and identifiers that are not stored *)

Section VerifyFacts.

Variable Date_getTime : jsstring -> option Z.

(** The localStorage-only module: [verify] fails with Certificate not found
    exactly when no stored record has the identifier, and otherwise returns
    the first record that has it. *)
Lemma LocalApi_verify_spec certificateId ls l :
  stored_certificates ls = Return l ->
  (fst (LocalApi.verify certificateId ls) = Throw (Error (js "Certificate not found"))
   <-> forall c, c ∈ l -> Certificate.certificateId c <> certificateId)
  /\ (forall c,
        fst (LocalApi.verify certificateId ls) = Return c
        <-> exists before after,
              l = before ++ c :: after /\ Certificate.certificateId c = certificateId
              /\ forall x, x ∈ before -> Certificate.certificateId x <> certificateId).
Proof.
  intros Hl. rewrite LocalApi_verify_eq, Hl. split.
  - rewrite <- find_certificate_with_None.
    destruct (find _ l); cbn [fst]; split; congruence.
  - intros c. rewrite <- find_certificate_with_first.
    destruct (find _ l); cbn [fst]; split; congruence.
Qed.

(** The class: the same, for an identifier without a slash. *)
Lemma Api_verify_spec env certificateId ls l :
  47 ∉ certificateId ->
  stored_certificates ls = Return l ->
  (fst (Api.verify Date_getTime None env certificateId ls)
   = Throw (Error (js "Certificate not found"))
   <-> forall c, c ∈ l -> Certificate.certificateId c <> certificateId)
  /\ (forall c,
        fst (Api.verify Date_getTime None env certificateId ls)
        = Return (Api.CertificateResponse c)
        <-> exists before after,
              l = before ++ c :: after /\ Certificate.certificateId c = certificateId
              /\ forall x, x ∈ before -> Certificate.certificateId x <> certificateId).
Proof.
  intros Hslash Hl. rewrite Api_verify_local, Hl, split_pop_no_slash by done. split.
  - rewrite <- find_certificate_with_None.
    destruct (find _ l); cbn [fst]; split; congruence.
  - intros c. rewrite <- find_certificate_with_first.
    destruct (find _ l); cbn [fst]; split; congruence.
Qed.

(** With a slash in the argument the class looks up what follows the last
    slash. *)
Lemma Api_verify_last_segment env certificateId ls :
  Api.verify Date_getTime None env certificateId ls
  = Api.verify Date_getTime None env (split_pop 47 certificateId) ls.
Proof.
  rewrite !Api_verify_local.
  assert (Hidem : split_pop 47 (split_pop 47 certificateId) = split_pop 47 certificateId).
  { apply split_pop_no_slash. unfold split_pop.
    assert (Hgen : forall s cur, 47 ∉ cur -> 47 ∉ split_pop_from 47 s cur).
    { induction s as [|c s IH]; intros cur Hcur; cbn [split_pop_from]; [done|].
      destruct (N.eqb_spec c 47).
      - apply IH, not_elem_of_nil.
      - apply IH. rewrite not_elem_of_app. split; [done|].
        apply not_elem_of_cons. split; [congruence|apply not_elem_of_nil]. }
    apply Hgen, not_elem_of_nil. }
  by rewrite Hidem.
Qed.

End VerifyFacts.

(** C3, where the code departs from the claim.  The store holds the two
    sample records; none has the identifier [x/CERT-2024-SAMPLE1].  The
    localStorage-only module answers Certificate not found, as claimed; the
    class takes the identifier from the endpoint with [split('/').pop()],
    looks up [CERT-2024-SAMPLE1] and returns the first sample record. *)
Theorem verify_slash_finds_other_record :
  records seeded = samples env0
  /\ (forall c, c ∈ records seeded ->
        Certificate.certificateId c <> js "x/CERT-2024-SAMPLE1")
  /\ fst (LocalApi.verify (js "x/CERT-2024-SAMPLE1") seeded)
     = Throw (Error (js "Certificate not found"))
  /\ exists c,
       fst (Api.verify iso_getTime None env0 (js "x/CERT-2024-SAMPLE1") seeded)
       = Return (Api.CertificateResponse c)
       /\ Certificate.certificateId c = js "CERT-2024-SAMPLE1".
Proof.
  assert (Hrec : records seeded = samples env0) by by vm_compute.
  split; [done|]. split; [|split].
  - rewrite Hrec. intros c Hc. unfold samples, sampleCertificates in Hc.
    repeat (apply elem_of_cons in Hc as [->|Hc]; [by vm_compute|]).
    by apply elem_of_nil in Hc.
  - by vm_compute.
  - eexists. split; by vm_compute.
Qed.

(** ** C4: the shape of generated identifiers *)

(** C4, where the code departs from the claim.  [Math.random()] can return
    0.5, which [toString(36)] renders [0.i]; [substring(2, 8)] then has one
    character and the identifier is [CERT-2025-I].  When it returns 0 the
    rendering is [0] and the identifier ends with the dash. *)
Theorem generateCertificateId_short_random :
  Math_random_toString36 env_half = js "0.i"
  /\ Api.generateCertificateId env_half = js "CERT-2025-I"
  /\ LocalApi.generateCertificateId env_half = js "CERT-2025-I"
  /\ matches_certificate_pattern (Api.generateCertificateId env_half) = false
  /\ Math_random_toString36 env_zero = js "0"
  /\ Api.generateCertificateId env_zero = js "CERT-2025-"
  /\ matches_certificate_pattern (Api.generateCertificateId env_zero) = false.
Proof. by vm_compute. Qed.

Section PatternFacts.

Lemma is_digit_digit_char d : d < 10 -> JSON.is_digit (digit_char d) = true.
Proof.
  intros Hd. unfold JSON.is_digit, digit_char.
  destruct (N.ltb_spec d 10); [|lia].
  apply andb_true_iff. split; apply N.leb_le; lia.
Qed.

Lemma is_upper_alnum_digit_char d :
  d < 36 -> is_upper_alnum (toUpperCase_unit (digit_char d)) = true.
Proof.
  intros Hd. unfold is_upper_alnum, toUpperCase_unit, digit_char, JSON.is_digit.
  destruct (N.ltb_spec d 10).
  - replace ((97 <=? 48 + d) && (48 + d <=? 122)) with false
      by (symmetry; apply andb_false_iff; left; apply N.leb_gt; lia).
    apply orb_true_iff. left. apply andb_true_iff. split; apply N.leb_le; lia.
  - replace ((97 <=? 87 + d) && (87 + d <=? 122)) with true
      by (symmetry; apply andb_true_iff; split; apply N.leb_le; lia).
    apply orb_true_iff. right. apply andb_true_iff. split; apply N.leb_le; lia.
Qed.

(** A year from 1000 to 9999 is written with four decimal digits. *)
Lemma Z_toString_four_digits (year : Z) :
  (1000 <= year <= 9999)%Z ->
  exists a b c d,
    Z_toString year = [digit_char a; digit_char b; digit_char c; digit_char d]
    /\ a < 10 /\ b < 10 /\ c < 10 /\ d < 10.
Proof.
  intros Hy. destruct year as [|p|p]; [lia| |lia].
  cbn [Z_toString Z.to_N]. unfold N_toString.
  set (n := N.pos p). assert (Hn : 1000 <= n <= 9999) by (unfold n; lia).
  assert (Hlog : 9 <= N.log2 n).
  { change 9 with (N.log2 1000). apply N.log2_le_mono. lia. }
  destruct (N.to_nat (N.log2 n)) as [|[|[|fuel]]] eqn:Hfuel; [lia..|].
  exists (n / 10 / 10 / 10 mod 10), (n / 10 / 10 mod 10), (n / 10 mod 10), (n mod 10).
  assert (Hdiv : forall k, 0 < k -> k <= 1000 -> (n / k =? 0) = false).
  { intros k Hk0 Hk. apply N.eqb_neq. intros H0.
    apply N.div_small_iff in H0; lia. }
  assert (H1 : (n / 10 =? 0) = false) by (apply Hdiv; lia).
  assert (H2 : (n / 10 / 10 =? 0) = false).
  { rewrite N.Div0.div_div. apply Hdiv; lia. }
  assert (H3 : (n / 10 / 10 / 10 =? 0) = false).
  { rewrite !N.Div0.div_div. apply Hdiv; lia. }
  assert (H4 : (n / 10 / 10 / 10 / 10 =? 0) = true).
  { apply N.eqb_eq. rewrite !N.Div0.div_div. apply N.div_small. lia. }
  cbn [to_radix]. rewrite H1, H2, H3, H4.
  split; [reflexivity|]. repeat split; apply N.mod_lt; lia.
Qed.

(** The first characters of the rendering of a random number with at least
    six digits. *)
Lemma substring_random36 env :
  (6 <= length (random36 env))%nat ->
  substring 2 8 (Math_random_toString36 env) = digit_char <$> take 6 (random36 env).
Proof.
  intros Hlen. unfold Math_random_toString36, substring.
  destruct (random36 env) as [|d ds]; [simpl in Hlen; lia|].
  change (js "0.") with [48; 46]. cbn [app drop Nat.sub].
  by rewrite fmap_take.
Qed.

(** Where the identifier has the documented shape: a four-digit year and a
    random number rendered with at least six radix-36 digits. *)
Lemma generateCertificateId_pattern env :
  (1000 <= fullYear env <= 9999)%Z ->
  (6 <= length (random36 env))%nat ->
  Forall (fun d => d < 36) (random36 env) ->
  matches_certificate_pattern (Api.generateCertificateId env) = true.
Proof.
  intros Hyear Hlen Hdigits.
  destruct (Z_toString_four_digits _ Hyear) as (a & b & c & d & Hz & Ha & Hb & Hc & Hd).
  unfold Api.generateCertificateId, matches_certificate_pattern.
  rewrite Hz, substring_random36 by done.
  change (js "CERT-") with [67; 69; 82; 84; 45]. change (js "-") with [45].
  cbn [app JSON.strip_prefix N.eqb Pos.eqb take drop length Nat.eqb forallb andb].
  rewrite !is_digit_digit_char by done. cbn [andb].
  apply andb_true_intro. split.
  - apply Nat.eqb_eq. unfold toUpperCase. rewrite !length_fmap, length_take. lia.
  - unfold toUpperCase. rewrite <- list_fmap_compose.
    apply forallb_forall. intros x (y & -> & Hy%elem_of_take)%list_elem_of_In%list_elem_of_fmap.
    destruct Hy as (i & Hi & _). apply list_elem_of_lookup_2 in Hi.
    rewrite Forall_forall in Hdigits. cbn. by apply is_upper_alnum_digit_char, Hdigits.
Qed.

End PatternFacts.

(** ** C5: reading the store *)

(** C5, the claim as stated fails.  The text [{] is not JSON; with it under
    the storage key, [getCertificatesFromStorage] throws the [SyntaxError] of
    [JSON.parse] instead of returning an empty sequence, and so does every
    call that reaches the fallback of the class. *)
Lemma load_throws_on_unparsable_text :
  JSON.parse (js "{") = None
  /\ fst (LocalApi.getCertificatesFromStorage {[ STORAGE_KEY := js "{" ]}) = Throw SyntaxError
  /\ fst (LocalApi.getCertificatesFromStorage {[ STORAGE_KEY := js "{" ]}) <> Return []
  /\ fst (Api.getAll iso_getTime None env0 {[ STORAGE_KEY := js "{" ]}) = Throw SyntaxError.
Proof. by vm_compute. Qed.

(** C5, amended.  Reading the store returns an empty sequence when there is
    no entry under the key or the entry is the empty string, returns the
    sequence the text denotes when it is JSON for a sequence of records (in
    particular the sequence that was written), and throws [SyntaxError] when
    the text is not empty and is not JSON: the parse failure is not
    swallowed.  The class reads the store in the same way at the start of
    [fallbackToLocalStorage], so each of its fallback calls then throws. *)
Theorem load_cases (ls : localStorage) :
  (ls !! STORAGE_KEY = None -> stored_certificates ls = Return [])
  /\ (ls !! STORAGE_KEY = Some [] -> stored_certificates ls = Return [])
  /\ (forall l, ls !! STORAGE_KEY = Some (store_text l) -> stored_certificates ls = Return l)
  /\ (forall text v l,
        ls !! STORAGE_KEY = Some text -> text <> [] ->
        JSON.parse text = Some v -> Certificates_of_json v = Some l ->
        stored_certificates ls = Return l)
  /\ (forall text,
        ls !! STORAGE_KEY = Some text -> text <> [] -> JSON.parse text = None ->
        stored_certificates ls = Throw SyntaxError
        /\ forall Date_getTime env endpoint options,
             Api.fallbackToLocalStorage Date_getTime env endpoint options ls
             = (Throw SyntaxError, ls)).
Proof.
  rewrite stored_certificates_lookup. split; [|split; [|split; [|split]]].
  - by intros ->.
  - by intros ->.
  - intros l ->. rewrite falsy_store_text. apply parse_as_store_text.
  - intros text v l -> Htext Hparse Hview. destruct text; [done|].
    cbn [falsy]. unfold parse_as. by rewrite Hparse, Hview.
  - intros text Hstored Htext Hparse.
    assert (Hload : stored_certificates ls = Throw SyntaxError).
    { rewrite stored_certificates_lookup, Hstored. destruct text; [done|].
      cbn [falsy]. unfold parse_as. by rewrite Hparse. }
    split; [by rewrite <- stored_certificates_lookup|].
    intros Date_getTime env endpoint options.
    unfold Api.fallbackToLocalStorage, bind, getItem, lift.
    by rewrite fallback_certificates, Hload.
Qed.

Lemma load_cases_witness :
  stored_certificates ∅ = Return []
  /\ stored_certificates {[ STORAGE_KEY := [] ]} = Return []
  /\ stored_certificates {[ STORAGE_KEY := store_text (samples env0) ]} = Return (samples env0)
  /\ stored_certificates {[ STORAGE_KEY := js " [ ] " ]} = Return []
  /\ stored_certificates {[ STORAGE_KEY := js "{" ]} = Throw SyntaxError.
Proof.
  split; [|split; [|split; [|split]]].
  - apply (proj1 (load_cases ∅)). reflexivity.
  - apply (proj1 (proj2 (load_cases {[ STORAGE_KEY := [] ]}))). reflexivity.
  - apply (proj1 (proj2 (proj2 (load_cases {[ STORAGE_KEY := store_text (samples env0) ]})))).
    by vm_compute.
  - apply (proj1 (proj2 (proj2 (proj2 (load_cases {[ STORAGE_KEY := js " [ ] " ]}))))
             (js " [ ] ") (JSON.JArray []) []); by vm_compute.
  - apply (proj2 (proj2 (proj2 (proj2 (load_cases {[ STORAGE_KEY := js "{" ]}))))
             (js "{")); by vm_compute.
Defined.

(** ** C6: the order of [getAll] *)

Section SortFacts.

Context {A : Type} (comparefn : A -> A -> option Z).

Lemma sort_insert_Permutation x l : Permutation (x :: l) (sort_insert comparefn x l).
Proof.
  induction l as [|y l IH]; cbn [sort_insert]; [done|].
  destruct (is_positive (comparefn x y)); [|done].
  rewrite perm_swap. by constructor.
Qed.

Lemma Array_sort_cons x l :
  Array_sort comparefn (x :: l) = sort_insert comparefn x (Array_sort comparefn l).
Proof. reflexivity. Qed.

Lemma Array_sort_Permutation l : Permutation l (Array_sort comparefn l).
Proof.
  induction l as [|x l IH]; [done|].
  rewrite Array_sort_cons, <- sort_insert_Permutation. by constructor.
Qed.

End SortFacts.

Section SortByDate.

Variable Date_getTime : jsstring -> option Z.

Lemma is_positive_compare_issuedAt a b ta tb :
  Date_getTime (Certificate.issuedAt a) = Some ta ->
  Date_getTime (Certificate.issuedAt b) = Some tb ->
  is_positive (compare_issuedAt Date_getTime a b) = (ta <? tb)%Z.
Proof.
  intros Ha Hb. unfold compare_issuedAt. rewrite Ha, Hb. cbn [is_positive].
  destruct (Z.ltb_spec 0 (tb - ta)), (Z.ltb_spec ta tb); lia || done.
Qed.

Lemma sort_insert_sorted x l :
  dated Date_getTime x -> Forall (dated Date_getTime) l ->
  StronglySorted (newer_or_same Date_getTime) l ->
  StronglySorted (newer_or_same Date_getTime) (sort_insert (compare_issuedAt Date_getTime) x l).
Proof.
  intros [tx Hx] Hl Hsorted.
  induction l as [|y l IH]; cbn [sort_insert].
  - repeat constructor.
  - apply Forall_cons in Hl as [[ty Hy] Hl].
    apply StronglySorted_inv in Hsorted as [Hsorted Hy_first].
    rewrite (is_positive_compare_issuedAt x y tx ty) by done.
    destruct (Z.ltb_spec tx ty) as [Hlt|Hge].
    + constructor; [by apply IH|].
      rewrite <- sort_insert_Permutation. constructor; [|done].
      unfold newer_or_same. rewrite Hx, Hy. lia.
    + constructor; [by constructor|].
      constructor.
      * unfold newer_or_same. by rewrite Hx, Hy.
      * rewrite Forall_forall in Hy_first, Hl |- *. intros z Hz.
        specialize (Hy_first z Hz). destruct (Hl z Hz) as [tz Htz].
        unfold newer_or_same in *. rewrite Hx. rewrite Hy in Hy_first.
        rewrite Htz in *. lia.
Qed.

Lemma Array_sort_sorted l :
  Forall (dated Date_getTime) l ->
  StronglySorted (newer_or_same Date_getTime) (Array_sort (compare_issuedAt Date_getTime) l).
Proof.
  induction l as [|x l IH]; intros Hl; [constructor|].
  apply Forall_cons in Hl as [Hx Hl]. rewrite Array_sort_cons.
  apply sort_insert_sorted; [done| |by apply IH].
  by rewrite <- Array_sort_Permutation.
Qed.

(** Insertion passes over strictly newer records only, so it leaves the
    records of each instant in their order. *)
Lemma sort_insert_issued_at t x l :
  dated Date_getTime x -> Forall (dated Date_getTime) l ->
  issued_at Date_getTime t (sort_insert (compare_issuedAt Date_getTime) x l)
  = issued_at Date_getTime t (x :: l).
Proof.
  intros [tx Hx] Hl. unfold issued_at.
  induction l as [|y l IH]; cbn [sort_insert]; [done|].
  apply Forall_cons in Hl as [[ty Hy] Hl].
  rewrite (is_positive_compare_issuedAt x y tx ty) by done.
  destruct (Z.ltb_spec tx ty) as [Hlt|Hge]; [|done].
  rewrite (filter_cons _ y), IH by done. rewrite !(filter_cons _ x), (filter_cons _ y).
  repeat case_decide; try done. simplify_eq. lia.
Qed.

Lemma Array_sort_issued_at t l :
  Forall (dated Date_getTime) l ->
  issued_at Date_getTime t (Array_sort (compare_issuedAt Date_getTime) l)
  = issued_at Date_getTime t l.
Proof.
  induction l as [|x l IH]; intros Hl; [done|].
  apply Forall_cons in Hl as [Hx Hl]. rewrite Array_sort_cons.
  rewrite sort_insert_issued_at; [|done|by rewrite <- Array_sort_Permutation].
  unfold issued_at in *. by rewrite !(filter_cons _ x), IH.
Qed.

End SortByDate.

(** C6, the claim as stated fails.  Two records issued in the same
    millisecond are stored; [getAll] returns both, and neither is strictly
    newer than the other, so the result is not strictly descending. *)
Lemma getAll_not_strictly_descending :
  exists a b,
    fst (LocalApi.getAll iso_getTime issued_twice) = Return [a; b]
    /\ fst (Api.getAll iso_getTime None env0 issued_twice) = Return (Api.ListResponse [a; b])
    /\ a <> b
    /\ iso_getTime (Certificate.issuedAt a) = iso_getTime (Certificate.issuedAt b)
    /\ ~ StronglySorted (newer iso_getTime) [a; b].
Proof.
  eexists _, _. split; [by vm_compute|]. split; [by vm_compute|].
  split; [by vm_compute|]. split; [by vm_compute|].
  intros Hsorted. apply StronglySorted_inv in Hsorted as [_ Hfirst].
  apply Forall_cons in Hfirst as [Hnewer _]. vm_compute in Hnewer. done.
Qed.

(** C6, amended.  On the fallback path [getAll] returns a permutation of
    the full stored sequence and leaves the store as it is; the class and the
    localStorage-only module return the same list.  When every stored
    [issuedAt] is a date the platform can read, the list is in descending
    order of [issuedAt], not strictly: no record is older than a later one,
    and records with equal timestamps keep their stored order. *)
Theorem getAll_sorted (Date_getTime : jsstring -> option Z) (env : Env)
    (ls : localStorage) (l : list Certificate.t) :
  stored_certificates ls = Return l ->
  exists sorted,
    Api.getAll Date_getTime None env ls = (Return (Api.ListResponse sorted), ls)
    /\ LocalApi.getAll Date_getTime ls = (Return sorted, ls)
    /\ Permutation l sorted
    /\ (Forall (dated Date_getTime) l ->
        StronglySorted (newer_or_same Date_getTime) sorted
        /\ forall t, issued_at Date_getTime t sorted = issued_at Date_getTime t l).
Proof.
  intros Hl. exists (Array_sort (compare_issuedAt Date_getTime) l).
  rewrite Api_getAll_local, LocalApi_getAll_eq, Hl.
  split; [done|]. split; [done|]. split; [apply Array_sort_Permutation|].
  intros Hdated. split; [by apply Array_sort_sorted|].
  intros t. by apply Array_sort_issued_at.
Qed.

Lemma getAll_sorted_witness :
  exists sorted,
    Api.getAll iso_getTime None env0 seeded = (Return (Api.ListResponse sorted), seeded)
    /\ LocalApi.getAll iso_getTime seeded = (Return sorted, seeded)
    /\ Permutation (samples env0) sorted
    /\ StronglySorted (newer_or_same iso_getTime) sorted
    /\ forall t, issued_at iso_getTime t sorted = issued_at iso_getTime t (samples env0).
Proof.
  destruct (getAll_sorted iso_getTime env0 seeded (samples env0)) as
    (sorted & Hclass & Hmodule & Hperm & Hsorted); [by vm_compute|].
  exists sorted. split; [done|]. split; [done|]. split; [done|].
  apply Hsorted. apply (bool_decide_unpack _). by vm_compute.
Defined.

(** ** C7: seeding the store *)

Section SeedFacts.

Lemma Api_initializeSampleData_eq env ls :
  Api.initializeSampleData env ls =
  match ls !! STORAGE_KEY with
  | Some (_ :: _) => (Return tt, ls)
  | _ => (Return tt, <[STORAGE_KEY := store_text (samples env)]> ls)
  end.
Proof.
  unfold Api.initializeSampleData, bind, getItem, setItem, ret.
  by destruct (ls !! STORAGE_KEY) as [[|c text]|].
Qed.

Lemma LocalApi_initializeSampleData_eq env ls :
  LocalApi.initializeSampleData env ls =
  match stored_certificates ls with
  | Return [] => (Return tt, <[STORAGE_KEY := store_text (samples env)]> ls)
  | Return (_ :: _) => (Return tt, ls)
  | Throw e => (Throw e, ls)
  | Untyped => (Untyped, ls)
  end.
Proof.
  unfold LocalApi.initializeSampleData, bind. rewrite getCertificatesFromStorage_eq.
  by destruct (stored_certificates ls) as [[|c l]|e|].
Qed.

Lemma stored_nonempty_text ls l :
  stored_certificates ls = Return l -> l <> [] ->
  exists c text, ls !! STORAGE_KEY = Some (c :: text).
Proof.
  rewrite stored_certificates_lookup. intros Hl Hne.
  destruct (ls !! STORAGE_KEY) as [[|c text]|]; cbn [falsy] in Hl;
    [congruence|by eexists _, _|congruence].
Qed.

Lemma Api_initialize_all_nonempty envs ls l :
  stored_certificates ls = Return l -> l <> [] -> Api_initialize_all envs ls = ls.
Proof.
  intros Hl Hne. destruct (stored_nonempty_text ls l Hl Hne) as (c & text & Htext).
  induction envs as [|env envs IH]; [done|].
  unfold Api_initialize_all in *. cbn [foldl].
  by rewrite Api_initializeSampleData_eq, Htext.
Qed.

Lemma LocalApi_initialize_all_nonempty envs ls l :
  stored_certificates ls = Return l -> l <> [] -> LocalApi_initialize_all envs ls = ls.
Proof.
  intros Hl Hne. induction envs as [|env envs IH]; [done|].
  unfold LocalApi_initialize_all in *. cbn [foldl].
  rewrite LocalApi_initializeSampleData_eq, Hl. by destruct l.
Qed.

Lemma samples_nonempty env : samples env <> [].
Proof. done. Qed.

End SeedFacts.

(** C7.  Seeding is idempotent.  From a store without an entry under the key
    (or with the empty string there), however often the initializer of the
    class runs, the store holds the two sample records written by the first
    run and nothing else.  The same holds for the initializer of the
    localStorage-only module from any store whose sequence is empty.  On a
    store that holds a non-empty sequence both initializers change nothing. *)
Theorem seed_idempotent (env : Env) (envs : list Env) (ls : localStorage) :
  (ls !! STORAGE_KEY = None \/ ls !! STORAGE_KEY = Some [] ->
     Api_initialize_all (env :: envs) ls = <[STORAGE_KEY := store_text (samples env)]> ls
     /\ records (Api_initialize_all (env :: envs) ls) = samples env)
  /\ (stored_certificates ls = Return [] ->
        LocalApi_initialize_all (env :: envs) ls
        = <[STORAGE_KEY := store_text (samples env)]> ls
        /\ records (LocalApi_initialize_all (env :: envs) ls) = samples env)
  /\ (forall l, stored_certificates ls = Return l -> l <> [] ->
        Api_initialize_all (env :: envs) ls = ls
        /\ LocalApi_initialize_all (env :: envs) ls = ls)
  /\ Certificate.certificateId <$> samples env
     = [js "CERT-2024-SAMPLE1"; js "CERT-2024-SAMPLE2"].
Proof.
  split; [|split; [|split]].
  - intros Hempty.
    assert (Hfirst : Api_initialize_all (env :: envs) ls
                     = <[STORAGE_KEY := store_text (samples env)]> ls).
    { unfold Api_initialize_all. cbn [foldl]. rewrite Api_initializeSampleData_eq.
      replace (match ls !! STORAGE_KEY with
               | Some (_ :: _) => (Return tt, ls)
               | _ => (Return tt, <[STORAGE_KEY := store_text (samples env)]> ls)
               end) with (Return tt, <[STORAGE_KEY := store_text (samples env)]> ls)
        by (by destruct Hempty as [-> | ->]).
      cbn [snd]. apply (Api_initialize_all_nonempty envs _ (samples env));
        [apply stored_certificates_insert|apply samples_nonempty]. }
    split; [done|]. rewrite Hfirst. unfold records. by rewrite stored_certificates_insert.
  - intros Hempty.
    assert (Hfirst : LocalApi_initialize_all (env :: envs) ls
                     = <[STORAGE_KEY := store_text (samples env)]> ls).
    { unfold LocalApi_initialize_all. cbn [foldl].
      rewrite LocalApi_initializeSampleData_eq, Hempty. cbn [snd].
      apply (LocalApi_initialize_all_nonempty envs _ (samples env));
        [apply stored_certificates_insert|apply samples_nonempty]. }
    split; [done|]. rewrite Hfirst. unfold records. by rewrite stored_certificates_insert.
  - intros l Hl Hne. split.
    + by apply (Api_initialize_all_nonempty _ _ l).
    + by apply (LocalApi_initialize_all_nonempty _ _ l).
  - reflexivity.
Qed.

Lemma seed_idempotent_witness :
  (Api_initialize_all [env0; env1; env_half] ∅
   = <[STORAGE_KEY := store_text (samples env0)]> ∅
   /\ records (Api_initialize_all [env0; env1; env_half] ∅) = samples env0)
  /\ (LocalApi_initialize_all [env0; env1; env_half] {[ STORAGE_KEY := js "[]" ]}
      = <[STORAGE_KEY := store_text (samples env0)]> {[ STORAGE_KEY := js "[]" ]}
      /\ records (LocalApi_initialize_all [env0; env1; env_half] {[ STORAGE_KEY := js "[]" ]})
         = samples env0)
  /\ (Api_initialize_all [env0; env1] issued_twice = issued_twice
      /\ LocalApi_initialize_all [env0; env1] issued_twice = issued_twice).
Proof.
  split; [|split].
  - apply (proj1 (seed_idempotent env0 [env1; env_half] ∅)). by left.
  - apply (proj1 (proj2 (seed_idempotent env0 [env1; env_half] {[ STORAGE_KEY := js "[]" ]}))).
    by vm_compute.
  - apply (proj1 (proj2 (proj2 (seed_idempotent env0 [env1] issued_twice)))
             (records issued_twice)); by vm_compute.
Defined.

(** ** C8: [generateDataHash] *)

Section DataHashFacts.

Lemma to_radix_length radix fuel n acc :
  (length acc < length (to_radix radix (S fuel) n acc))%nat.
Proof.
  revert n acc. induction fuel as [|fuel IH]; intros n acc.
  - cbn [to_radix]. destruct (n / radix =? 0); cbn [length]; lia.
  - change (to_radix radix (S (S fuel)) n acc)
      with (if n / radix =? 0 then digit_char (n mod radix) :: acc
            else to_radix radix (S fuel) (n / radix) (digit_char (n mod radix) :: acc)).
    destruct (n / radix =? 0); [cbn [length]; lia|].
    specialize (IH (n / radix) (digit_char (n mod radix) :: acc)). cbn [length] in IH. lia.
Qed.

Lemma Z_toString_nonempty z : Z_toString z <> [].
Proof.
  destruct z as [|p|p]; cbn [Z_toString]; [| |done]; unfold N_toString;
    intros H; apply (f_equal length) in H;
    match type of H with
    | length (to_radix ?r (S ?f) ?n ?a) = _ => pose proof (to_radix_length r f n a) as Hlen
    end; rewrite H in Hlen; cbn [length] in Hlen; lia.
Qed.

(** [JSON.stringify] never returns the empty string. *)
Lemma stringify_nonempty v : JSON.stringify v <> [].
Proof.
  destruct v as [|[]|m e| | |]; try done.
  cbn [JSON.stringify]. unfold JSON.stringify_number. intros H.
  apply app_eq_nil in H as [H _]. by apply (Z_toString_nonempty m).
Qed.

Lemma N_toString_digit radix n : n < radix -> N_toString radix n = [digit_char n].
Proof.
  intros Hn. unfold N_toString. cbn [to_radix].
  rewrite N.div_small, N.mod_small by done. reflexivity.
Qed.

Lemma hex_digits_lookup d : d < 16 -> hex_digits !! N.to_nat d = Some (digit_char d).
Proof.
  intros Hd. assert (Hk : (N.to_nat d < 16)%nat) by lia.
  replace d with (N.of_nat (N.to_nat d)) at 2 by lia.
  revert Hk. generalize (N.to_nat d). clear. intros k Hk.
  do 16 (destruct k as [|k]; [reflexivity|]). lia.
Qed.

(** What an iteration appends when the serialized payload is not empty. *)
Lemma hashChar_digit dataString i :
  dataString <> [] ->
  exists charCode,
    charCodeAt dataString (i mod N.of_nat (length dataString)) = Some charCode
    /\ Blockchain.hashChar dataString i = [digit_char ((charCode + i) mod 16)].
Proof.
  intros Hne. unfold Blockchain.hashChar.
  assert (Hlen : 0 < N.of_nat (length dataString)) by (destruct dataString; [done|cbn; lia]).
  assert (Hlt : (N.to_nat (i mod N.of_nat (length dataString)) < length dataString)%nat).
  { pose proof (N.mod_lt i (N.of_nat (length dataString)) ltac:(lia)). lia. }
  destruct (lookup_lt_is_Some_2 _ _ Hlt) as [c Hc].
  exists c. unfold charCodeAt in *.
  destruct (N.of_nat (length dataString)) eqn:Hl; [lia|].
  rewrite Hc. split; [done|]. apply N_toString_digit, N.mod_lt. lia.
Qed.

Lemma generateDataHash_loop_app dataString n i hash :
  Blockchain.generateDataHash_loop dataString n i hash
  = hash ++ Blockchain.generateDataHash_loop dataString n i [].
Proof.
  revert i hash. induction n as [|n IH]; intros i hash; cbn [Blockchain.generateDataHash_loop].
  - by rewrite app_nil_r.
  - rewrite (IH _ (hash ++ _)), (IH _ ([] ++ _)). cbn [app]. by rewrite app_assoc.
Qed.

Lemma generateDataHash_loop_lookup dataString n i k :
  dataString <> [] -> (k < n)%nat ->
  exists charCode,
    charCodeAt dataString ((i + N.of_nat k) mod N.of_nat (length dataString)) = Some charCode
    /\ Blockchain.generateDataHash_loop dataString n i [] !! k
       = Some (digit_char ((charCode + (i + N.of_nat k)) mod 16)).
Proof.
  intros Hne. revert i k. induction n as [|n IH]; intros i k Hk; [lia|].
  cbn [Blockchain.generateDataHash_loop app]. rewrite generateDataHash_loop_app.
  destruct (hashChar_digit dataString i Hne) as (c & Hc & Hchar). rewrite Hchar.
  destruct k as [|k].
  - exists c. rewrite N.add_0_r. by split.
  - destruct (IH (i + 1) k ltac:(lia)) as (c' & Hc' & Hlookup).
    exists c'. replace (i + N.of_nat (S k)) with (i + 1 + N.of_nat k) by lia.
    by split.
Qed.

Lemma generateDataHash_loop_length dataString n i :
  dataString <> [] ->
  length (Blockchain.generateDataHash_loop dataString n i []) = n.
Proof.
  intros Hne. revert i. induction n as [|n IH]; intros i; [done|].
  cbn [Blockchain.generateDataHash_loop app]. rewrite generateDataHash_loop_app.
  destruct (hashChar_digit dataString i Hne) as (c & _ & ->). cbn [app length].
  by rewrite IH.
Qed.

End DataHashFacts.

(** C8.  [generateDataHash] depends on the payload through its serialization
    only: payloads with the same [JSON.stringify] text get the same hash.
    The hash has 66 characters and starts with [0x]; for each [i] below 64
    the character after those, at position [i], is the hexadecimal digit of
    value [(charCode + i) mod 16], where [charCode] is the code unit of the
    serialized text at index [i mod length]. *)
Theorem generateDataHash_spec (certificateData : JSON.value) :
  let dataString := JSON.stringify certificateData in
  let hash := Blockchain.generateDataHash certificateData in
  (forall other,
     JSON.stringify other = dataString -> Blockchain.generateDataHash other = hash)
  /\ length hash = 66%nat
  /\ take 2 hash = js "0x"
  /\ forall i : nat,
       (i < 64)%nat ->
       exists charCode,
         charCodeAt dataString (N.of_nat i mod N.of_nat (length dataString)) = Some charCode
         /\ hash !! (2 + i)%nat = hex_digits !! N.to_nat ((charCode + N.of_nat i) mod 16).
Proof.
  intros dataString hash.
  pose proof (stringify_nonempty certificateData) as Hne. fold dataString in Hne.
  assert (Hhash : hash = js "0x" ++ Blockchain.generateDataHash_loop dataString 64 0 []).
  { unfold hash, Blockchain.generateDataHash. fold dataString.
    apply generateDataHash_loop_app. }
  split; [|split; [|split]].
  - intros other Hother. unfold hash, Blockchain.generateDataHash. by rewrite Hother.
  - rewrite Hhash, length_app, generateDataHash_loop_length by done. reflexivity.
  - by rewrite Hhash.
  - intros i Hi.
    destruct (generateDataHash_loop_lookup dataString 64 0 i Hne Hi) as (c & Hc & Hlookup).
    rewrite N.add_0_l in Hc, Hlookup. exists c. split; [done|].
    replace (hash !! (2 + i)%nat)
      with (Blockchain.generateDataHash_loop dataString 64 0 [] !! i)
      by (by rewrite Hhash).
    rewrite Hlookup. symmetry. apply hex_digits_lookup, N.mod_lt. lia.
Qed.

Lemma generateDataHash_spec_witness :
  Blockchain.generateDataHash (JSON.JString (js "ab"))
  = js "0x22456689aacdee0122456689aacdee0122456689aacdee0122456689aacdee01"
  /\ exists charCode,
       charCodeAt (JSON.stringify (JSON.JString (js "ab"))) (5 mod 4) = Some charCode
       /\ Blockchain.generateDataHash (JSON.JString (js "ab")) !! 7%nat
          = hex_digits !! N.to_nat ((charCode + 5) mod 16).
Proof.
  split.
  - symmetry.
    apply (proj1 (generateDataHash_spec (JSON.JString (js "ab"))) (JSON.JString (js "ab"))).
    reflexivity.
  - apply (proj2 (proj2 (proj2 (generateDataHash_spec (JSON.JString (js "ab"))))) 5%nat).
    lia.
Defined.

(** ** C9: stored records are never changed *)

Section AppendOnly.

Variable Date_getTime : jsstring -> option Z.

Lemma appends_valid_refl ls : appends_valid ls ls.
Proof. exists []. by rewrite app_nil_r. Qed.

Lemma appends_valid_trans ls1 ls2 ls3 :
  appends_valid ls1 ls2 -> appends_valid ls2 ls3 -> appends_valid ls1 ls3.
Proof.
  intros (a1 & H1 & Hv1) (a2 & H2 & Hv2). exists (a1 ++ a2).
  split; [by rewrite H2, H1, app_assoc|by apply Forall_app].
Qed.

Lemma appends_valid_issue env data ls l :
  stored_certificates ls = Return l ->
  appends_valid ls (<[STORAGE_KEY := store_text (l ++ [newCertificate env data])]> ls).
Proof.
  intros Hl. exists [newCertificate env data]. unfold records.
  rewrite stored_certificates_insert, Hl. split; [done|]. by repeat constructor.
Qed.

Lemma appends_valid_seed env ls :
  stored_certificates ls = Return [] ->
  appends_valid ls (<[STORAGE_KEY := store_text (samples env)]> ls).
Proof.
  intros Hl. exists (samples env). unfold records.
  rewrite stored_certificates_insert, Hl. split; [done|]. by repeat constructor.
Qed.

Lemma Api_run_appends call ls : appends_valid ls (Api_run Date_getTime call ls).
Proof.
  destruct call as [[r|] env data|[r|] env certificateId|[r|] env|[r|] env|env];
    cbn [Api_run]; try apply appends_valid_refl.
  - rewrite Api_issue_local.
    destruct (stored_certificates ls) as [l|e|] eqn:Hl; cbn [snd];
      [by apply appends_valid_issue|apply appends_valid_refl..].
  - rewrite Api_verify_local.
    destruct (stored_certificates ls) as [l|e|]; [destruct (find _ l)|..];
      apply appends_valid_refl.
  - rewrite Api_getAll_local.
    destruct (stored_certificates ls) as [l|e|]; apply appends_valid_refl.
  - rewrite Api_healthCheck_local.
    destruct (stored_certificates ls) as [l|e|]; apply appends_valid_refl.
  - rewrite Api_initializeSampleData_eq.
    destruct (ls !! STORAGE_KEY) as [[|c text]|] eqn:Htext; cbn [snd];
      [|apply appends_valid_refl|];
      apply appends_valid_seed; by rewrite stored_certificates_lookup, Htext.
Qed.

Lemma LocalApi_run_appends call ls : appends_valid ls (LocalApi_run Date_getTime call ls).
Proof.
  destruct call as [env data|certificateId| |env]; cbn [LocalApi_run].
  - rewrite LocalApi_issue_eq.
    destruct (stored_certificates ls) as [l|e|] eqn:Hl; cbn [snd];
      [by apply appends_valid_issue|apply appends_valid_refl..].
  - rewrite LocalApi_verify_eq.
    destruct (stored_certificates ls) as [l|e|]; [destruct (find _ l)|..];
      apply appends_valid_refl.
  - rewrite LocalApi_getAll_eq.
    destruct (stored_certificates ls) as [l|e|]; apply appends_valid_refl.
  - rewrite LocalApi_initializeSampleData_eq.
    destruct (stored_certificates ls) as [[|c l]|e|] eqn:Hl; cbn [snd];
      [by apply appends_valid_seed|apply appends_valid_refl..].
Qed.

Lemma Api_run_all_appends calls ls :
  appends_valid ls (Api_run_all Date_getTime calls ls).
Proof.
  revert ls. induction calls as [|call calls IH]; intros ls; [apply appends_valid_refl|].
  unfold Api_run_all in *. cbn [foldl].
  eapply appends_valid_trans; [apply (Api_run_appends call)|apply IH].
Qed.

Lemma LocalApi_run_all_appends calls ls :
  appends_valid ls (LocalApi_run_all Date_getTime calls ls).
Proof.
  revert ls. induction calls as [|call calls IH]; intros ls; [apply appends_valid_refl|].
  unfold LocalApi_run_all in *. cbn [foldl].
  eapply appends_valid_trans; [apply (LocalApi_run_appends call)|apply IH].
Qed.

End AppendOnly.

(** C9.  Whatever calls are made, on the remote path or on the fallback path
    ([issue], [verify], [getAll], [healthCheck], the seed initializer), in
    whatever order and from whatever store: the records of the store
    afterwards are the records before, in their order and unchanged in every
    field, followed by the records that were appended, and each appended
    record has [isValid] true.  No call updates or deletes a record, so the
    [isValid] of a stored record never changes.  This holds for the class and
    for the localStorage-only module. *)
Theorem records_only_appended (Date_getTime : jsstring -> option Z)
    (calls : list Api_call) (local_calls : list LocalApi_call) (ls : localStorage) :
  (exists added,
     records (Api_run_all Date_getTime calls ls) = records ls ++ added
     /\ Forall (fun c => Certificate.isValid c = true) added)
  /\ (exists added,
        records (LocalApi_run_all Date_getTime local_calls ls) = records ls ++ added
        /\ Forall (fun c => Certificate.isValid c = true) added).
Proof.
  split; [apply Api_run_all_appends|apply LocalApi_run_all_appends].
Qed.

(** From an empty [localStorage], every record ever stored has [isValid]
    true. *)
Lemma isValid_forever (Date_getTime : jsstring -> option Z) (calls : list Api_call) :
  Forall (fun c => Certificate.isValid c = true) (records (Api_run_all Date_getTime calls ∅)).
Proof.
  destruct (Api_run_all_appends Date_getTime calls ∅) as (added & -> & Hvalid). done.
Qed.

(** ** C10: the class and the localStorage-only module *)

Section Implementations.

Variable Date_getTime : jsstring -> option Z.

(** On the fallback path [issue] of the class does what [issue] of the
    module does, to the store and to the caller. *)
Lemma issue_agrees env data ls :
  Api.issue Date_getTime None env data ls
  = as_response Api.IssueResponse (LocalApi.issue env data ls).
Proof.
  rewrite Api_issue_local, LocalApi_issue_eq.
  by destruct (stored_certificates ls).
Qed.

Lemma getAll_agrees env ls :
  Api.getAll Date_getTime None env ls
  = as_response Api.ListResponse (LocalApi.getAll Date_getTime ls).
Proof.
  rewrite Api_getAll_local, LocalApi_getAll_eq.
  by destruct (stored_certificates ls).
Qed.

(** [verify] of the class is [verify] of the module on what follows the last
    slash of the identifier. *)
Lemma verify_agrees_on_last_segment env certificateId ls :
  Api.verify Date_getTime None env certificateId ls
  = as_response Api.CertificateResponse (LocalApi.verify (split_pop 47 certificateId) ls).
Proof.
  rewrite Api_verify_local, LocalApi_verify_eq.
  destruct (stored_certificates ls) as [l|e|]; [|done..].
  by destruct (find _ l).
Qed.

Lemma verify_agrees env certificateId ls :
  47 ∉ certificateId ->
  Api.verify Date_getTime None env certificateId ls
  = as_response Api.CertificateResponse (LocalApi.verify certificateId ls).
Proof.
  intros Hslash. by rewrite verify_agrees_on_last_segment, split_pop_no_slash.
Qed.

(** The initializers agree on a store that holds records and on a store
    without an entry (or with the empty string). *)
Lemma initializeSampleData_agrees env ls l :
  stored_certificates ls = Return l ->
  l <> [] \/ ls !! STORAGE_KEY = None \/ ls !! STORAGE_KEY = Some [] ->
  Api.initializeSampleData env ls = LocalApi.initializeSampleData env ls.
Proof.
  intros Hl Hcase.
  rewrite Api_initializeSampleData_eq, LocalApi_initializeSampleData_eq, Hl.
  destruct Hcase as [Hne|Hempty].
  - destruct (stored_nonempty_text ls l Hl Hne) as (c & text & ->). by destruct l.
  - rewrite stored_certificates_lookup in Hl.
    destruct Hempty as [Hnone|Hblank].
    + rewrite Hnone in Hl |- *. by injection Hl as <-.
    + rewrite Hblank in Hl |- *. by injection Hl as <-.
Qed.

End Implementations.

(** They differ on a store that holds the text of the empty list: the class
    finds an entry and leaves it, the module finds no record and seeds. *)
Lemma initializeSampleData_differs_on_empty_list :
  Api.initializeSampleData env0 {[ STORAGE_KEY := js "[]" ]}
  = (Return tt, {[ STORAGE_KEY := js "[]" ]})
  /\ LocalApi.initializeSampleData env0 {[ STORAGE_KEY := js "[]" ]}
     = (Return tt, {[ STORAGE_KEY := store_text (samples env0) ]}).
Proof. by vm_compute. Qed.

(** C10, where the code departs from the claim.  On the seeded store and the
    identifier [x/CERT-2024-SAMPLE1] the two implementations of [verify]
    disagree: the module throws Certificate not found, the class returns the
    first sample record.  (For [issue], [getAll] and for [verify] on
    identifiers without a slash they agree, see above.) *)
Theorem verify_implementations_disagree :
  as_response Api.CertificateResponse (LocalApi.verify (js "x/CERT-2024-SAMPLE1") seeded)
  = (Throw (Error (js "Certificate not found")), seeded)
  /\ (exists c rest,
        samples env0 = c :: rest
        /\ Api.verify iso_getTime None env0 (js "x/CERT-2024-SAMPLE1") seeded
           = (Return (Api.CertificateResponse c), seeded))
  /\ Api.verify iso_getTime None env0 (js "x/CERT-2024-SAMPLE1") seeded
     <> as_response Api.CertificateResponse
          (LocalApi.verify (js "x/CERT-2024-SAMPLE1") seeded).
Proof.
  split; [by vm_compute|]. split.
  - eexists _, _. split; [reflexivity|]. by vm_compute.
  - by vm_compute.
Qed.

(** * Further properties of the code *)

(** ** Storage: round trip, composition of [issue] and [verify], dispatch *)

(** X1.  Writing a sequence of records and reading the store back returns the
    sequence, whatever the strings in the records (quotes, control
    characters, lone surrogates). *)
Theorem save_then_load (certificates : list Certificate.t) (ls : localStorage) :
  bind (LocalApi.saveCertificatesToStorage certificates)
       (fun _ => LocalApi.getCertificatesFromStorage) ls
  = (Return certificates, <[STORAGE_KEY := store_text certificates]> ls).
Proof.
  unfold bind, LocalApi.saveCertificatesToStorage, setItem.
  rewrite getCertificatesFromStorage_eq. fold (store_text certificates).
  by rewrite stored_certificates_insert.
Qed.

(** X2.  When no stored record has the identifier [issue] generates, the [verify]
    that follows returns exactly the record built from the request: the
    fields of the request, the generated identifier, [isValid] true. *)
Theorem issue_then_verify_fresh (Date_getTime : jsstring -> option Z) (env env' : Env)
    (data : IssueCertificateRequest.t) (ls : localStorage) (l : list Certificate.t) :
  stored_certificates ls = Return l ->
  (forall c, c ∈ l -> Certificate.certificateId c <> Api.generateCertificateId env) ->
  exists issued ls',
    Api.issue Date_getTime None env data ls
    = (Return (Api.IssueResponse (Api.generateCertificateId env)), ls')
    /\ LocalApi.issue env data ls = (Return (Api.generateCertificateId env), ls')
    /\ Api.verify Date_getTime None env' (Api.generateCertificateId env) ls'
       = (Return (Api.CertificateResponse issued), ls')
    /\ LocalApi.verify (Api.generateCertificateId env) ls' = (Return issued, ls')
    /\ Certificate.recipientName issued = IssueCertificateRequest.recipientName data
    /\ Certificate.recipientEmail issued = IssueCertificateRequest.recipientEmail data
    /\ Certificate.courseName issued = IssueCertificateRequest.courseName data
    /\ Certificate.issuerName issued = IssueCertificateRequest.issuerName data
    /\ Certificate.completionDate issued = IssueCertificateRequest.completionDate data
    /\ Certificate.description issued = IssueCertificateRequest.description data
    /\ Certificate.issuedAt issued = isoString env
    /\ Certificate.isValid issued = true.
Proof.
  intros Hl Hfresh.
  exists (newCertificate env data),
         (<[STORAGE_KEY := store_text (l ++ [newCertificate env data])]> ls).
  rewrite Api_issue_local, LocalApi_issue_eq, Api_verify_local, LocalApi_verify_eq, Hl.
  rewrite stored_certificates_insert.
  rewrite split_pop_no_slash by apply generateCertificateId_no_slash.
  assert (Hfind : find (certificate_with (Api.generateCertificateId env))
                    (l ++ [newCertificate env data]) = Some (newCertificate env data)).
  { apply find_certificate_with_first. exists l, []. by repeat split. }
  rewrite Hfind. by repeat split.
Qed.

Lemma issue_then_verify_fresh_witness :
  exists issued ls',
    Api.issue iso_getTime None env0 request0 seeded
    = (Return (Api.IssueResponse (Api.generateCertificateId env0)), ls')
    /\ LocalApi.issue env0 request0 seeded = (Return (Api.generateCertificateId env0), ls')
    /\ Api.verify iso_getTime None env1 (Api.generateCertificateId env0) ls'
       = (Return (Api.CertificateResponse issued), ls')
    /\ LocalApi.verify (Api.generateCertificateId env0) ls' = (Return issued, ls')
    /\ Certificate.recipientName issued = IssueCertificateRequest.recipientName request0
    /\ Certificate.recipientEmail issued = IssueCertificateRequest.recipientEmail request0
    /\ Certificate.courseName issued = IssueCertificateRequest.courseName request0
    /\ Certificate.issuerName issued = IssueCertificateRequest.issuerName request0
    /\ Certificate.completionDate issued = IssueCertificateRequest.completionDate request0
    /\ Certificate.description issued = IssueCertificateRequest.description request0
    /\ Certificate.issuedAt issued = isoString env0
    /\ Certificate.isValid issued = true.
Proof.
  apply (issue_then_verify_fresh iso_getTime env0 env1 request0 seeded (samples env0)).
  - by vm_compute.
  - intros c Hc. unfold samples, sampleCertificates in Hc.
    repeat (apply elem_of_cons in Hc as [->|Hc]; [by vm_compute|]).
    by apply elem_of_nil in Hc.
Defined.

(** X3.  [issue] does not check that the identifier is new.  When a stored record
    already has the identifier it generates, it still returns that identifier
    and appends a second record with it; [verify] then answers as before the
    call, with the older record, so the new record cannot be retrieved. *)
Theorem issue_collision (Date_getTime : jsstring -> option Z) (env env' : Env)
    (data : IssueCertificateRequest.t) (ls : localStorage) (l : list Certificate.t)
    (old : Certificate.t) :
  stored_certificates ls = Return l ->
  find (certificate_with (Api.generateCertificateId env)) l = Some old ->
  exists ls',
    LocalApi.issue env data ls = (Return (Api.generateCertificateId env), ls')
    /\ Api.issue Date_getTime None env data ls
       = (Return (Api.IssueResponse (Api.generateCertificateId env)), ls')
    /\ stored_certificates ls' = Return (l ++ [newCertificate env data])
    /\ Certificate.certificateId (newCertificate env data) = Certificate.certificateId old
    /\ LocalApi.verify (Api.generateCertificateId env) ls' = (Return old, ls')
    /\ Api.verify Date_getTime None env' (Api.generateCertificateId env) ls'
       = (Return (Api.CertificateResponse old), ls').
Proof.
  intros Hl Hold.
  exists (<[STORAGE_KEY := store_text (l ++ [newCertificate env data])]> ls).
  rewrite Api_issue_local, LocalApi_issue_eq, Api_verify_local, LocalApi_verify_eq, Hl.
  rewrite stored_certificates_insert.
  rewrite split_pop_no_slash by apply generateCertificateId_no_slash.
  assert (Hfind : find (certificate_with (Api.generateCertificateId env))
                    (l ++ [newCertificate env data]) = Some old).
  { apply find_certificate_with_first in Hold as (before & after & -> & Hid & Hbefore).
    apply find_certificate_with_first. exists before, (after ++ [newCertificate env data]).
    split; [by rewrite <- app_assoc|done]. }
  rewrite Hfind. repeat split; try done.
  apply find_certificate_with_Some in Hold as [Hid _]. by rewrite Hid.
Qed.

Lemma issue_collision_witness :
  exists ls',
    LocalApi.issue env0 request_blank_name (snd (LocalApi.issue env0 request0 ∅))
    = (Return (Api.generateCertificateId env0), ls')
    /\ Api.issue iso_getTime None env0 request_blank_name (snd (LocalApi.issue env0 request0 ∅))
       = (Return (Api.IssueResponse (Api.generateCertificateId env0)), ls')
    /\ stored_certificates ls'
       = Return ([newCertificate env0 request0] ++ [newCertificate env0 request_blank_name])
    /\ Certificate.certificateId (newCertificate env0 request_blank_name)
       = Certificate.certificateId (newCertificate env0 request0)
    /\ LocalApi.verify (Api.generateCertificateId env0) ls'
       = (Return (newCertificate env0 request0), ls')
    /\ Api.verify iso_getTime None env1 (Api.generateCertificateId env0) ls'
       = (Return (Api.CertificateResponse (newCertificate env0 request0)), ls').
Proof.
  apply (issue_collision iso_getTime env0 env1 request_blank_name
           (snd (LocalApi.issue env0 request0 ∅)) [newCertificate env0 request0]
           (newCertificate env0 request0)); by vm_compute.
Defined.



(** X5.  How [fallbackToLocalStorage] dispatches on a readable store.  The
    endpoint [/certificates] lists the records for every method other than
    [POST], whatever the body, and writes nothing.  A [POST] there without a
    body throws the [SyntaxError] of [JSON.parse] and writes nothing.  Every
    endpoint that is neither [/certificates] nor under
    [/certificates/verify/] throws Unknown endpoint. *)
Theorem fallback_dispatch (Date_getTime : jsstring -> option Z) (env : Env)
    (ls : localStorage) (l : list Certificate.t) :
  stored_certificates ls = Return l ->
  (forall options,
     Api.method options <> Some (js "POST") ->
     Api.fallbackToLocalStorage Date_getTime env (js "/certificates") options ls
     = (Return (Api.ListResponse (Array_sort (compare_issuedAt Date_getTime) l)), ls))
  /\ Api.fallbackToLocalStorage Date_getTime env (js "/certificates")
       {| Api.method := Some (js "POST"); Api.body := None |} ls
     = (Throw SyntaxError, ls)
  /\ (forall endpoint options,
        endpoint <> js "/certificates" ->
        startsWith (js "/certificates/verify/") endpoint = false ->
        Api.fallbackToLocalStorage Date_getTime env endpoint options ls
        = (Throw (Error (js "Unknown endpoint")), ls)).
Proof.
  intros Hl. split; [|split].
  - intros options Hmethod.
    unfold Api.fallbackToLocalStorage, bind, getItem, lift.
    rewrite fallback_certificates, Hl.
    rewrite (bool_decide_eq_false_2 (Api.method options = _)) by done.
    by rewrite andb_false_r.
  - unfold Api.fallbackToLocalStorage, bind, getItem, lift.
    by rewrite fallback_certificates, Hl.
  - intros endpoint options Hne Hverify.
    unfold Api.fallbackToLocalStorage, bind, getItem, lift.
    rewrite fallback_certificates, Hl.
    rewrite (bool_decide_eq_false_2 (endpoint = _)) by done.
    cbn [andb]. by rewrite Hverify.
Qed.

Lemma fallback_dispatch_witness :
  Api.fallbackToLocalStorage iso_getTime env0 (js "/certificates")
    {| Api.method := Some (js "DELETE"); Api.body := Some (js "x") |} seeded
  = (Return (Api.ListResponse (Array_sort (compare_issuedAt iso_getTime) (samples env0))),
     seeded)
  /\ Api.fallbackToLocalStorage iso_getTime env0 (js "/certificates")
       {| Api.method := Some (js "POST"); Api.body := None |} seeded
     = (Throw SyntaxError, seeded)
  /\ Api.fallbackToLocalStorage iso_getTime env0 (js "/certificates/42")
       {| Api.method := None; Api.body := None |} seeded
     = (Throw (Error (js "Unknown endpoint")), seeded).
Proof.
  destruct (fallback_dispatch iso_getTime env0 seeded (samples env0)) as (Hlist & Hpost & Hother);
    [by vm_compute|].
  split; [|split].
  - by apply Hlist.
  - exact Hpost.
  - by apply Hother.
Defined.

(** ** What calls do to [localStorage] as a whole *)

Section StoreInvariants.

Variable Date_getTime : jsstring -> option Z.

(** The store a call leaves is the store before, or the store before with a
    sequence written under the key that extends the one read. *)
Lemma Api_run_cases call ls :
  Api_run Date_getTime call ls = ls
  \/ exists l added,
       stored_certificates ls = Return l
       /\ Api_run Date_getTime call ls = <[STORAGE_KEY := store_text (l ++ added)]> ls.
Proof.
  destruct call as [[r|] env data|[r|] env certificateId|[r|] env|[r|] env|env];
    cbn [Api_run]; try by left.
  - rewrite Api_issue_local.
    destruct (stored_certificates ls) as [l|e|] eqn:Hl; cbn [snd]; [|by left..].
    right. by exists l, [newCertificate env data].
  - left. rewrite Api_verify_local.
    destruct (stored_certificates ls) as [l|e|]; [by destruct (find _ l)|done..].
  - left. rewrite Api_getAll_local. by destruct (stored_certificates ls).
  - left. rewrite Api_healthCheck_local. by destruct (stored_certificates ls).
  - rewrite Api_initializeSampleData_eq.
    destruct (ls !! STORAGE_KEY) as [[|c text]|] eqn:Htext; cbn [snd]; [|by left|];
      right; exists [], (samples env); by rewrite stored_certificates_lookup, Htext.
Qed.

Lemma LocalApi_run_cases call ls :
  LocalApi_run Date_getTime call ls = ls
  \/ exists l added,
       stored_certificates ls = Return l
       /\ LocalApi_run Date_getTime call ls = <[STORAGE_KEY := store_text (l ++ added)]> ls.
Proof.
  destruct call as [env data|certificateId| |env]; cbn [LocalApi_run].
  - rewrite LocalApi_issue_eq.
    destruct (stored_certificates ls) as [l|e|] eqn:Hl; cbn [snd]; [|by left..].
    right. by exists l, [newCertificate env data].
  - left. rewrite LocalApi_verify_eq.
    destruct (stored_certificates ls) as [l|e|]; [by destruct (find _ l)|done..].
  - left. rewrite LocalApi_getAll_eq. by destruct (stored_certificates ls).
  - rewrite LocalApi_initializeSampleData_eq.
    destruct (stored_certificates ls) as [[|c l]|e|] eqn:Hl; cbn [snd]; [|by left..].
    right. by exists [], (samples env).
Qed.

End StoreInvariants.

(** X6.  No call of the service, of either implementation, writes or removes an
    entry of [localStorage] other than the one under [certchain_certificates]:
    every other entry is the same after any sequence of calls. *)
Theorem other_entries_untouched (Date_getTime : jsstring -> option Z)
    (calls : list Api_call) (local_calls : list LocalApi_call) (ls : localStorage)
    (key : jsstring) :
  key <> STORAGE_KEY ->
  Api_run_all Date_getTime calls ls !! key = ls !! key
  /\ LocalApi_run_all Date_getTime local_calls ls !! key = ls !! key.
Proof.
  intros Hkey. split.
  - revert ls. induction calls as [|call calls IH]; intros ls; [done|].
    unfold Api_run_all in *. cbn [foldl]. rewrite IH.
    destruct (Api_run_cases Date_getTime call ls) as [->|(l & added & _ & ->)]; [done|].
    by rewrite lookup_insert_ne.
  - revert ls. induction local_calls as [|call calls' IH]; intros ls; [done|].
    unfold LocalApi_run_all in *. cbn [foldl]. rewrite IH.
    destruct (LocalApi_run_cases Date_getTime call ls) as [->|(l & added & _ & ->)]; [done|].
    by rewrite lookup_insert_ne.
Qed.

Lemma other_entries_untouched_witness :
  Api_run_all iso_getTime
    [CallInitializeSampleData env0; CallIssue None env1 request0; CallGetAll None env0]
    {[ js "theme" := js "dark" ]} !! js "theme" = Some (js "dark")
  /\ LocalApi_run_all iso_getTime
       [LocalInitializeSampleData env0; LocalIssue env1 request0; LocalVerify (js "x")]
       {[ js "theme" := js "dark" ]} !! js "theme" = Some (js "dark").
Proof.
  destruct (other_entries_untouched iso_getTime
              [CallInitializeSampleData env0; CallIssue None env1 request0; CallGetAll None env0]
              [LocalInitializeSampleData env0; LocalIssue env1 request0; LocalVerify (js "x")]
              {[ js "theme" := js "dark" ]} (js "theme")) as [Hclass Hmodule]; [by vm_compute|].
  split; [by rewrite Hclass|by rewrite Hmodule].
Defined.

(** X7.  A readable store stays readable: after any sequence of calls of either
    implementation, reading the store still succeeds and returns the
    sequence it held followed by what was appended.  No call leaves text
    that fails to parse. *)
Theorem store_stays_readable (Date_getTime : jsstring -> option Z)
    (calls : list Api_call) (local_calls : list LocalApi_call) (ls : localStorage)
    (l : list Certificate.t) :
  stored_certificates ls = Return l ->
  (exists added, stored_certificates (Api_run_all Date_getTime calls ls) = Return (l ++ added))
  /\ (exists added,
        stored_certificates (LocalApi_run_all Date_getTime local_calls ls)
        = Return (l ++ added)).
Proof.
  intros Hl. split.
  - revert ls l Hl. induction calls as [|call calls IH]; intros ls l Hl.
    { exists []. by rewrite app_nil_r. }
    unfold Api_run_all in *. cbn [foldl].
    destruct (Api_run_cases Date_getTime call ls) as [->|(l' & added & Hl' & ->)];
      [by apply IH|].
    rewrite Hl in Hl'. injection Hl' as <-.
    destruct (IH _ (l ++ added) (stored_certificates_insert ls (l ++ added))) as (added' & Hafter).
    exists (added ++ added'). by rewrite Hafter, app_assoc.
  - revert ls l Hl. induction local_calls as [|call calls' IH]; intros ls l Hl.
    { exists []. by rewrite app_nil_r. }
    unfold LocalApi_run_all in *. cbn [foldl].
    destruct (LocalApi_run_cases Date_getTime call ls) as [->|(l' & added & Hl' & ->)];
      [by apply IH|].
    rewrite Hl in Hl'. injection Hl' as <-.
    destruct (IH _ (l ++ added) (stored_certificates_insert ls (l ++ added))) as (added' & Hafter).
    exists (added ++ added'). by rewrite Hafter, app_assoc.
Qed.

Lemma store_stays_readable_witness :
  (exists added,
     stored_certificates
       (Api_run_all iso_getTime [CallIssue None env1 request0; CallHealthCheck None env0] seeded)
     = Return (samples env0 ++ added))
  /\ (exists added,
        stored_certificates
          (LocalApi_run_all iso_getTime [LocalIssue env1 request0; LocalGetAll] seeded)
        = Return (samples env0 ++ added)).
Proof.
  apply (store_stays_readable iso_getTime
           [CallIssue None env1 request0; CallHealthCheck None env0]
           [LocalIssue env1 request0; LocalGetAll] seeded (samples env0)).
  by vm_compute.
Defined.

(** X8.  Text under the key that is not JSON is never repaired.  Whatever calls
    are made, [localStorage] stays exactly as it is, the seed initializers
    included; on the fallback path every [issue], [verify] and [getAll]
    throws [SyntaxError], and so does the initializer of the
    localStorage-only module, while the initializer of the class returns
    without a word. *)
Theorem unparsable_store_is_permanent (Date_getTime : jsstring -> option Z)
    (calls : list Api_call) (local_calls : list LocalApi_call) (ls : localStorage)
    (text : jsstring) :
  ls !! STORAGE_KEY = Some text -> text <> [] -> JSON.parse text = None ->
  Api_run_all Date_getTime calls ls = ls
  /\ LocalApi_run_all Date_getTime local_calls ls = ls
  /\ (forall env data,
        fst (Api.issue Date_getTime None env data ls) = Throw SyntaxError
        /\ fst (LocalApi.issue env data ls) = Throw SyntaxError)
  /\ (forall env certificateId,
        fst (Api.verify Date_getTime None env certificateId ls) = Throw SyntaxError
        /\ fst (LocalApi.verify certificateId ls) = Throw SyntaxError)
  /\ (forall env,
        fst (Api.getAll Date_getTime None env ls) = Throw SyntaxError
        /\ fst (LocalApi.getAll Date_getTime ls) = Throw SyntaxError)
  /\ (forall env,
        Api.initializeSampleData env ls = (Return tt, ls)
        /\ LocalApi.initializeSampleData env ls = (Throw SyntaxError, ls)).
Proof.
  intros Htext Hne Hparse.
  assert (Hload : stored_certificates ls = Throw SyntaxError).
  { rewrite stored_certificates_lookup, Htext. destruct text; [done|].
    cbn [falsy]. unfold parse_as. by rewrite Hparse. }
  split; [|split; [|split; [|split; [|split]]]].
  - induction calls as [|call calls IH]; [done|].
    unfold Api_run_all in *. cbn [foldl].
    destruct (Api_run_cases Date_getTime call ls) as [->|(l & added & Hl & _)]; [done|].
    congruence.
  - induction local_calls as [|call calls' IH]; [done|].
    unfold LocalApi_run_all in *. cbn [foldl].
    destruct (LocalApi_run_cases Date_getTime call ls) as [->|(l & added & Hl & _)]; [done|].
    congruence.
  - intros env data. by rewrite Api_issue_local, LocalApi_issue_eq, Hload.
  - intros env certificateId. by rewrite Api_verify_local, LocalApi_verify_eq, Hload.
  - intros env. by rewrite Api_getAll_local, LocalApi_getAll_eq, Hload.
  - intros env. rewrite Api_initializeSampleData_eq, LocalApi_initializeSampleData_eq, Hload, Htext.
    by destruct text.
Qed.

Lemma unparsable_store_is_permanent_witness :
  Api_run_all iso_getTime
    [CallInitializeSampleData env0; CallIssue None env0 request0; CallHealthCheck None env0]
    {[ STORAGE_KEY := js "[{" ]} = {[ STORAGE_KEY := js "[{" ]}
  /\ LocalApi_run_all iso_getTime [LocalInitializeSampleData env0; LocalIssue env0 request0]
       {[ STORAGE_KEY := js "[{" ]} = {[ STORAGE_KEY := js "[{" ]}.
Proof.
  destruct (unparsable_store_is_permanent iso_getTime
              [CallInitializeSampleData env0; CallIssue None env0 request0;
               CallHealthCheck None env0]
              [LocalInitializeSampleData env0; LocalIssue env0 request0]
              {[ STORAGE_KEY := js "[{" ]} (js "[{")) as (Hclass & Hmodule & _);
    [by vm_compute..|].
  by split.
Defined.

(** ** Identifiers, hashes and addresses *)

Section ShapeFacts.

Lemma substring_random36_digits env :
  substring 2 8 (Math_random_toString36 env) = digit_char <$> take 6 (random36 env).
Proof.
  unfold Math_random_toString36, substring. destruct (random36 env) as [|d ds]; [done|].
  change (js "0.") with [48; 46]. cbn [app drop Nat.sub].
  by rewrite drop_0, fmap_take.
Qed.

Lemma join_nil_singletons {A} (f : A -> N) (l : list A) :
  join [] (map (fun x => [f x]) l) = map f l.
Proof.
  induction l as [|x [|y l] IH]; [done..|].
  change (join [] (map (fun x => [f x]) (x :: y :: l)))
    with ([f x] ++ [] ++ join [] (map (fun x => [f x]) (y :: l))).
  by rewrite IH.
Qed.

Lemma random_hex_digits env from count :
  (forall k, random16 env k < 16) ->
  random_hex env from count
  = js "0x" ++ map (fun k => digit_char (random16 env (from + k)%nat)) (seq 0 count).
Proof.
  intros Hdraws. unfold random_hex. f_equal.
  rewrite <- join_nil_singletons. f_equal. apply map_ext. intros k.
  by apply N_toString_digit.
Qed.

Lemma digit_char_hex d : d < 16 -> digit_char d ∈ hex_digits.
Proof.
  intros Hd. apply list_elem_of_lookup. exists (N.to_nat d). by apply hex_digits_lookup.
Qed.

(** A string of random hexadecimal digits has the length asked for and
    nothing but lowercase hexadecimal digits after [0x]. *)
Lemma random_hex_shape env from count :
  (forall k, random16 env k < 16) ->
  length (random_hex env from count) = (2 + count)%nat
  /\ take 2 (random_hex env from count) = js "0x"
  /\ Forall (fun c => c ∈ hex_digits) (drop 2 (random_hex env from count)).
Proof.
  intros Hdraws. rewrite random_hex_digits by done. repeat split.
  - rewrite length_app, length_map, length_seq. reflexivity.
  - change (js "0x") with [48; 120]. cbn [app drop].
    apply Forall_forall. intros c (k & <- & _)%list_elem_of_In%in_map_iff.
    by apply digit_char_hex.
Qed.

End ShapeFacts.

(** X9.  The identifier is [CERT-], the year in decimal, a dash and a suffix.  The
    suffix has as many characters as [Math.random().toString(36)] has digits
    after the point, at most six, each an uppercase letter or a digit.  With
    a four-digit year the identifier has the shape [CERT-YYYY-XXXXXX] exactly
    when that rendering has six digits or more. *)
Theorem generateCertificateId_shape (env : Env) :
  exists suffix,
    Api.generateCertificateId env = js "CERT-" ++ Z_toString (fullYear env) ++ js "-" ++ suffix
    /\ LocalApi.generateCertificateId env = Api.generateCertificateId env
    /\ length suffix = min 6 (length (random36 env))
    /\ (Forall (fun d => d < 36) (random36 env) ->
        forallb is_upper_alnum suffix = true
        /\ ((1000 <= fullYear env <= 9999)%Z ->
            matches_certificate_pattern (Api.generateCertificateId env) = true
            <-> (6 <= length (random36 env))%nat)).
Proof.
  exists (toUpperCase (substring 2 8 (Math_random_toString36 env))).
  split; [done|]. split; [done|].
  assert (Hlen : length (toUpperCase (substring 2 8 (Math_random_toString36 env)))
                 = min 6 (length (random36 env))).
  { unfold toUpperCase. by rewrite substring_random36_digits, !length_fmap, length_take. }
  split; [done|]. intros Hdigits. split.
  - apply forallb_forall. intros c Hc%list_elem_of_In.
    unfold toUpperCase in Hc. rewrite substring_random36_digits in Hc.
    apply list_elem_of_fmap in Hc as (x & -> & Hx).
    apply list_elem_of_fmap in Hx as (y & -> & Hy).
    apply is_upper_alnum_digit_char. rewrite Forall_forall in Hdigits. apply Hdigits.
    apply elem_of_take in Hy as (i & Hi & _). by apply list_elem_of_lookup_2 in Hi.
  - intros Hyear. split; [|intros Hsix; by apply generateCertificateId_pattern].
    intros Hmatch.
    destruct (Z_toString_four_digits _ Hyear) as (a & b & c & d & Hz & _).
    unfold Api.generateCertificateId, matches_certificate_pattern in Hmatch.
    rewrite Hz in Hmatch.
    change (js "CERT-") with [67; 69; 82; 84; 45] in Hmatch. change (js "-") with [45] in Hmatch.
    cbn [app JSON.strip_prefix N.eqb Pos.eqb take drop] in Hmatch.
    apply andb_prop in Hmatch as [_ Hmatch]. apply andb_prop in Hmatch as [Hsix _].
    apply Nat.eqb_eq in Hsix. rewrite Hlen in Hsix. lia.
Qed.

Lemma generateCertificateId_shape_witness :
  exists suffix,
    Api.generateCertificateId env0 = js "CERT-" ++ Z_toString (fullYear env0) ++ js "-" ++ suffix
    /\ length suffix = 6%nat
    /\ forallb is_upper_alnum suffix = true
    /\ matches_certificate_pattern (Api.generateCertificateId env0) = true.
Proof.
  destruct (generateCertificateId_shape env0) as (suffix & Hid & _ & Hlen & Hrest).
  exists suffix. split; [exact Hid|]. split; [exact Hlen|].
  destruct Hrest as [Halnum Hpattern]; [apply (bool_decide_unpack _); by vm_compute|].
  split; [exact Halnum|]. apply Hpattern; [by vm_compute|]. vm_compute. lia.
Defined.

(** X10.  When every draw of [Math.floor(Math.random() * 16)] is below 16, the hash
    [generateBlockchainHash] returns has 66 characters: [0x] and 64 lowercase
    hexadecimal digits, one for each draw, in the order drawn. *)
Theorem generateBlockchainHash_shape (env : Env) (from : nat) :
  (forall k, random16 env k < 16) ->
  let hash := LocalApi.generateBlockchainHash env from in
  length hash = 66%nat
  /\ take 2 hash = js "0x"
  /\ Forall (fun c => c ∈ hex_digits) (drop 2 hash)
  /\ (forall i, (i < 64)%nat ->
      hash !! (2 + i)%nat = hex_digits !! N.to_nat (random16 env (from + i)%nat))
  /\ Api.generateBlockchainHash env = LocalApi.generateBlockchainHash env 0.
Proof.
  intros Hdraws hash.
  destruct (random_hex_shape env from 64 Hdraws) as (Hlen & Hprefix & Hhex).
  split; [exact Hlen|]. split; [exact Hprefix|]. split; [exact Hhex|]. split; [|done].
  intros i Hi. unfold hash, LocalApi.generateBlockchainHash.
  change (random_hash env from) with (random_hex env from 64).
  rewrite random_hex_digits by done. change (js "0x") with [48; 120].
  change ((48 :: 120 :: ?l) !! (2 + i)%nat) with (l !! i).
  rewrite hex_digits_lookup by done.
  replace (([48; 120] ++ map (fun k => digit_char (random16 env (from + k)%nat)) (seq 0 64))
             !! (2 + i)%nat)
    with (map (fun k => digit_char (random16 env (from + k)%nat)) (seq 0 64) !! i)
    by reflexivity.
  rewrite list_lookup_fmap, lookup_seq_lt by done. reflexivity.
Qed.

Lemma generateBlockchainHash_shape_witness :
  length (LocalApi.generateBlockchainHash env1 64) = 66%nat
  /\ take 2 (LocalApi.generateBlockchainHash env1 64) = js "0x"
  /\ Forall (fun c => c ∈ hex_digits) (drop 2 (LocalApi.generateBlockchainHash env1 64))
  /\ (forall i, (i < 64)%nat ->
      LocalApi.generateBlockchainHash env1 64 !! (2 + i)%nat
      = hex_digits !! N.to_nat (random16 env1 (64 + i)%nat))
  /\ Api.generateBlockchainHash env1 = LocalApi.generateBlockchainHash env1 0.
Proof.
  apply (generateBlockchainHash_shape env1 64).
  intros k. cbn [random16 env1]. apply N.mod_lt. lia.
Defined.

(** ** The verify page *)

Section TrimFacts.

Lemma trimStart_all s : forallb is_js_whitespace s = true -> trimStart s = [].
Proof.
  induction s as [|c s IH]; [done|]. cbn [forallb trimStart].
  intros [Hc Hs]%andb_prop. rewrite Hc. by apply IH.
Qed.

Lemma trimStart_head s c r : trimStart s = c :: r -> is_js_whitespace c = false.
Proof.
  induction s as [|d s IH]; [done|]. cbn [trimStart].
  destruct (is_js_whitespace d) eqn:Hd; [done|]. by intros [= <- _].
Qed.

Lemma trimStart_snoc s c :
  trimStart (s ++ [c])
  = if forallb is_js_whitespace s then (if is_js_whitespace c then [] else [c])
    else trimStart s ++ [c].
Proof.
  induction s as [|d s IH]; [done|]. cbn [app trimStart forallb].
  destruct (is_js_whitespace d); [exact IH|done].
Qed.

Lemma forallb_reverse {A} (f : A -> bool) (l : list A) :
  forallb f (reverse l) = forallb f l.
Proof.
  induction l as [|x l IH]; [done|].
  rewrite reverse_cons, forallb_app, IH. cbn [forallb]. by rewrite andb_true_r, andb_comm.
Qed.

Lemma trimEnd_cons c r :
  trimEnd (c :: r)
  = if forallb is_js_whitespace r then (if is_js_whitespace c then [] else [c])
    else c :: trimEnd r.
Proof.
  unfold trimEnd. rewrite reverse_cons, trimStart_snoc, forallb_reverse.
  destruct (forallb is_js_whitespace r).
  - by destruct (is_js_whitespace c).
  - by rewrite reverse_app.
Qed.

Lemma trimEnd_all s : forallb is_js_whitespace s = true -> trimEnd s = [].
Proof.
  induction s as [|c s IH]; [done|]. cbn [forallb].
  intros [Hc Hs]%andb_prop. by rewrite trimEnd_cons, Hs, Hc.
Qed.

Lemma trimEnd_nil_inv s : trimEnd s = [] -> forallb is_js_whitespace s = true.
Proof.
  destruct s as [|c s]; [done|]. rewrite trimEnd_cons. cbn [forallb].
  destruct (forallb is_js_whitespace s); [|done].
  by destruct (is_js_whitespace c).
Qed.

(** What [trimEnd] keeps ends with a character that is not white space. *)
Lemma trimEnd_last s :
  trimEnd s = [] \/ exists r c, trimEnd s = r ++ [c] /\ is_js_whitespace c = false.
Proof.
  induction s as [|d s IH]; [by left|]. rewrite trimEnd_cons.
  destruct (forallb is_js_whitespace s) eqn:Hs.
  - destruct (is_js_whitespace d) eqn:Hd; [by left|]. right. by exists [], d.
  - right. destruct IH as [Hnil|(r & c & -> & Hc)]; [|by exists (d :: r), c].
    apply trimEnd_nil_inv in Hnil. congruence.
Qed.

(** [trim] leaves nothing exactly when the text is white space throughout;
    what it leaves neither starts nor ends with white space. *)
Lemma trim_nil s : trim s = [] <-> forallb is_js_whitespace s = true.
Proof.
  unfold trim. split.
  - intros Hnil%trimEnd_nil_inv. induction s as [|c s IH]; [done|].
    cbn [trimStart forallb] in *. destruct (is_js_whitespace c) eqn:Hc; [by apply IH|].
    cbn [forallb] in Hnil. by rewrite Hc in Hnil.
  - intros Hall. by rewrite trimStart_all.
Qed.

Lemma trim_ends s :
  (forall c r, trim s = c :: r -> is_js_whitespace c = false)
  /\ (forall r c, trim s = r ++ [c] -> is_js_whitespace c = false).
Proof.
  unfold trim. split.
  - intros c r Htrim. destruct (trimStart s) as [|d t] eqn:Ht; [done|].
    pose proof (trimStart_head _ _ _ Ht) as Hd. rewrite trimEnd_cons in Htrim.
    destruct (forallb is_js_whitespace t); [rewrite Hd in Htrim|]; by injection Htrim as <- _.
  - intros r c Htrim. destruct (trimEnd_last (trimStart s)) as [Hnil|(r' & c' & Heq & Hc)].
    + rewrite Hnil in Htrim. by destruct r.
    + rewrite Heq in Htrim. by apply app_inj_tail in Htrim as [_ <-].
Qed.

(** Text without white space at either end is its own [trim]. *)
Lemma trim_id s :
  (forall c r, s = c :: r -> is_js_whitespace c = false) ->
  (forall r c, s = r ++ [c] -> is_js_whitespace c = false) ->
  trim s = s.
Proof.
  intros Hfirst Hlast. unfold trim.
  assert (Hstart : trimStart s = s).
  { destruct s as [|c r]; [done|]. cbn [trimStart]. by rewrite (Hfirst c r). }
  rewrite Hstart. clear Hstart Hfirst.
  induction s as [|d s IH]; [done|]. rewrite trimEnd_cons.
  destruct (forallb is_js_whitespace s) eqn:Hs.
  - destruct s as [|x s'] using rev_ind.
    + by rewrite (Hlast [] d).
    + rewrite forallb_app in Hs. cbn [forallb] in Hs.
      rewrite (Hlast (d :: s') x) in Hs by done. by rewrite andb_false_r in Hs.
  - f_equal. apply IH. intros r c ->. by apply (Hlast (d :: r) c).
Qed.

Lemma trim_idempotent s : trim (trim s) = trim s.
Proof. destruct (trim_ends s) as [Hfirst Hlast]. by apply trim_id. Qed.

End TrimFacts.

Section VerifyPage.

Import VerifyCertificate.

Lemma falsy_trim s : falsy (trim s) = forallb is_js_whitespace s.
Proof.
  destruct (forallb is_js_whitespace s) eqn:Hs.
  - by rewrite (proj2 (trim_nil s) Hs).
  - destruct (trim s) eqn:Ht; [|done]. apply trim_nil in Ht. congruence.
Qed.

Lemma handleSubmit_eq mutationFn p ls :
  handleSubmit mutationFn p ls
  = if forallb is_js_whitespace (certificateId p)
    then (Return (show_toast {| title := js "Missing Certificate ID";
                                description := js "Please enter a certificate ID to verify.";
                                variant := Some (js "destructive") |} p), ls)
    else mutate mutationFn (trim (certificateId p)) p ls.
Proof. unfold handleSubmit. rewrite falsy_trim. by destruct (forallb _ _). Qed.

Lemma handleSubmit_verify_eq p ls l :
  stored_certificates ls = Return l ->
  forallb is_js_whitespace (certificateId p) = false ->
  handleSubmit LocalApi.verify p ls
  = (Return match find (certificate_with (trim (certificateId p))) l with
            | Some c => onSuccess c p
            | None => onError (Error (js "Certificate not found")) p
            end, ls).
Proof.
  intros Hl Hinput. rewrite handleSubmit_eq, Hinput.
  unfold mutate. rewrite LocalApi_verify_eq, Hl. by destruct (find _ l).
Qed.

Lemma verificationResult_onSuccess c p : verificationResult (onSuccess c p) = Some c.
Proof. unfold onSuccess. by destruct (Certificate.isValid c). Qed.

End VerifyPage.

(** X11.  The verify page, [handleSubmit] on an input that is empty or white space
    throughout: whatever the mutation function is, it is not run; the store
    and the result shown stay as they were, and the one thing that happens is
    the toast Missing Certificate ID. *)
Theorem handleSubmit_blank_input (mutationFn : jsstring -> M Certificate.t)
    (p : VerifyCertificate.page) (ls : localStorage) :
  forallb is_js_whitespace (VerifyCertificate.certificateId p) = true ->
  exists t,
    VerifyCertificate.handleSubmit mutationFn p ls
    = (Return {| VerifyCertificate.certificateId := VerifyCertificate.certificateId p;
                 VerifyCertificate.verificationResult := VerifyCertificate.verificationResult p;
                 VerifyCertificate.toasts := VerifyCertificate.toasts p ++ [t] |}, ls)
    /\ VerifyCertificate.title t = js "Missing Certificate ID"
    /\ VerifyCertificate.variant t = Some (js "destructive").
Proof.
  intros Hblank. rewrite handleSubmit_eq, Hblank. by eexists.
Qed.

Lemma handleSubmit_blank_input_witness :
  exists t,
    VerifyCertificate.handleSubmit (fun _ => throw SyntaxError)
      (VerifyCertificate.typed (js "   ")) seeded
    = (Return {| VerifyCertificate.certificateId := js "   ";
                 VerifyCertificate.verificationResult := None;
                 VerifyCertificate.toasts := [] ++ [t] |}, seeded)
    /\ VerifyCertificate.title t = js "Missing Certificate ID"
    /\ VerifyCertificate.variant t = Some (js "destructive").
Proof.
  apply (handleSubmit_blank_input (fun _ => throw SyntaxError)
           (VerifyCertificate.typed (js "   ")) seeded).
  reflexivity.
Defined.

(** X12.  The verify page over the localStorage-only [verify], on a readable store
    and an input that is not blank: the store is left as it is, the input
    stays as typed, and the result shown is the first stored record whose
    identifier is the trimmed input, with the toast Certificate Verified
    when its [isValid] is true and Verification Failed when it is false; when
    no record has that identifier the result is cleared and the toast is
    Certificate Not Found. *)
Theorem verify_page_lookup (p : VerifyCertificate.page) (ls : localStorage)
    (l : list Certificate.t) :
  stored_certificates ls = Return l ->
  forallb is_js_whitespace (VerifyCertificate.certificateId p) = false ->
  exists p' t,
    VerifyCertificate.handleSubmit LocalApi.verify p ls = (Return p', ls)
    /\ VerifyCertificate.certificateId p' = VerifyCertificate.certificateId p
    /\ VerifyCertificate.verificationResult p'
       = find (certificate_with (trim (VerifyCertificate.certificateId p))) l
    /\ VerifyCertificate.toasts p' = VerifyCertificate.toasts p ++ [t]
    /\ VerifyCertificate.title t
       = match find (certificate_with (trim (VerifyCertificate.certificateId p))) l with
         | Some c => if Certificate.isValid c then js "Certificate Verified"
                     else js "Verification Failed"
         | None => js "Certificate Not Found"
         end.
Proof.
  intros Hl Hinput. rewrite (handleSubmit_verify_eq p ls l Hl Hinput).
  destruct (find _ l) as [c|].
  - unfold VerifyCertificate.onSuccess. destruct (Certificate.isValid c); by eexists _, _.
  - by eexists _, _.
Qed.

Lemma verify_page_lookup_witness :
  exists p' t,
    VerifyCertificate.handleSubmit LocalApi.verify
      (VerifyCertificate.typed (js "  CERT-2024-SAMPLE2 ")) seeded = (Return p', seeded)
    /\ VerifyCertificate.certificateId p' = js "  CERT-2024-SAMPLE2 "
    /\ VerifyCertificate.verificationResult p'
       = find (certificate_with (trim (js "  CERT-2024-SAMPLE2 "))) (samples env0)
    /\ VerifyCertificate.toasts p' = [] ++ [t]
    /\ VerifyCertificate.title t
       = match find (certificate_with (trim (js "  CERT-2024-SAMPLE2 "))) (samples env0) with
         | Some c => if Certificate.isValid c then js "Certificate Verified"
                     else js "Verification Failed"
         | None => js "Certificate Not Found"
         end.
Proof.
  apply (verify_page_lookup (VerifyCertificate.typed (js "  CERT-2024-SAMPLE2 ")) seeded
           (samples env0)); by vm_compute.
Defined.

(** X13.  The verify page never shows a record whose identifier starts or ends
    with white space: the input is trimmed before the lookup, and the lookup
    compares whole identifiers. *)
Theorem verify_page_padded_id_unreachable (p : VerifyCertificate.page) (ls : localStorage)
    (l : list Certificate.t) (c : Certificate.t) :
  stored_certificates ls = Return l ->
  forallb is_js_whitespace (VerifyCertificate.certificateId p) = false ->
  trim (Certificate.certificateId c) <> Certificate.certificateId c ->
  exists p',
    VerifyCertificate.handleSubmit LocalApi.verify p ls = (Return p', ls)
    /\ VerifyCertificate.verificationResult p' <> Some c.
Proof.
  intros Hl Hinput Hpadded. rewrite (handleSubmit_verify_eq p ls l Hl Hinput).
  eexists. split; [done|].
  destruct (find _ l) as [found|] eqn:Hfind; [|done].
  rewrite verificationResult_onSuccess. intros [= ->].
  apply find_certificate_with_Some in Hfind as [Hid _].
  apply Hpadded. rewrite Hid. apply trim_idempotent.
Qed.

Lemma verify_page_padded_id_unreachable_witness :
  exists p',
    VerifyCertificate.handleSubmit LocalApi.verify (VerifyCertificate.typed (js " CERT-1"))
      (<[STORAGE_KEY := store_text [padded_certificate]]> ∅)
    = (Return p', <[STORAGE_KEY := store_text [padded_certificate]]> ∅)
    /\ VerifyCertificate.verificationResult p' <> Some padded_certificate.
Proof.
  apply (verify_page_padded_id_unreachable (VerifyCertificate.typed (js " CERT-1"))
           (<[STORAGE_KEY := store_text [padded_certificate]]> ∅) [padded_certificate]).
  - apply stored_certificates_insert.
  - reflexivity.
  - by vm_compute.
Defined.

(** X14.  The verify page shows every failure of the mutation function as
    Certificate Not Found: whatever is thrown (the SyntaxError of an
    unreadable store as well as the Error of a missing record), the result is
    cleared and the same toast is shown. *)
Theorem verify_page_hides_the_error (mutationFn : jsstring -> M Certificate.t)
    (p : VerifyCertificate.page) (ls ls' : localStorage) (e : exn) :
  forallb is_js_whitespace (VerifyCertificate.certificateId p) = false ->
  mutationFn (trim (VerifyCertificate.certificateId p)) ls = (Throw e, ls') ->
  VerifyCertificate.handleSubmit mutationFn p ls
  = (Return {| VerifyCertificate.certificateId := VerifyCertificate.certificateId p;
               VerifyCertificate.verificationResult := None;
               VerifyCertificate.toasts :=
                 VerifyCertificate.toasts p
                 ++ [{| VerifyCertificate.title := js "Certificate Not Found";
                        VerifyCertificate.description := js "No certificate found with this ID.";
                        VerifyCertificate.variant := Some (js "destructive") |}] |}, ls').
Proof.
  intros Hinput Hthrow. rewrite handleSubmit_eq, Hinput.
  unfold VerifyCertificate.mutate. by rewrite Hthrow.
Qed.

Lemma verify_page_hides_the_error_witness :
  VerifyCertificate.handleSubmit LocalApi.verify
    (VerifyCertificate.typed (js "CERT-2024-SAMPLE1")) {[ STORAGE_KEY := js "{" ]}
  = (Return {| VerifyCertificate.certificateId := js "CERT-2024-SAMPLE1";
               VerifyCertificate.verificationResult := None;
               VerifyCertificate.toasts :=
                 [] ++ [{| VerifyCertificate.title := js "Certificate Not Found";
                           VerifyCertificate.description := js "No certificate found with this ID.";
                           VerifyCertificate.variant := Some (js "destructive") |}] |},
     {[ STORAGE_KEY := js "{" ]}).
Proof.
  apply (verify_page_hides_the_error LocalApi.verify
           (VerifyCertificate.typed (js "CERT-2024-SAMPLE1")) {[ STORAGE_KEY := js "{" ]}
           {[ STORAGE_KEY := js "{" ]} SyntaxError); by vm_compute.
Defined.

(** ** The list page *)

Section SearchFacts.

Lemma startsWith_spec p s : startsWith p s = true <-> exists b, s = p ++ b.
Proof.
  revert s. induction p as [|a p IH]; intros s; cbn [startsWith].
  - split; [by exists s|done].
  - destruct s as [|c s].
    + split; [done|]. by intros (b & Hb).
    + rewrite andb_true_iff, N.eqb_eq, IH. split.
      * intros (-> & b & ->). by exists b.
      * intros (b & [= -> ->]). split; [done|by exists b].
Qed.

(** [includes] finds a contiguous occurrence. *)
Lemma includes_spec s sub : includes s sub = true <-> exists a b, s = a ++ sub ++ b.
Proof.
  induction s as [|c r IH]; cbn [includes]; rewrite orb_true_iff, startsWith_spec.
  - split.
    + intros [(b & Hb)|?]; [|done]. by exists [], b.
    + intros (a & b & Hs). left. exists []. destruct a; [|done].
      destruct sub; [|done]. by destruct b.
  - rewrite IH. split.
    + intros [(b & Hb)|(a & b & ->)]; [by exists [], b|by exists (c :: a), b].
    + intros ([|c' a] & b & Hs).
      * left. by exists b.
      * right. injection Hs as -> ->. by exists a, b.
Qed.

Lemma includes_refl s : includes s s = true.
Proof. apply includes_spec. exists [], []. by rewrite app_nil_r. Qed.

Lemma includes_nil s : includes s [] = true.
Proof. by destruct s. Qed.

Lemma includes_trans s t u : includes s t = true -> includes t u = true -> includes s u = true.
Proof.
  rewrite !includes_spec. intros (a & b & ->) (a' & b' & ->).
  exists (a ++ a'), (b' ++ b). by rewrite <- !app_assoc.
Qed.

Lemma matches_spec toLowerCase searchTerm c :
  CertificateList.matches toLowerCase searchTerm c = true
  <-> exists field,
        field ∈ [Certificate.recipientName c; Certificate.courseName c;
                 Certificate.issuerName c; Certificate.certificateId c]
        /\ includes (toLowerCase field) (toLowerCase searchTerm) = true.
Proof.
  unfold CertificateList.matches. rewrite !orb_true_iff. split.
  - intros [[[H|H]|H]|H]; eexists; (split; [|exact H]); set_solver.
  - intros (field & Hfield & H).
    repeat (apply elem_of_cons in Hfield as [->|Hfield]; [tauto|]).
    by apply elem_of_nil in Hfield.
Qed.

Lemma elem_of_filteredCertificates toLowerCase certificates searchTerm c :
  c ∈ CertificateList.filteredCertificates toLowerCase certificates searchTerm
  <-> c ∈ certificates /\ CertificateList.matches toLowerCase searchTerm c = true.
Proof.
  unfold CertificateList.filteredCertificates.
  by rewrite !list_elem_of_In, filter_In.
Qed.

Lemma filteredCertificates_sublist toLowerCase certificates searchTerm :
  sublist (CertificateList.filteredCertificates toLowerCase certificates searchTerm)
    certificates.
Proof.
  unfold CertificateList.filteredCertificates.
  induction certificates as [|c l IH]; cbn [List.filter]; [constructor|].
  destruct (CertificateList.matches _ _ c); by constructor.
Qed.

Lemma filter_all {A} (f : A -> bool) (l : list A) :
  (forall x, x ∈ l -> f x = true) -> List.filter f l = l.
Proof.
  induction l as [|x l IH]; intros Hall; [done|]. cbn [List.filter].
  rewrite (Hall x) by left. f_equal. apply IH. intros y Hy. apply Hall. by right.
Qed.

Lemma filter_narrow {A} (f g : A -> bool) (l : list A) :
  (forall x, g x = true -> f x = true) ->
  List.filter g (List.filter f l) = List.filter g l.
Proof.
  intros Hgf. induction l as [|x l IH]; [done|]. cbn [List.filter].
  destruct (f x) eqn:Hf; cbn [List.filter].
  - by rewrite IH.
  - destruct (g x) eqn:Hg; [|done]. apply Hgf in Hg. congruence.
Qed.

End SearchFacts.

(** X15.  The list page: the filter keeps the certificates in the order of the
    list it is given, and it keeps exactly those of which the name of the
    recipient, of the course or of the issuer, or the identifier, contains
    the search term as a contiguous part, both in lower case.  The other
    fields (email, description, dates, hash) are not searched. *)
Theorem filteredCertificates_spec (toLowerCase : jsstring -> jsstring)
    (certificates : list Certificate.t) (searchTerm : jsstring) :
  sublist (CertificateList.filteredCertificates toLowerCase certificates searchTerm)
    certificates
  /\ forall c,
       c ∈ CertificateList.filteredCertificates toLowerCase certificates searchTerm
       <-> c ∈ certificates
           /\ exists field before after,
                field ∈ [Certificate.recipientName c; Certificate.courseName c;
                         Certificate.issuerName c; Certificate.certificateId c]
                /\ toLowerCase field = before ++ toLowerCase searchTerm ++ after.
Proof.
  split; [apply filteredCertificates_sublist|]. intros c.
  rewrite elem_of_filteredCertificates, matches_spec. split.
  - intros (Hc & field & Hfield & (a & b & Heq)%includes_spec). eauto 10.
  - intros (Hc & field & a & b & Hfield & Heq). split; [done|].
    exists field. split; [done|]. apply includes_spec. eauto.
Qed.

(** X16.  With the search field empty the list page shows every certificate. *)
Theorem filteredCertificates_empty_term (toLowerCase : jsstring -> jsstring)
    (certificates : list Certificate.t) :
  toLowerCase [] = [] ->
  CertificateList.filteredCertificates toLowerCase certificates [] = certificates.
Proof.
  intros Hempty. apply filter_all. intros c _.
  unfold CertificateList.matches. by rewrite Hempty, !includes_nil.
Qed.

Lemma filteredCertificates_empty_term_witness :
  CertificateList.filteredCertificates ascii_toLowerCase (samples env0) [] = samples env0.
Proof.
  apply (filteredCertificates_empty_term ascii_toLowerCase (samples env0)). reflexivity.
Defined.

(** X17.  Typing on narrows the list: when the lower case of the old search term
    is part of the lower case of the new one, the certificates shown for the
    new term are among those shown for the old one, and filtering what was
    shown gives what the new term shows. *)
Theorem filteredCertificates_narrows (toLowerCase : jsstring -> jsstring)
    (certificates : list Certificate.t) (searchTerm longer : jsstring) :
  includes (toLowerCase longer) (toLowerCase searchTerm) = true ->
  CertificateList.filteredCertificates toLowerCase
    (CertificateList.filteredCertificates toLowerCase certificates searchTerm) longer
  = CertificateList.filteredCertificates toLowerCase certificates longer
  /\ sublist (CertificateList.filteredCertificates toLowerCase certificates longer)
       (CertificateList.filteredCertificates toLowerCase certificates searchTerm).
Proof.
  intros Hpart.
  assert (Heq : CertificateList.filteredCertificates toLowerCase
                  (CertificateList.filteredCertificates toLowerCase certificates searchTerm)
                  longer
                = CertificateList.filteredCertificates toLowerCase certificates longer).
  { apply filter_narrow. intros c. rewrite !matches_spec.
    intros (field & Hfield & Hin). exists field. split; [done|].
    by apply (includes_trans _ (toLowerCase longer)). }
  split; [done|]. rewrite <- Heq. apply filteredCertificates_sublist.
Qed.

Lemma filteredCertificates_narrows_witness :
  CertificateList.filteredCertificates ascii_toLowerCase
    (CertificateList.filteredCertificates ascii_toLowerCase (samples env0) (js "DEV"))
    (js "Web Development")
  = CertificateList.filteredCertificates ascii_toLowerCase (samples env0) (js "Web Development")
  /\ sublist
       (CertificateList.filteredCertificates ascii_toLowerCase (samples env0)
          (js "Web Development"))
       (CertificateList.filteredCertificates ascii_toLowerCase (samples env0) (js "DEV")).
Proof.
  apply (filteredCertificates_narrows ascii_toLowerCase (samples env0) (js "DEV")
           (js "Web Development")).
  reflexivity.
Defined.

(** X18.  A certificate of the list is found by each of its four searched fields
    typed in full, in whatever case the lower-casing ignores. *)
Theorem filteredCertificates_finds_by_field (toLowerCase : jsstring -> jsstring)
    (certificates : list Certificate.t) (c : Certificate.t) (searchTerm field : jsstring) :
  c ∈ certificates ->
  field ∈ [Certificate.recipientName c; Certificate.courseName c;
           Certificate.issuerName c; Certificate.certificateId c] ->
  toLowerCase searchTerm = toLowerCase field ->
  c ∈ CertificateList.filteredCertificates toLowerCase certificates searchTerm.
Proof.
  intros Hc Hfield Hcase. apply elem_of_filteredCertificates. split; [done|].
  apply matches_spec. exists field. split; [done|]. rewrite Hcase. apply includes_refl.
Qed.

Lemma filteredCertificates_finds_by_field_witness :
  padded_certificate
  ∈ CertificateList.filteredCertificates ascii_toLowerCase
      (samples env0 ++ [padded_certificate]) (js " cert-1").
Proof.
  apply (filteredCertificates_finds_by_field ascii_toLowerCase
           (samples env0 ++ [padded_certificate]) padded_certificate (js " cert-1")
           (js " CERT-1")).
  - apply elem_of_app. right. left.
  - do 3 right. left.
  - reflexivity.
Defined.

(** ** Numbers read back, addresses and the setup utilities *)

Section NumberFacts.

Lemma to_radix_acc radix fuel n acc :
  to_radix radix fuel n acc = to_radix radix fuel n [] ++ acc.
Proof.
  revert n acc. induction fuel as [|fuel IH]; intros n acc; cbn [to_radix]; [done|].
  destruct (n / radix =? 0); [done|].
  rewrite IH, (IH _ [_]). by rewrite <- app_assoc.
Qed.

Lemma parseInt_digit_digit_char radix d :
  d < radix -> radix <= 16 -> parseInt_digit radix (digit_char d) = Some d.
Proof.
  intros Hd Hradix. unfold parseInt_digit.
  rewrite hex_value_digit_char by lia. by rewrite (proj2 (N.ltb_lt _ _) Hd).
Qed.

(** Reading the rendering of [n] after digits that came to [acc]. *)
Lemma parseInt_digits_to_radix fuel n acc rest :
  n < 2 ^ N.of_nat fuel ->
  (0 < fuel)%nat ->
  exists k,
    parseInt_digits 10 (to_radix 10 fuel n [] ++ rest) acc
    = parseInt_digits 10 rest (Some (default 0 acc * 10 ^ k + n))
    /\ (to_radix 10 fuel n [] = [digit_char n] /\ n < 10
        \/ exists d r, to_radix 10 fuel n [] = digit_char d :: r /\ 0 < d < 10).
Proof.
  revert n acc rest. induction fuel as [|fuel IH]; intros n acc rest Hn Hfuel; [lia|].
  cbn [to_radix]. destruct (n / 10 =? 0) eqn:Hq.
  - apply N.eqb_eq, N.div_small_iff in Hq; [|done].
    exists 1. cbn [app parseInt_digits]. rewrite N.mod_small by done.
    rewrite parseInt_digit_digit_char by lia. rewrite N.pow_1_r. split; [done|]. by left.
  - apply N.eqb_neq in Hq.
    assert (Hfuel' : (0 < fuel)%nat).
    { destruct fuel; [|lia]. exfalso. apply Hq. apply N.div_small.
      change (2 ^ N.of_nat 1) with 2 in Hn. lia. }
    assert (Hn' : n / 10 < 2 ^ N.of_nat fuel).
    { apply N.Div0.div_lt_upper_bound.
      replace (N.of_nat (S fuel)) with (N.succ (N.of_nat fuel)) in Hn by lia.
      rewrite N.pow_succ_r' in Hn. lia. }
    rewrite to_radix_acc, <- app_assoc.
    destruct (IH (n / 10) acc ([digit_char (n mod 10)] ++ rest) Hn' Hfuel')
      as (k & Hread & Hfirst).
    exists (N.succ k). rewrite Hread. cbn [app parseInt_digits].
    rewrite parseInt_digit_digit_char by (try apply N.mod_lt; lia).
    cbn [default]. split.
    + do 2 f_equal. rewrite N.pow_succ_r'.
      pose proof (N.div_mod n 10 ltac:(done)) as Hdm. unfold id.
      generalize dependent (n / 10). generalize (n mod 10) (default 0 acc) (10 ^ k).
      intros; nia.
    + right. destruct Hfirst as [[-> Hsmall]|(d & r & -> & Hd)].
      * exists (n / 10), [digit_char (n mod 10)]. split; [done|].
        split; [by apply N.neq_0_lt_0|done].
      * exists d, (r ++ [digit_char (n mod 10)]). by split.
Qed.

Lemma N_toString_fuel n : n < 2 ^ N.of_nat (S (N.to_nat (N.log2 n))).
Proof.
  replace (N.of_nat (S (N.to_nat (N.log2 n)))) with (N.succ (N.log2 n)) by lia.
  destruct n as [|p]; [done|]. by apply N.log2_spec.
Qed.

(** The decimal rendering of a number starts with a digit, and with [0] only
    when the number is zero. *)
Lemma N_toString_head n :
  exists d r, N_toString 10 n = digit_char d :: r /\ d < 10 /\ (d = 0 -> r = []).
Proof.
  destruct (parseInt_digits_to_radix _ n None [] (N_toString_fuel n) ltac:(lia))
    as (k & _ & [[Heq Hsmall]|(d & r & Heq & Hd)]).
  - exists n, []. by rewrite <- Heq.
  - exists d, r. split; [done|]. split; [lia|]. lia.
Qed.

Lemma parseInt_digits_N_toString n : parseInt_digits 10 (N_toString 10 n) None = Some n.
Proof.
  destruct (parseInt_digits_to_radix _ n None [] (N_toString_fuel n) ltac:(lia))
    as (k & Hread & _).
  rewrite app_nil_r in Hread. unfold N_toString. rewrite Hread. cbn [parseInt_digits default].
  by rewrite N.mul_0_l.
Qed.

Lemma parseInt_N_toString n : parseInt (N_toString 10 n) = Some (Z.of_N n).
Proof.
  pose proof (parseInt_digits_N_toString n) as Hread.
  destruct (N_toString_head n) as (d & r & Heq & Hd & Hzero).
  unfold parseInt. rewrite Heq in *. unfold digit_char in *.
  rewrite (proj2 (N.ltb_lt _ _) Hd) in *. cbn [trimStart].
  assert (Hws : is_js_whitespace (48 + d) = false).
  { unfold is_js_whitespace.
    repeat match goal with
           | |- context [?a =? ?b] => rewrite (proj2 (N.eqb_neq a b)) by lia
           end.
    rewrite (proj2 (N.leb_gt 8192 (48 + d))) by lia. done. }
  rewrite Hws.
  rewrite (proj2 (N.eqb_neq (48 + d) 45)), (proj2 (N.eqb_neq (48 + d) 43)) by lia.
  destruct r as [|b r].
  - by rewrite Hread.
  - destruct (48 + d =? 48) eqn:Hd0.
    + apply N.eqb_eq in Hd0. by specialize (Hzero ltac:(lia)).
    + cbn [andb]. by rewrite Hread.
Qed.

End NumberFacts.

Section SetupFacts.

Import Setup.

Lemma falsy_or_else value fallback :
  fallback <> [] -> falsy (or_else value fallback) = false.
Proof.
  intros Hfallback. unfold or_else.
  destruct value as [[|c text]|]; cbn [falsy]; by destruct fallback.
Qed.

Lemma or_else_default value fallback :
  or_else value fallback = fallback
  <-> value = None \/ value = Some [] \/ value = Some fallback.
Proof.
  unfold or_else. destruct value as [[|c text]|]; cbn [falsy].
  - split; [auto|done].
  - split; [intros <-; auto|]. by intros [?|[?|[= <-]]].
  - split; [auto|done].
Qed.

Lemma falsy_or_else_nil value :
  falsy (or_else value []) = true <-> value = None \/ value = Some [].
Proof.
  unfold or_else. destruct value as [[|c text]|]; cbn [falsy].
  - split; auto.
  - split; [done|]. by intros [?|?].
  - split; auto.
Qed.

(** The errors of [validateEnvironment], one test after the other. *)
Lemma validateEnvironment_eq env :
  validateEnvironment env
  = let api := bool_decide (env !! js "NODE_ENV" = Some (js "production"))
               && falsy (or_else (env !! js "REACT_APP_API_URL") []) in
    let jwt := bool_decide (or_else (env !! js "REACT_APP_JWT_SECRET")
                              (js "your-jwt-secret-key") = js "your-jwt-secret-key") in
    {| isValid := negb api && negb jwt;
       errors := (if api then [js "API URL is not configured"] else [])
                 ++ (if jwt then [js "JWT Secret is not properly configured"] else []) |}.
Proof.
  unfold validateEnvironment, getEnvironmentConfig.
  cbn [apiUrl mongoUri jwtSecret].
  rewrite (falsy_or_else _ (js "mongodb://localhost:27017/certchain")) by done.
  rewrite (falsy_or_else _ (js "your-jwt-secret-key")) by done.
  cbn [orb]. change (js "") with (@nil N).
  destruct (bool_decide (env !! js "NODE_ENV" = Some (js "production"))); cbn [negb andb].
  - destruct (falsy (or_else _ [])); cbn [app negb andb];
      by destruct (bool_decide (or_else _ _ = _)).
  - change (falsy (js "http://localhost:3001/api")) with false. cbn [app negb andb].
    by destruct (bool_decide (or_else _ _ = _)).
Qed.

End SetupFacts.

(** X19.  [validateEnvironment]: the MongoDB error is never reported (the URI
    always falls back to the local one); the API URL error is reported
    exactly in production without [REACT_APP_API_URL]; the JWT error exactly
    when [REACT_APP_JWT_SECRET] is unset, empty or the placeholder.  So the
    environment is valid exactly when the secret is set to something other
    than the placeholder and, in production, the API URL is set; the other
    variables (the port, the Mongo and front-end URLs) play no part. *)
Theorem validateEnvironment_spec (env : Setup.process_env) :
  (js "MongoDB URI is not configured" ∉ Setup.errors (Setup.validateEnvironment env))
  /\ (js "API URL is not configured" ∈ Setup.errors (Setup.validateEnvironment env)
      <-> env !! js "NODE_ENV" = Some (js "production")
          /\ (env !! js "REACT_APP_API_URL" = None \/ env !! js "REACT_APP_API_URL" = Some []))
  /\ (js "JWT Secret is not properly configured" ∈ Setup.errors (Setup.validateEnvironment env)
      <-> env !! js "REACT_APP_JWT_SECRET" = None
          \/ env !! js "REACT_APP_JWT_SECRET" = Some []
          \/ env !! js "REACT_APP_JWT_SECRET" = Some (js "your-jwt-secret-key"))
  /\ (Setup.isValid (Setup.validateEnvironment env) = true
      <-> Setup.errors (Setup.validateEnvironment env) = [])
  /\ (Setup.isValid (Setup.validateEnvironment env) = true
      <-> (exists secret, env !! js "REACT_APP_JWT_SECRET" = Some secret
                          /\ secret <> [] /\ secret <> js "your-jwt-secret-key")
          /\ (env !! js "NODE_ENV" = Some (js "production") ->
              exists url, env !! js "REACT_APP_API_URL" = Some url /\ url <> [])).
Proof.
  rewrite validateEnvironment_eq. cbv zeta. cbn [Setup.errors Setup.isValid].
  pose proof (falsy_or_else_nil (env !! js "REACT_APP_API_URL")) as Hapi.
  pose proof (or_else_default (env !! js "REACT_APP_JWT_SECRET") (js "your-jwt-secret-key"))
    as Hjwt.
  set (api := bool_decide (env !! js "NODE_ENV" = Some (js "production"))
              && falsy (or_else (env !! js "REACT_APP_API_URL") [])).
  set (jwt := bool_decide (or_else (env !! js "REACT_APP_JWT_SECRET")
                             (js "your-jwt-secret-key") = js "your-jwt-secret-key")).
  assert (Hapi' : api = true
                  <-> env !! js "NODE_ENV" = Some (js "production")
                      /\ (env !! js "REACT_APP_API_URL" = None
                          \/ env !! js "REACT_APP_API_URL" = Some [])).
  { unfold api. by rewrite andb_true_iff, bool_decide_eq_true, Hapi. }
  assert (Hjwt' : jwt = true
                  <-> env !! js "REACT_APP_JWT_SECRET" = None
                      \/ env !! js "REACT_APP_JWT_SECRET" = Some []
                      \/ env !! js "REACT_APP_JWT_SECRET" = Some (js "your-jwt-secret-key")).
  { unfold jwt. by rewrite bool_decide_eq_true, Hjwt. }
  clearbody api jwt. clear Hapi Hjwt.
  rewrite <- Hapi', <- Hjwt'. split; [|split; [|split; [|split]]].
  - destruct api, jwt; cbn [app]; intros Hin;
      repeat (apply elem_of_cons in Hin as [Hin|Hin]; [by vm_compute in Hin|]);
      by apply elem_of_nil in Hin.
  - destruct api; [split; [done|intros _; left]|].
    split; [|done]. destruct jwt; cbn [app]; intros Hin;
      repeat (apply elem_of_cons in Hin as [Hin|Hin]; [by vm_compute in Hin|]);
      by apply elem_of_nil in Hin.
  - destruct jwt.
    + split; [done|intros _]. destruct api; cbn [app]; [right|]; left.
    + split; [|done]. destruct api; cbn [app]; intros Hin;
        repeat (apply elem_of_cons in Hin as [Hin|Hin]; [by vm_compute in Hin|]);
        by apply elem_of_nil in Hin.
  - by destruct api, jwt.
  - rewrite andb_true_iff, !negb_true_iff. split.
    + intros [Hno_api Hno_jwt]. split.
      * destruct (env !! js "REACT_APP_JWT_SECRET") as [secret|] eqn:Hsecret.
        -- exists secret. split; [done|].
           split; intros ->; (assert (jwt = true) by (apply Hjwt'; auto)); congruence.
        -- assert (jwt = true) by (apply Hjwt'; auto). congruence.
      * intros Hprod. destruct (env !! js "REACT_APP_API_URL") as [url|] eqn:Hurl.
        -- exists url. split; [done|]. intros ->.
           assert (api = true) by (apply Hapi'; auto). congruence.
        -- assert (api = true) by (apply Hapi'; auto). congruence.
    + intros [(secret & Hsecret & Hne & Hplace) Hurl]. split.
      * apply not_true_is_false. intros [Hprod Hmissing]%Hapi'.
        destruct (Hurl Hprod) as (url & Hset & Hurl_ne).
        destruct Hmissing; congruence.
      * apply not_true_is_false. intros Hbad%Hjwt'.
        destruct Hbad as [?|[?|?]]; congruence.
Qed.

Section PortFacts.

Lemma Z_toString_of_N n : Z_toString (Z.of_N n) = N_toString 10 n.
Proof. by destruct n. Qed.

Lemma parseInt_Z_toString_of_N n : parseInt (Z_toString (Z.of_N n)) = Some (Z.of_N n).
Proof. rewrite Z_toString_of_N. apply parseInt_N_toString. Qed.

Lemma gas_prices :
  forallb (fun r => bool_decide
                      (BlockchainUtils.getCurrentGasPrice r
                       = N_toString 10 (r + 10) ++ js "000000000"))
    (map N.of_nat (seq 0 50)) = true.
Proof. by vm_compute. Qed.

End PortFacts.



(** X21.  [getCurrentGasPrice]: the price is the decimal text of a whole number of
    gwei from 10 to 59 (60 is never reached), in wei: eleven digits, the last
    nine of them zeros, which [parseInt] reads back as that number. *)
Theorem getCurrentGasPrice_range (random50 : N) :
  random50 < 50 ->
  BlockchainUtils.getCurrentGasPrice random50 = N_toString 10 (random50 + 10) ++ js "000000000"
  /\ length (BlockchainUtils.getCurrentGasPrice random50) = 11%nat
  /\ parseInt (BlockchainUtils.getCurrentGasPrice random50)
     = Some ((Z.of_N random50 + 10) * 1000000000)%Z
  /\ (10 * 1000000000 <= (Z.of_N random50 + 10) * 1000000000 <= 59 * 1000000000)%Z.
Proof.
  intros Hdraw.
  assert (Htext : BlockchainUtils.getCurrentGasPrice random50
                  = N_toString 10 (random50 + 10) ++ js "000000000").
  { pose proof gas_prices as Hall. rewrite forallb_forall in Hall.
    apply (bool_decide_eq_true_1 _), (Hall random50), in_map_iff.
    exists (N.to_nat random50). split; [lia|]. apply in_seq. lia. }
  split; [done|]. split; [|split; [|lia]].
  - rewrite Htext, length_app.
    assert (Hlen : forallb (fun r => (length (N_toString 10 (r + 10)) =? 2)%nat)
                     (map N.of_nat (seq 0 50)) = true) by by vm_compute.
    rewrite forallb_forall in Hlen.
    rewrite (proj1 (Nat.eqb_eq _ _) (Hlen random50 ltac:(apply in_map_iff;
      exists (N.to_nat random50); split; [lia|apply in_seq; lia]))).
    reflexivity.
  - unfold BlockchainUtils.getCurrentGasPrice. cbv zeta.
    rewrite parseInt_Z_toString_of_N. f_equal. lia.
Qed.

Lemma getCurrentGasPrice_range_witness :
  BlockchainUtils.getCurrentGasPrice 49 = N_toString 10 (49 + 10) ++ js "000000000"
  /\ length (BlockchainUtils.getCurrentGasPrice 49) = 11%nat
  /\ parseInt (BlockchainUtils.getCurrentGasPrice 49) = Some ((Z.of_N 49 + 10) * 1000000000)%Z
  /\ (10 * 1000000000 <= (Z.of_N 49 + 10) * 1000000000 <= 59 * 1000000000)%Z.
Proof. apply (getCurrentGasPrice_range 49). lia. Defined.

(** X22.  [shortenAddress] keeps the first six and the last four characters of a
    non-empty address around three dots.  The result is shorter than the
    address only when the address has more than thirteen characters; an
    address of at most four characters appears whole on both sides. *)
Theorem shortenAddress_spec (address : jsstring) :
  address <> [] ->
  BlockchainUtils.shortenAddress address
  = take 6 address ++ js "..." ++ drop (length address - 4) address
  /\ length (BlockchainUtils.shortenAddress address)
     = (min 6 (length address) + 3 + min 4 (length address))%nat
  /\ ((length (BlockchainUtils.shortenAddress address) < length address)%nat
      <-> (13 < length address)%nat)
  /\ ((length address <= 4)%nat ->
      BlockchainUtils.shortenAddress address = address ++ js "..." ++ address).
Proof.
  intros Hne.
  assert (Heq : BlockchainUtils.shortenAddress address
                = take 6 address ++ js "..." ++ drop (length address - 4) address).
  { unfold BlockchainUtils.shortenAddress, substring. destruct address as [|c r]; [done|].
    cbn [falsy]. rewrite Nat.sub_0_r, drop_0. do 2 f_equal.
    apply take_ge. rewrite length_drop. lia. }
  assert (Hlen : length (BlockchainUtils.shortenAddress address)
                 = (min 6 (length address) + 3 + min 4 (length address))%nat).
  { rewrite Heq, !length_app, length_take, length_drop.
    change (length (js "...")) with 3%nat. lia. }
  split; [done|]. split; [done|]. split; [lia|].
  intros Hshort. rewrite Heq. rewrite take_ge by lia.
  by replace (length address - 4)%nat with 0%nat by lia.
Qed.

Lemma shortenAddress_spec_witness :
  BlockchainUtils.shortenAddress (js "0xAB")
  = take 6 (js "0xAB") ++ js "..." ++ drop (length (js "0xAB") - 4) (js "0xAB")
  /\ length (BlockchainUtils.shortenAddress (js "0xAB"))
     = (min 6 (length (js "0xAB")) + 3 + min 4 (length (js "0xAB")))%nat
  /\ ((length (BlockchainUtils.shortenAddress (js "0xAB")) < length (js "0xAB"))%nat
      <-> (13 < length (js "0xAB"))%nat)
  /\ ((length (js "0xAB") <= 4)%nat ->
      BlockchainUtils.shortenAddress (js "0xAB") = js "0xAB" ++ js "..." ++ js "0xAB").
Proof. apply (shortenAddress_spec (js "0xAB")). done. Defined.

(** X23.  The simulated blockchain service.  A new service is connected, and its
    account is [0x] and forty lowercase hexadecimal digits, which
    [shortenAddress] shows as [0x], the first four digits, three dots and the
    last four digits.  The transaction hash of [issueCertificateOnChain] is
    [0x] and sixty-four such digits, whatever is issued.
    [verifyCertificateOnChain] never answers null and never answers invalid:
    every identifier, issued or not, is reported valid, with a hash that does
    not depend on it. *)
Theorem simulated_chain (env : Env) (certificateId dataHash issuer : jsstring) :
  (forall k, random16 env k < 16) ->
  BlockchainUtils.isWalletConnected (BlockchainUtils.constructor env) = true
  /\ (exists account,
        BlockchainUtils.getAccount (BlockchainUtils.constructor env) = Some account
        /\ account = js "0x" ++ map (fun k => digit_char (random16 env k)) (seq 0 40)
        /\ Forall (fun c => c ∈ hex_digits) (drop 2 account)
        /\ BlockchainUtils.shortenAddress account
           = js "0x" ++ map (fun k => digit_char (random16 env k)) (seq 0 4) ++ js "..."
             ++ map (fun k => digit_char (random16 env k)) (seq 36 4))
  /\ (length (BlockchainUtils.issueCertificateOnChain env certificateId dataHash issuer) = 66%nat
      /\ take 2 (BlockchainUtils.issueCertificateOnChain env certificateId dataHash issuer)
         = js "0x"
      /\ Forall (fun c => c ∈ hex_digits)
           (drop 2 (BlockchainUtils.issueCertificateOnChain env certificateId dataHash issuer)))
  /\ (exists onChain,
        BlockchainUtils.verifyCertificateOnChain env certificateId = Some onChain
        /\ BlockchainUtils.isValid onChain = true
        /\ BlockchainUtils.certificateId onChain = certificateId
        /\ BlockchainUtils.hash onChain
           = BlockchainUtils.hash
               (default onChain (BlockchainUtils.verifyCertificateOnChain env []))
        /\ length (BlockchainUtils.hash onChain) = 66%nat).
Proof.
  intros Hdraws. split; [done|]. split; [|split].
  - eexists. split; [reflexivity|].
    pose proof (random_hex_shape env 0 40 Hdraws) as (_ & _ & Hhex).
    rewrite (random_hex_digits env 0 40 Hdraws) in *. split; [done|]. split; [done|].
    reflexivity.
  - apply (random_hex_shape env 0 64 Hdraws).
  - eexists. split; [reflexivity|]. cbn [BlockchainUtils.isValid BlockchainUtils.certificateId
      BlockchainUtils.hash default BlockchainUtils.verifyCertificateOnChain].
    repeat split. apply (random_hex_shape env 0 64 Hdraws).
Qed.

Lemma simulated_chain_witness :
  BlockchainUtils.isWalletConnected (BlockchainUtils.constructor env0) = true
  /\ (exists account,
        BlockchainUtils.getAccount (BlockchainUtils.constructor env0) = Some account
        /\ account = js "0x" ++ map (fun k => digit_char (random16 env0 k)) (seq 0 40)
        /\ Forall (fun c => c ∈ hex_digits) (drop 2 account)
        /\ BlockchainUtils.shortenAddress account
           = js "0x" ++ map (fun k => digit_char (random16 env0 k)) (seq 0 4) ++ js "..."
             ++ map (fun k => digit_char (random16 env0 k)) (seq 36 4))
  /\ (length (BlockchainUtils.issueCertificateOnChain env0 (js "CERT-1") (js "0x0") (js "me"))
      = 66%nat
      /\ take 2 (BlockchainUtils.issueCertificateOnChain env0 (js "CERT-1") (js "0x0") (js "me"))
         = js "0x"
      /\ Forall (fun c => c ∈ hex_digits)
           (drop 2 (BlockchainUtils.issueCertificateOnChain env0 (js "CERT-1") (js "0x0")
                      (js "me"))))
  /\ (exists onChain,
        BlockchainUtils.verifyCertificateOnChain env0 (js "CERT-1") = Some onChain
        /\ BlockchainUtils.isValid onChain = true
        /\ BlockchainUtils.certificateId onChain = js "CERT-1"
        /\ BlockchainUtils.hash onChain
           = BlockchainUtils.hash
               (default onChain (BlockchainUtils.verifyCertificateOnChain env0 []))
        /\ length (BlockchainUtils.hash onChain) = 66%nat).
Proof.
  apply (simulated_chain env0 (js "CERT-1") (js "0x0") (js "me")).
  intros k. cbn [random16 env0]. apply N.mod_lt. lia.
Defined.

(** ** The issue page, and the two pages one after the other *)

Section PageFacts.

Lemma trimStart_app s t :
  trimStart (s ++ t)
  = if forallb is_js_whitespace s then trimStart t else trimStart s ++ t.
Proof.
  induction s as [|c s IH]; [done|]. cbn [app trimStart forallb].
  destruct (is_js_whitespace c); [exact IH|done].
Qed.

Lemma trimEnd_app_whitespace s t :
  forallb is_js_whitespace t = true -> trimEnd (s ++ t) = trimEnd s.
Proof.
  intros Ht. unfold trimEnd. rewrite reverse_app, trimStart_app, forallb_reverse, Ht.
  done.
Qed.

(** White space around a text does not change its [trim]. *)
Lemma trim_padded before s after :
  forallb is_js_whitespace before = true ->
  forallb is_js_whitespace after = true ->
  trim (before ++ s ++ after) = trim s.
Proof.
  intros Hbefore Hafter. unfold trim.
  rewrite trimStart_app, Hbefore, trimStart_app.
  destruct (forallb is_js_whitespace s) eqn:Hs.
  - by rewrite (trimStart_all after), (trimStart_all s).
  - by apply trimEnd_app_whitespace.
Qed.

Lemma is_upper_alnum_not_whitespace c :
  is_upper_alnum c = true -> is_js_whitespace c = false.
Proof.
  unfold is_upper_alnum, JSON.is_digit. intros Hc.
  assert (Hrange : 48 <= c <= 90).
  { apply orb_prop in Hc as [[H1 H2]%andb_prop|[H1 H2]%andb_prop];
      apply N.leb_le in H1, H2; lia. }
  unfold is_js_whitespace.
  repeat match goal with
         | |- context [?a =? ?b] => rewrite (proj2 (N.eqb_neq a b)) by lia
         end.
  by rewrite (proj2 (N.leb_gt 8192 c)) by lia.
Qed.

(** A generated identifier has no white space at either end. *)
Lemma trim_generateCertificateId env :
  Forall (fun d => d < 36) (random36 env) ->
  trim (Api.generateCertificateId env) = Api.generateCertificateId env.
Proof.
  intros Hdigits. apply trim_id.
  - unfold Api.generateCertificateId. by intros c r [= <- _].
  - intros r c Hid.
    assert (Hlast : last (Api.generateCertificateId env) = Some c)
      by (rewrite Hid; apply last_snoc).
    unfold Api.generateCertificateId in Hlast. cbv zeta in Hlast.
    rewrite substring_random36_digits in Hlast.
    rewrite !app_assoc, last_app in Hlast.
    destruct (last (toUpperCase (digit_char <$> take 6 (random36 env)))) as [x|] eqn:Hx.
    + injection Hlast as <-. apply is_upper_alnum_not_whitespace.
      apply last_Some in Hx as (l' & Hx).
      assert (Hin : x ∈ toUpperCase (digit_char <$> take 6 (random36 env)))
        by (rewrite Hx; apply elem_of_app; right; left).
      unfold toUpperCase in Hin.
      apply list_elem_of_fmap in Hin as (y & -> & (d & -> & Hd)%list_elem_of_fmap).
      apply is_upper_alnum_digit_char.
      apply elem_of_take in Hd as (i & Hd & _).
      by apply (Forall_lookup_1 _ _ _ _ Hdigits Hd).
    + change (js "-") with [45] in Hlast. rewrite last_snoc in Hlast.
      by injection Hlast as <-.
Qed.

Lemma issue_page_handleSubmit_eq mutationFn p ls :
  IssueCertificatePage.handleSubmit mutationFn p ls
  = if falsy (IssueCertificateRequest.recipientName (IssueCertificatePage.formData p))
       || falsy (IssueCertificateRequest.courseName (IssueCertificatePage.formData p))
       || falsy (IssueCertificateRequest.issuerName (IssueCertificatePage.formData p))
    then (Return (IssueCertificatePage.show_toast
                    {| VerifyCertificate.title := js "Missing Information";
                       VerifyCertificate.description := js "Please fill in all required fields.";
                       VerifyCertificate.variant := Some (js "destructive") |} p), ls)
    else IssueCertificatePage.mutate mutationFn (IssueCertificatePage.formData p) p ls.
Proof.
  unfold IssueCertificatePage.handleSubmit, IssueCertificate.handleSubmit, bind.
  destruct (_ || _); [done|]. unfold ret.
  unfold IssueCertificatePage.mutate.
  by destruct (mutationFn _ ls) as [[data|e|] ls'].
Qed.

Lemma issue_page_submit_eq mutationFn p ls :
  IssueCertificateRequest.recipientName (IssueCertificatePage.formData p) <> [] ->
  IssueCertificateRequest.courseName (IssueCertificatePage.formData p) <> [] ->
  IssueCertificateRequest.issuerName (IssueCertificatePage.formData p) <> [] ->
  IssueCertificatePage.handleSubmit mutationFn p ls
  = IssueCertificatePage.mutate mutationFn (IssueCertificatePage.formData p) p ls.
Proof.
  intros Hname Hcourse Hissuer. rewrite issue_page_handleSubmit_eq.
  destruct (IssueCertificateRequest.recipientName _) as [|? ?]; [done|].
  destruct (IssueCertificateRequest.courseName _) as [|? ?]; [done|].
  by destruct (IssueCertificateRequest.issuerName _) as [|? ?].
Qed.

End PageFacts.

(** X24.  The issue page over the localStorage-only [issue], on a readable store
    and a form whose three required fields are filled in: the record built
    from the form is appended to the store, the toast shows the generated
    identifier, and the form is reset to empty fields. *)
Theorem issue_page_success (env : Env) (p : IssueCertificatePage.page) (ls : localStorage)
    (l : list Certificate.t) :
  stored_certificates ls = Return l ->
  IssueCertificateRequest.recipientName (IssueCertificatePage.formData p) <> [] ->
  IssueCertificateRequest.courseName (IssueCertificatePage.formData p) <> [] ->
  IssueCertificateRequest.issuerName (IssueCertificatePage.formData p) <> [] ->
  IssueCertificatePage.handleSubmit (LocalApi.issue env) p ls
  = (Return {| IssueCertificatePage.formData := IssueCertificatePage.emptyForm;
               IssueCertificatePage.toasts :=
                 IssueCertificatePage.toasts p
                 ++ [{| VerifyCertificate.title := js "Certificate Issued Successfully!";
                        VerifyCertificate.description :=
                          js "Certificate ID: " ++ Api.generateCertificateId env;
                        VerifyCertificate.variant := None |}] |},
     <[STORAGE_KEY := store_text (l ++ [newCertificate env (IssueCertificatePage.formData p)])]>
       ls).
Proof.
  intros Hl Hname Hcourse Hissuer. rewrite issue_page_submit_eq by done.
  unfold IssueCertificatePage.mutate. by rewrite LocalApi_issue_eq, Hl.
Qed.

Lemma issue_page_success_witness :
  IssueCertificatePage.handleSubmit (LocalApi.issue env1)
    {| IssueCertificatePage.formData := request0; IssueCertificatePage.toasts := [] |} seeded
  = (Return {| IssueCertificatePage.formData := IssueCertificatePage.emptyForm;
               IssueCertificatePage.toasts :=
                 [] ++ [{| VerifyCertificate.title := js "Certificate Issued Successfully!";
                           VerifyCertificate.description :=
                             js "Certificate ID: " ++ Api.generateCertificateId env1;
                           VerifyCertificate.variant := None |}] |},
     <[STORAGE_KEY := store_text (samples env0 ++ [newCertificate env1 request0])]> seeded).
Proof.
  apply (issue_page_success env1
           {| IssueCertificatePage.formData := request0; IssueCertificatePage.toasts := [] |}
           seeded (samples env0)); by vm_compute.
Defined.

(** X25.  When the mutation function throws, whatever it throws, the issue page
    shows the toast Error and keeps the form as it was filled in. *)
Theorem issue_page_failure_keeps_form (mutationFn : IssueCertificateRequest.t -> M jsstring)
    (p : IssueCertificatePage.page) (ls ls' : localStorage) (e : exn) :
  IssueCertificateRequest.recipientName (IssueCertificatePage.formData p) <> [] ->
  IssueCertificateRequest.courseName (IssueCertificatePage.formData p) <> [] ->
  IssueCertificateRequest.issuerName (IssueCertificatePage.formData p) <> [] ->
  mutationFn (IssueCertificatePage.formData p) ls = (Throw e, ls') ->
  IssueCertificatePage.handleSubmit mutationFn p ls
  = (Return {| IssueCertificatePage.formData := IssueCertificatePage.formData p;
               IssueCertificatePage.toasts :=
                 IssueCertificatePage.toasts p
                 ++ [{| VerifyCertificate.title := js "Error";
                        VerifyCertificate.description :=
                          js "Failed to issue certificate. Please try again.";
                        VerifyCertificate.variant := Some (js "destructive") |}] |}, ls').
Proof.
  intros Hname Hcourse Hissuer Hthrow. rewrite issue_page_submit_eq by done.
  unfold IssueCertificatePage.mutate. by rewrite Hthrow.
Qed.

Lemma issue_page_failure_keeps_form_witness :
  IssueCertificatePage.handleSubmit (LocalApi.issue env1)
    {| IssueCertificatePage.formData := request0; IssueCertificatePage.toasts := [] |}
    {[ STORAGE_KEY := js "{" ]}
  = (Return {| IssueCertificatePage.formData := request0;
               IssueCertificatePage.toasts :=
                 [] ++ [{| VerifyCertificate.title := js "Error";
                           VerifyCertificate.description :=
                             js "Failed to issue certificate. Please try again.";
                           VerifyCertificate.variant := Some (js "destructive") |}] |},
     {[ STORAGE_KEY := js "{" ]}).
Proof.
  apply (issue_page_failure_keeps_form (LocalApi.issue env1)
           {| IssueCertificatePage.formData := request0; IssueCertificatePage.toasts := [] |}
           {[ STORAGE_KEY := js "{" ]} {[ STORAGE_KEY := js "{" ]} SyntaxError); by vm_compute.
Defined.

(** X26.  The two pages one after the other, over the localStorage-only module.
    After the issue page has issued a certificate under an identifier no
    stored record had, typing that identifier into the verify page, with or
    without white space around it, shows the record built from the form, with
    the toast Certificate Verified. *)
Theorem issued_then_verified_on_the_pages (env : Env) (p : IssueCertificatePage.page)
    (ls : localStorage) (l : list Certificate.t) (before after : jsstring) :
  stored_certificates ls = Return l ->
  (forall c, c ∈ l -> Certificate.certificateId c <> Api.generateCertificateId env) ->
  IssueCertificateRequest.recipientName (IssueCertificatePage.formData p) <> [] ->
  IssueCertificateRequest.courseName (IssueCertificatePage.formData p) <> [] ->
  IssueCertificateRequest.issuerName (IssueCertificatePage.formData p) <> [] ->
  Forall (fun d => d < 36) (random36 env) ->
  forallb is_js_whitespace before = true ->
  forallb is_js_whitespace after = true ->
  exists p' ls',
    IssueCertificatePage.handleSubmit (LocalApi.issue env) p ls = (Return p', ls')
    /\ VerifyCertificate.handleSubmit LocalApi.verify
         (VerifyCertificate.typed (before ++ Api.generateCertificateId env ++ after)) ls'
       = (Return {| VerifyCertificate.certificateId :=
                      before ++ Api.generateCertificateId env ++ after;
                    VerifyCertificate.verificationResult :=
                      Some (newCertificate env (IssueCertificatePage.formData p));
                    VerifyCertificate.toasts :=
                      [{| VerifyCertificate.title := js "Certificate Verified";
                          VerifyCertificate.description :=
                            js "This certificate is valid and authentic.";
                          VerifyCertificate.variant := None |}] |}, ls').
Proof.
  intros Hl Hfresh Hname Hcourse Hissuer Hdigits Hbefore Hafter.
  eexists _, _. split.
  { rewrite issue_page_submit_eq by done. unfold IssueCertificatePage.mutate.
    rewrite LocalApi_issue_eq, Hl. reflexivity. }
  assert (Htrim : trim (before ++ Api.generateCertificateId env ++ after)
                  = Api.generateCertificateId env)
    by (by rewrite trim_padded, trim_generateCertificateId).
  rewrite (handleSubmit_verify_eq _ _ (l ++ [newCertificate env (IssueCertificatePage.formData p)])).
  - cbn [VerifyCertificate.typed VerifyCertificate.certificateId]. rewrite Htrim.
    assert (Hfind : find (certificate_with (Api.generateCertificateId env))
                      (l ++ [newCertificate env (IssueCertificatePage.formData p)])
                    = Some (newCertificate env (IssueCertificatePage.formData p))).
    { apply find_certificate_with_first. exists l, []. by repeat split. }
    by rewrite Hfind.
  - apply stored_certificates_insert.
  - cbn [VerifyCertificate.typed VerifyCertificate.certificateId].
    rewrite <- falsy_trim, Htrim. done.
Qed.

Lemma issued_then_verified_on_the_pages_witness :
  exists p' ls',
    IssueCertificatePage.handleSubmit (LocalApi.issue env1)
      {| IssueCertificatePage.formData := request0; IssueCertificatePage.toasts := [] |} seeded
    = (Return p', ls')
    /\ VerifyCertificate.handleSubmit LocalApi.verify
         (VerifyCertificate.typed (js "  " ++ Api.generateCertificateId env1 ++ js " ")) ls'
       = (Return {| VerifyCertificate.certificateId :=
                      js "  " ++ Api.generateCertificateId env1 ++ js " ";
                    VerifyCertificate.verificationResult := Some (newCertificate env1 request0);
                    VerifyCertificate.toasts :=
                      [{| VerifyCertificate.title := js "Certificate Verified";
                          VerifyCertificate.description :=
                            js "This certificate is valid and authentic.";
                          VerifyCertificate.variant := None |}] |}, ls').
Proof.
  apply (issued_then_verified_on_the_pages env1
           {| IssueCertificatePage.formData := request0; IssueCertificatePage.toasts := [] |}
           seeded (samples env0) (js "  ") (js " ")); try by vm_compute.
  - intros c Hc. unfold samples, sampleCertificates in Hc.
    repeat (apply elem_of_cons in Hc as [->|Hc]; [by vm_compute|]).
    by apply elem_of_nil in Hc.
  - apply (bool_decide_unpack _). by vm_compute.
Defined.
